(** * VaultPrivacy: domain normalisation, vault parsing, cached lookup, report

    A shallow embedding of the Python sources

      - [vaultprivacy/parser.py]            ([normalize_domain], [extract_domains])
      - [vaultprivacy/domain_normalizer.py] ([normalize])
      - [vaultprivacy/api_client.py]        ([_load_cache], [_best_match], [lookup_tosdr])
      - [vaultprivacy/reporting.py]         ([generate_markdown_report])
      - [vaultprivacy/main.py]              (the normalisation stage and the
                                             lookup loop of [main])

    Python text is modelled as [string] (8-bit characters; the model is exact
    on ASCII text, which is where [str.lower], [str.strip] and
    [urllib.parse] act character by character).  Python exceptions are
    modelled by the error monad [result]; ambient state (cache file, network,
    sleeping) by explicit state passing over a [world]. *)

From Stdlib Require Import Ascii String ZArith List Bool Lia QArith.
From Stdlib Require Import Floats.SpecFloat.
From stdpp Require Import base gmap strings list sorting.

Local Open Scope Z_scope.
Local Open Scope nat_scope.

(* ===================================================================== *)
(** * The Python run time: exceptions, text, JSON values                  *)
(* ===================================================================== *)

Module Py.

(** Failures of [requests.get] / [resp.json()]: all of them are subclasses of
    [requests.RequestException]. *)
Inductive request_failure :=
| ConnectionError
| Timeout
| InvalidJSON
| OtherRequestError.

(** The exception classes the modelled code can raise. *)
Inductive exn :=
| AttributeError
| TypeError
| ValueError
| KeyError
| IndexError
| SystemExit
| OverflowError
| ZeroDivisionError
| FileNotFoundError
| UnicodeDecodeError
| JSONDecodeError
| RequestException (k : request_failure).

(** [isinstance(e, requests.RequestException)] *)
Definition is_request_exception (e : exn) : bool :=
  match e with RequestException _ => true | _ => false end.

(** A computation that returns a value or raises. *)
Inductive result (A : Type) :=
| Ok (a : A)
| Raise (e : exn).
Arguments Ok {A} a.
Arguments Raise {A} e.

Definition bind {A B} (m : result A) (k : A → result B) : result B :=
  match m with
  | Ok a => k a
  | Raise e => Raise e
  end.

Declare Scope py_scope.
Delimit Scope py_scope with py.
Notation "x <~ m ;; k" := (bind m (fun x => k))
  (at level 20, m at level 99, k at level 200, only parsing) : py_scope.

(** ** Characters *)

Definition code (c : ascii) : nat := nat_of_ascii c.

Definition between (lo hi : nat) (c : ascii) : bool :=
  (lo <=? code c) && (code c <=? hi).

(** [str.isspace] on ASCII: TAB, LF, VT, FF, CR, FS, GS, RS, US and SPACE. *)
Definition is_space (c : ascii) : bool := between 9 13 c || between 28 32 c.

Definition is_upper (c : ascii) : bool := between 65 90 c.
Definition is_lower (c : ascii) : bool := between 97 122 c.
Definition is_alpha (c : ascii) : bool := is_upper c || is_lower c.
Definition is_digit (c : ascii) : bool := between 48 57 c.
Definition is_hex (c : ascii) : bool :=
  is_digit c || between 65 70 c || between 97 102 c.

Definition lower_char (c : ascii) : ascii :=
  if is_upper c then ascii_of_nat (code c + 32) else c.

(** ** Text *)

Fixpoint str_map (f : ascii → ascii) (s : string) : string :=
  match s with
  | EmptyString => EmptyString
  | String c t => String (f c) (str_map f t)
  end.

Fixpoint str_all (p : ascii → bool) (s : string) : bool :=
  match s with
  | EmptyString => true
  | String c t => p c && str_all p t
  end.

Fixpoint str_filter (p : ascii → bool) (s : string) : string :=
  match s with
  | EmptyString => EmptyString
  | String c t => if p c then String c (str_filter p t) else str_filter p t
  end.

(** [s.lower()] *)
Definition lower (s : string) : string := str_map lower_char s.

(** [s.lstrip(chars)], [s.rstrip(chars)] with the stripped class as a predicate. *)
Fixpoint lstrip_by (p : ascii → bool) (s : string) : string :=
  match s with
  | EmptyString => EmptyString
  | String c t => if p c then lstrip_by p t else s
  end.

Fixpoint rstrip_by (p : ascii → bool) (s : string) : string :=
  match s with
  | EmptyString => EmptyString
  | String c t =>
      match rstrip_by p t with
      | EmptyString => if p c then EmptyString else String c EmptyString
      | r => String c r
      end
  end.

(** [s.strip()] *)
Definition strip (s : string) : string := rstrip_by is_space (lstrip_by is_space s).

(** [s.startswith(p)] *)
Fixpoint startswith (p s : string) : bool :=
  match p, s with
  | EmptyString, _ => true
  | String a p', String b s' => Ascii.eqb a b && startswith p' s'
  | String _ _, EmptyString => false
  end.

(** [sub in s] for two strings *)
Fixpoint str_in (sub s : string) : bool :=
  startswith sub s ||
  match s with
  | EmptyString => false
  | String _ t => str_in sub t
  end.

(** [c in s] for a one-character string [c] *)
Fixpoint has_char (c : ascii) (s : string) : bool :=
  match s with
  | EmptyString => false
  | String a t => Ascii.eqb a c || has_char c t
  end.

(** [s[n:]] *)
Fixpoint str_drop (n : nat) (s : string) : string :=
  match n, s with
  | O, _ => s
  | S n', String _ t => str_drop n' t
  | S _, EmptyString => EmptyString
  end.

(** [s.partition(c)] for a one-character separator: the text before the
    first [c], whether [c] was found, and the text after it. *)
Fixpoint partition (c : ascii) (s : string) : string * bool * string :=
  match s with
  | EmptyString => (EmptyString, false, EmptyString)
  | String a t =>
      if Ascii.eqb a c then (EmptyString, true, t)
      else let '(b, f, r) := partition c t in (String a b, f, r)
  end.

(** [s.rpartition(c)]: split at the last [c]; when [c] does not occur the
    whole text is the third component. *)
Fixpoint rpartition (c : ascii) (s : string) : string * bool * string :=
  match s with
  | EmptyString => (EmptyString, false, EmptyString)
  | String a t =>
      let '(b, f, r) := rpartition c t in
      if f then (String a b, true, r)
      else if Ascii.eqb a c then (EmptyString, true, t)
      else (EmptyString, false, String a t)
  end.

(** The longest prefix without a character of class [p] (the text up to the
    first delimiter). *)
Fixpoint take_until (p : ascii → bool) (s : string) : string :=
  match s with
  | EmptyString => EmptyString
  | String a t => if p a then EmptyString else String a (take_until p t)
  end.

Fixpoint drop_until (p : ascii → bool) (s : string) : string :=
  match s with
  | EmptyString => EmptyString
  | String a t => if p a then s else drop_until p t
  end.

(** [s.split(c)] for a one-character separator; never the empty list. *)
Fixpoint split (c : ascii) (s : string) : list string :=
  match s with
  | EmptyString => [EmptyString]
  | String a t =>
      if Ascii.eqb a c then EmptyString :: split c t
      else match split c t with
           | x :: r => String a x :: r
           | [] => [String a EmptyString]
           end
  end.

(** [sep.join(l)] *)
Fixpoint join (sep : string) (l : list string) : string :=
  match l with
  | [] => EmptyString
  | [x] => x
  | x :: r => x +:+ sep +:+ join sep r
  end.

(** [l[-n:]] for [n > 0] *)
Definition last_n {A} (n : nat) (l : list A) : list A := drop (length l - n) l.


(** ** Values read from JSON ([json.loads]) *)

(** [None], [bool], [int], [float] (a binary64 value), [str], [list] and
    [dict] with text keys. *)
#[warnings="-register-all"]
Inductive json :=
| JNull
| JBool (b : bool)
| JInt (z : Z)
| JFloat (f : spec_float)
| JStr (s : string)
| JList (l : list json)
| JDict (m : gmap string json).

(** [bool(v)] *)
Definition truthy (v : json) : bool :=
  match v with
  | JNull => false
  | JBool b => b
  | JInt z => negb (z =? 0)%Z
  | JFloat (S754_zero _) => false
  | JFloat _ => true
  | JStr s => negb (String.eqb s "")
  | JList l => match l with [] => false | _ => true end
  | JDict m => negb (bool_decide (m = ∅))
  end.

(** [a or b] *)
Definition py_or (a b : json) : json := if truthy a then a else b.

(** [isinstance(v, dict)] *)
Definition is_dict (v : json) : bool :=
  match v with JDict _ => true | _ => false end.

(** [v.get(key, default)]: only a [dict] has the method *)
Definition py_get (v : json) (key : string) (dflt : json) : result json :=
  match v with
  | JDict m => Ok (default dflt (m !! key))
  | _ => Raise AttributeError
  end.

(** [v[key]] for a text key *)
Definition py_getitem (v : json) (key : string) : result json :=
  match v with
  | JDict m => match m !! key with Some x => Ok x | None => Raise KeyError end
  | _ => Raise TypeError
  end.

(** [v[0]] *)
Definition py_getitem0 (v : json) : result json :=
  match v with
  | JList (x :: _) => Ok x
  | JList [] => Raise IndexError
  | JStr (String c _) => Ok (JStr (String c ""))
  | JStr EmptyString => Raise IndexError
  | JDict _ => Raise KeyError
  | _ => Raise TypeError
  end.

(** [v[key] = x] for a text key *)
Definition py_setitem (v : json) (key : string) (x : json) : result json :=
  match v with
  | JDict m => Ok (JDict (<[key := x]> m))
  | _ => Raise TypeError
  end.

(** [v == text] *)
Definition eq_text (text : string) (v : json) : bool :=
  match v with JStr s => String.eqb s text | _ => false end.

(** [text in v]: substring of a [str], element of a [list], key of a [dict] *)
Definition py_in (text : string) (v : json) : result bool :=
  match v with
  | JStr s => Ok (str_in text s)
  | JList l => Ok (existsb (eq_text text) l)
  | JDict m => Ok (bool_decide (is_Some (m !! text)))
  | _ => Raise TypeError
  end.

Fixpoint chars (s : string) : list json :=
  match s with
  | EmptyString => []
  | String c t => JStr (String c "") :: chars t
  end.

(** [iter(v)]: the elements of a [list], the characters of a [str], the keys
    of a [dict] *)
Definition py_iter (v : json) : result (list json) :=
  match v with
  | JList l => Ok l
  | JStr s => Ok (chars s)
  | JDict m => Ok (JStr <$> (map_to_list m).*1)
  | _ => Raise TypeError
  end.

(** [int(text)]: surrounding white space, an optional sign, and decimal digits
    in groups separated by single underscores *)
Fixpoint decimal_value (acc : Z) (s : string) : Z :=
  match s with
  | EmptyString => acc
  | String c t => decimal_value (10 * acc + Z.of_nat (code c - 48))%Z t
  end.

Definition int_of_text (s : string) : option Z :=
  let s := strip s in
  let '(negative, body) :=
    match s with
    | String "-" t => (true, t)
    | String "+" t => (false, t)
    | _ => (false, s)
    end in
  if forallb (λ g, negb (String.eqb g "") && str_all is_digit g) (split "_" body)
  then let n := decimal_value 0 (str_filter is_digit body) in
       Some (if negative then - n else n)%Z
  else None.

(** [int(v)] *)
Definition py_int (v : json) : result Z :=
  match v with
  | JBool b => Ok (if b then 1 else 0)%Z
  | JInt z => Ok z
  | JFloat (S754_zero _) => Ok 0%Z
  | JFloat (S754_infinity _) => Raise OverflowError
  | JFloat S754_nan => Raise ValueError
  | JFloat (S754_finite neg m e) =>
      let magnitude := Z.shiftl (Zpos m) e in
      Ok (if neg then - magnitude else magnitude)%Z
  | JStr s => match int_of_text s with Some z => Ok z | None => Raise ValueError end
  | _ => Raise TypeError
  end.

(** ** Files holding JSON *)

(** What [open(path, encoding="utf-8").read()] followed by [json.loads]
    finds: no file, bytes that are not UTF-8 text, text that is not JSON, or
    a JSON value. *)
Inductive file_state :=
| Missing
| NotUtf8
| NotJson
| Holds (j : json).

End Py.

(* ===================================================================== *)
(** * [ipaddress] and [urllib.parse] (CPython 3.12), as far as
      [urlparse(s).hostname] depends on them                              *)
(* ===================================================================== *)

Module IpAddress.
Import Py.

Fixpoint decimal_acc (acc : nat) (s : string) : nat :=
  match s with
  | EmptyString => acc
  | String c t => decimal_acc (10 * acc + (code c - 48)) t
  end.

(** [IPv4Address._parse_octet] does not raise *)
Definition octet_ok (o : string) : bool :=
  negb (String.eqb o "") && str_all is_digit o && (String.length o <=? 3)
  && negb (negb (String.eqb o "0") && startswith "0" o)
  && (decimal_acc 0 o <=? 255).

(** [IPv4Address(s)] does not raise *)
Definition ipv4_ok (s : string) : bool :=
  negb (has_char "/" s) && negb (String.eqb s "")
  && (length (split "." s) =? 4) && forallb octet_ok (split "." s).

(** [IPv6Address._parse_hextet] does not raise: one to four hex digits *)
Definition hextet_ok (h : string) : bool :=
  negb (String.eqb h "") && str_all is_hex h && (String.length h <=? 4).

(** the indices [i] in [range(1, len(parts) - 1)] with [not parts[i]] *)
Definition interior_empty (parts : list string) : list nat :=
  filter (λ i, String.eqb (nth i parts "x") "" = true) (seq 1 (length parts - 2)).

(** [IPv6Address._ip_int_from_string] does not raise.  An embedded IPv4
    suffix is replaced by two hextets; only their validity matters here, so
    they are written as ["0"]. *)
Definition ipv6_int_ok (ip_str : string) : bool :=
  if String.eqb ip_str "" then false else
  let parts := split ":" ip_str in
  if length parts <? 3 then false else
  let tail := List.last parts "" in
  let parts' :=
    if has_char "." tail
    then if ipv4_ok tail then Some (removelast parts ++ ["0"; "0"]) else None
    else Some parts in
  match parts' with
  | None => false
  | Some parts =>
      if 9 <? length parts then false else
      let first_empty := String.eqb (nth 0 parts "x") "" in
      let last_empty := String.eqb (List.last parts "x") "" in
      match interior_empty parts with
      | _ :: _ :: _ => false
      | [skip_index] =>
          let parts_hi := skip_index in
          let parts_lo := length parts - skip_index - 1 in
          if first_empty && negb (parts_hi - 1 =? 0) then false else
          let parts_hi := if first_empty then parts_hi - 1 else parts_hi in
          if last_empty && negb (parts_lo - 1 =? 0) then false else
          let parts_lo := if last_empty then parts_lo - 1 else parts_lo in
          if 8 <=? parts_hi + parts_lo then false else
          forallb hextet_ok (take parts_hi parts)
          && forallb hextet_ok (last_n parts_lo parts)
      | [] =>
          (length parts =? 8) && negb first_empty && negb last_empty
          && forallb hextet_ok parts
      end
  end.

(** [IPv6Address(s)] does not raise: no ['/'], a well-formed scope id after
    ['%'] if any, and a well-formed address before it. *)
Definition ipv6_ok (s : string) : bool :=
  negb (has_char "/" s) &&
  let '(addr, sep, scope_id) := partition "%" s in
  negb (sep && (String.eqb scope_id "" || has_char "%" scope_id))
  && ipv6_int_ok addr.

End IpAddress.

Module UrlParse.
Import Py.
Local Open Scope py_scope.

(** [_WHATWG_C0_CONTROL_OR_SPACE] *)
Definition c0_control_or_space (c : ascii) : bool := code c <=? 32.

(** [_UNSAFE_URL_BYTES_TO_REMOVE = ['\t', '\r', '\n']] *)
Definition unsafe_url_byte (c : ascii) : bool :=
  (code c =? 9) || (code c =? 13) || (code c =? 10).

(** [scheme_chars]: letters, digits and ["+-."] *)
Definition scheme_char (c : ascii) : bool :=
  is_alpha c || is_digit c || (code c =? 43) || (code c =? 45) || (code c =? 46).

(** the delimiters ['/?#'] that end the network location *)
Definition netloc_delim (c : ascii) : bool :=
  (code c =? 47) || (code c =? 63) || (code c =? 35).

(** [_check_bracketed_host] does not raise: an IPvFuture literal
    [v<hex>+.<any>+] or an IPv6 address. *)
Definition check_bracketed_host (hostname : string) : bool :=
  if startswith "v" hostname then
    let digits := take_until (λ c, negb (is_hex c)) (str_drop 1 hostname) in
    let after := drop_until (λ c, negb (is_hex c)) (str_drop 1 hostname) in
    negb (String.eqb digits "") && startswith "." after
    && negb (String.eqb (str_drop 1 after) "")
    && negb (has_char "010" (str_drop 1 after))
  else IpAddress.ipv6_ok hostname.

(** The components of a split URL that the program reads.  [rest] holds what
    follows the network location (path, query and fragment, left unsplit). *)
Record SplitResult := {
  scheme : string;
  netloc : string;
  rest : string
}.

(** the scheme part of [urlsplit]: [url[:i]] up to the first [':'] when it is
    non-empty, starts with a letter and holds scheme characters only *)
Definition split_scheme (url : string) : string * string :=
  match partition ":" url with
  | (String c0 b, true, after) =>
      if is_alpha c0 && str_all scheme_char (String c0 b)
      then (lower (String c0 b), after)
      else (EmptyString, url)
  | _ => (EmptyString, url)
  end.

(** [urlsplit(url)] *)
Definition urlsplit (url : string) : result SplitResult :=
  let url := lstrip_by c0_control_or_space url in
  let url := str_filter (λ c, negb (unsafe_url_byte c)) url in
  let '(sch, url) := split_scheme url in
  if startswith "//" url then
    let nl := take_until netloc_delim (str_drop 2 url) in
    let url := drop_until netloc_delim (str_drop 2 url) in
    if (has_char "[" nl && negb (has_char "]" nl))
       || (has_char "]" nl && negb (has_char "[" nl))
    then Raise ValueError
    else if has_char "[" nl && has_char "]" nl
            && negb (check_bracketed_host
                       (partition "]" (partition "[" nl).2).1.1)
    then Raise ValueError
    else Ok {| scheme := sch; netloc := nl; rest := url |}
  else Ok {| scheme := sch; netloc := EmptyString; rest := url |}.

(** [urlparse(url)]: [urlsplit] followed by the split of the path
    parameters, which leaves scheme and network location as they are. *)
Definition urlparse (url : string) : result SplitResult := urlsplit url.

(** [_hostinfo[0]] *)
Definition hostinfo_host (nl : string) : string :=
  let hostinfo := (rpartition "@" nl).2 in
  let '(_, have_open_br, bracketed) := partition "[" hostinfo in
  if have_open_br then (partition "]" bracketed).1.1
  else (partition ":" hostinfo).1.1.

(** the [hostname] property; [None] when there is no host *)
Definition hostname (r : SplitResult) : option string :=
  let h := hostinfo_host (netloc r) in
  if String.eqb h "" then None
  else let '(name, percent, zone) := partition "%" h in
       Some (lower name +:+ (if percent then "%" else "") +:+ zone).

End UrlParse.

(* ===================================================================== *)
(** * [vaultprivacy/parser.py]: normalize_domain                          *)
(* ===================================================================== *)

Module Parser.
Import Py.
Local Open Scope py_scope.

Definition MULTIPART_TLDS : gset string :=
  {[ "co.uk"; "org.uk"; "ac.uk"; "gov.uk"; "com.au"; "co.jp"; "com.br" ]}.

(** [re.sub(r"^(www\.|m\.)", "", host)]: the pattern is anchored at the start,
    so at most one prefix is removed. *)
Definition strip_prefix (host : string) : string :=
  if startswith "www." host then str_drop 4 host
  else if startswith "m." host then str_drop 2 host
  else host.

(** the locals [last_two] and [last_three] of [normalize_domain] *)
Definition last_two (parts : list string) : string := join "." (last_n 2 parts).
Definition last_three (parts : list string) : string :=
  if 3 <=? length parts then join "." (last_n 3 parts) else "".

(** the guards of the two multi-part branches *)
Definition three_label_guard (parts : list string) : bool :=
  bool_decide (last_two parts ∈ MULTIPART_TLDS) && (3 <=? length parts).
Definition four_label_guard (parts : list string) : bool :=
  bool_decide (last_three parts ∈ MULTIPART_TLDS) && (4 <=? length parts).

(** lines 29 to 42: from the prefix-stripped host to the root domain *)
Definition root_of_host (host : string) : string :=
  let parts := split "." host in
  if length parts <? 2 then host
  else if three_label_guard parts then join "." (last_n 3 parts)
  else if four_label_guard parts then join "." (last_n 4 parts)
  else last_two parts.

(** lines 11 to 24: the host that [urlparse] finds in the raw text; [""] when
    the text looks like an e-mail address or has no host *)
Definition parsed_host (raw : string) : result string :=
  let s := lower (strip raw) in
  if str_in "@" s && negb (str_in "://" s) then Ok ""
  else
    let s := if negb (str_in "://" s) then "https://" +:+ s else s in
    parsed <~ UrlParse.urlparse s ;;
    Ok (default "" (UrlParse.hostname parsed)).

Definition normalize_domain (raw : string) : result string :=
  if String.eqb raw "" then Ok ""
  else
    host <~ parsed_host raw ;;
    if String.eqb host "" then Ok ""
    else Ok (root_of_host (strip_prefix host)).

End Parser.


(* ===================================================================== *)
(** * [vaultprivacy/parser.py]: extract_domains                           *)
(* ===================================================================== *)

Module Vault.
Import Py Parser.
Local Open Scope py_scope.

(** [normalize_domain] as [extract_domains] calls it, on whatever value the
    export holds under ["uri"]: a falsy value gives [""]; a truthy value that
    is not text has no [strip] method. *)
Definition normalize_domain_value (raw : json) : result string :=
  if negb (truthy raw) then Ok ""
  else match raw with
       | JStr s => normalize_domain s
       | _ => Raise AttributeError
       end.

(** the state of the loop: the set [seen] and the list [ordered] *)
Definition loop_state : Type := gset string * list string.

(** lines 57 to 59 *)
Definition record_domain (st : loop_state) (dom : string) : loop_state :=
  if negb (String.eqb dom "") && bool_decide (dom ∉ st.1)
  then ({[dom]} ∪ st.1, st.2 ++ [dom])
  else st.

(** line 55: [(u or {}).get("uri", "")] *)
Definition raw_of_entry (u : json) : result json :=
  py_get (py_or u (JDict ∅)) "uri" (JStr "").

(** lines 50 and 51: the value iterated by the inner loop *)
Definition uris_of_item (it : json) : result json :=
  login <~ py_get it "login" (JDict ∅) ;;
  uris <~ py_get (py_or login (JDict ∅)) "uris" JNull ;;
  Ok (py_or uris (JList [])).

(** the inner loop, lines 54 to 59 *)
Fixpoint scan_uris (uris : list json) (st : loop_state) : result loop_state :=
  match uris with
  | [] => Ok st
  | u :: rest =>
      raw <~ raw_of_entry u ;;
      dom <~ normalize_domain_value raw ;;
      scan_uris rest (record_domain st dom)
  end.

(** the outer loop, lines 49 to 59 *)
Fixpoint scan_items (items : list json) (st : loop_state) : result loop_state :=
  match items with
  | [] => Ok st
  | it :: rest =>
      uris <~ uris_of_item it ;;
      us <~ py_iter uris ;;
      st' <~ scan_uris us st ;;
      scan_items rest st'
  end.

(** lines 46 to 60, on the parsed export *)
Definition extract_domains_data (data : json) : result (list string) :=
  items <~ py_get data "items" (JList []) ;;
  its <~ py_iter items ;;
  st <~ scan_items its (∅, []) ;;
  Ok st.2.

(** [extract_domains(path)], with the file at [path] given by its state *)
Definition extract_domains (file : file_state) : result (list string) :=
  match file with
  | Missing => Raise FileNotFoundError
  | NotUtf8 => Raise UnicodeDecodeError
  | NotJson => Raise JSONDecodeError
  | Holds data => extract_domains_data data
  end.

(** An export as Bitwarden writes it: one item per list of URI strings. *)
Definition uri_entry (raw : string) : json := JDict {[ "uri" := JStr raw ]}.
Definition login_item (raws : list string) : json :=
  JDict {[ "login" := JDict {[ "uris" := JList (uri_entry <$> raws) ]} ]}.
Definition export_of (items : list (list string)) : json :=
  JDict {[ "items" := JList (login_item <$> items) ]}.

End Vault.


(* ===================================================================== *)
(** * [vaultprivacy/domain_normalizer.py] and the stage of [main] using it *)
(* ===================================================================== *)

Module DomainNormalizer.
Import Py.

(** [tldextract.ExtractResult] *)
Record ExtractResult := {
  subdomain : string;
  domain : string;
  suffix : string
}.

Section WithTldextract.

(** [tldextract.extract]: a third-party library driven by the Public Suffix
    List; the development holds for whatever it answers. *)
Variable extract : string → ExtractResult.

Definition normalize (url : string) : string :=
  if String.eqb url "" then ""
  else
    let ext := extract url in
    if String.eqb (domain ext) "" || String.eqb (suffix ext) ""
    then lower url
    else lower (domain ext +:+ "." +:+ suffix ext).

(** [main], lines 91 to 95: the loop that fills [normalized_domains] *)
Definition keep_normalized (acc : list string) (d : string) : list string :=
  let normalized := normalize d in
  if negb (String.eqb normalized "") && bool_decide (normalized ∉ acc)
  then acc ++ [normalized]
  else acc.

Definition normalized_domains (domains : list string) : list string :=
  fold_left keep_normalized domains [].

(** [main], lines 79 to 95: steps 1 and 2 of the pipeline *)
Definition pipeline_domains (file : file_state) : result (list string) :=
  bind (Vault.extract_domains file) (λ domains,
    match domains with
    | [] => Raise SystemExit
    | _ => Ok (normalized_domains domains)
    end).

End WithTldextract.
End DomainNormalizer.

(* ===================================================================== *)
(** * [vaultprivacy/api_client.py]                                        *)
(* ===================================================================== *)

Module ApiClient.
Import Py.
Local Open Scope py_scope.

(** What [requests.get] does for a query: it raises, or it answers with a
    status ([resp.ok]) and a body, which is JSON or not. *)
Inductive http_outcome :=
| Fails (k : request_failure)
| Responds (ok : bool) (body : option json).

(** The ambient state [lookup_tosdr] reads and writes: the cache file, the
    rating service, and a record of the requests sent and of the pauses. *)
Record world := {
  cache_file : file_state;
  service : string → http_outcome;
  requests_sent : list string;
  pauses : nat
}.

(** State passing with exceptions: the state reached is kept when an
    exception is raised. *)
Definition M (A : Type) : Type := world → result A * world.

Definition ret {A} (a : A) : M A := λ w, (Ok a, w).
Definition lift {A} (r : result A) : M A := λ w, (r, w).
Definition bindM {A B} (m : M A) (k : A → M B) : M B :=
  λ w, match m w with
       | (Ok a, w') => k a w'
       | (Raise e, w') => (Raise e, w')
       end.

(** [try: body except <handled>: handler] *)
Definition try_except {A} (body : M A) (handled : exn → bool) (handler : M A) : M A :=
  λ w, match body w with
       | (Raise e, w') => if handled e then handler w' else (Raise e, w')
       | done => done
       end.

Notation "x <- m ;; k" := (bindM m (fun x => k))
  (at level 20, m at level 99, k at level 200, only parsing) : py_scope.

Definition _load_cache : M json :=
  λ w, (Ok match cache_file w with
           | Holds j => j
           | Missing | NotUtf8 | NotJson => JDict ∅
           end, w).

(** [CACHE_FILE.write_text(json.dumps(cache, ...))]: the write is taken to
    succeed and to replace the file at once; a write that fails half-way (an
    I/O fault, text that cannot be encoded) is outside the model, so what is
    proved of the cache file holds of the calls that return *)
Definition _save_cache (cache : json) : M unit :=
  λ w, (Ok (), {| cache_file := Holds cache; service := service w;
                  requests_sent := requests_sent w; pauses := pauses w |}).

(** [requests.get(BASE_SEARCH, params={"query": domain}, timeout=TIMEOUT)] *)
Definition requests_get (query : string) : M (bool * option json) :=
  λ w, let w' := {| cache_file := cache_file w; service := service w;
                    requests_sent := requests_sent w ++ [query];
                    pauses := pauses w |} in
       match service w query with
       | Fails k => (Raise (RequestException k), w')
       | Responds ok body => (Ok (ok, body), w')
       end.

(** [resp.json()] *)
Definition resp_json (body : option json) : M json :=
  match body with
  | Some j => ret j
  | None => lift (Raise (RequestException InvalidJSON))
  end.

(** [time.sleep(SLEEP_BETWEEN)] *)
Definition sleep : M unit :=
  λ w, (Ok (), {| cache_file := cache_file w; service := service w;
                  requests_sent := requests_sent w; pauses := S (pauses w) |}).

(** [any(domain in url for url in urls)], left to right, stopping at the
    first hit *)
Fixpoint any_contains (domain : string) (urls : list json) : result bool :=
  match urls with
  | [] => Ok false
  | url :: rest =>
      hit <~ py_in domain url ;;
      if hit then Ok true else any_contains domain rest
  end.

(** the first loop of [_best_match]: the first service that is a [dict] and
    lists a URL containing the domain; [JNull] when the loop ends *)
Fixpoint first_listing (domain : string) (services : list json) : result json :=
  match services with
  | [] => Ok JNull
  | sv :: rest =>
      if is_dict sv then
        urls <~ py_get sv "urls" (JList []) ;;
        us <~ py_iter urls ;;
        hit <~ any_contains domain us ;;
        if hit then Ok sv else first_listing domain rest
      else first_listing domain rest
  end.

(** [_best_match(search_json, domain)]; Python's [None] is [JNull] *)
Definition _best_match (search_json : json) (domain : string) : result json :=
  if negb (truthy search_json) then Ok JNull else
  has <~ py_in "parameters" search_json ;;
  if negb has then Ok JNull else
  parameters <~ py_getitem search_json "parameters" ;;
  services <~ py_get parameters "services" (JList []) ;;
  if negb (truthy services) then Ok JNull else
  svs <~ py_iter services ;;
  found <~ first_listing domain svs ;;
  match found with
  | JNull => py_getitem0 services
  | sv => Ok sv
  end.

(** [{"grade": "Unknown", "service_id": None, "name": domain}] *)
Definition unknown_record (domain : string) : json :=
  JDict {[ "grade" := JStr "Unknown"; "service_id" := JNull; "name" := JStr domain ]}.

(** [grade if grade in list("ABCDE") else "Unknown"] *)
Definition coerce_grade (grade : json) : json :=
  if existsb (λ g, eq_text g grade) ["A"; "B"; "C"; "D"; "E"]
  then grade else JStr "Unknown".

(** lines 68 to 81: the record built from the selected service *)
Definition record_of_service (sv : json) (domain : string) : result json :=
  name <~ py_get sv "name" (JStr domain) ;;
  rating <~ py_get sv "rating" (JDict ∅) ;;
  grade <~ (if is_dict rating
            then has <~ py_in "letter" rating ;;
                 if has then py_getitem rating "letter" else Ok (JStr "Unknown")
            else Ok (JStr "Unknown")) ;;
  service_id <~ py_get sv "id" JNull ;;
  service_id <~ (if truthy service_id
                 then z <~ py_int service_id ;; Ok (JInt z)
                 else Ok service_id) ;;
  Ok (JDict {[ "grade" := coerce_grade grade; "service_id" := service_id;
               "name" := name ]}).

(** the body of the [try] block: the value of [out] when it completes *)
Definition fetch (domain : string) : M json :=
  resp <- requests_get domain ;;
  if resp.1 then
    search_json <- resp_json resp.2 ;;
    sv <- lift (_best_match search_json domain) ;;
    if truthy sv then lift (record_of_service sv domain)
    else ret (unknown_record domain)
  else ret (unknown_record domain).

Definition lookup_tosdr (domain : string) : M json :=
  cache <- _load_cache ;;
  hit <- lift (py_in domain cache) ;;
  if hit then lift (py_getitem cache domain)
  else
    out <- try_except (fetch domain) is_request_exception
                      (ret (unknown_record domain)) ;;
    cache' <- lift (py_setitem cache domain out) ;;
    _ <- _save_cache cache' ;;
    _ <- sleep ;;
    ret out.

End ApiClient.


(* ===================================================================== *)
(** * [vaultprivacy/reporting.py]: generate_markdown_report               *)
(* ===================================================================== *)

Module Reporting.
Import Py.
Local Open Scope py_scope.

(** The result list is typed as the data model has it: a list of rating
    records whose grade is one of [A B C D E] or [Unknown] (what
    [lookup_tosdr] documents and builds) and whose name is text.  Dictionaries
    with missing keys or other values are outside this typed model; what the
    code does with them before its last sort is [complete_list_keys], at the
    end of this module. *)

(** The grade of a rating record. *)
Inductive grade := GradeA | GradeB | GradeC | GradeD | GradeE | GradeUnknown.

Definition grade_eqb (g h : grade) : bool :=
  match g, h with
  | GradeA, GradeA | GradeB, GradeB | GradeC, GradeC
  | GradeD, GradeD | GradeE, GradeE | GradeUnknown, GradeUnknown => true
  | _, _ => false
  end.

(** One analysis result: the record [lookup_tosdr] documents, with the
    [domain] that [main] adds to it. *)
Record rating := {
  domain : string;
  rating_grade : grade;
  service_id : option Z;
  name : string
}.

(** [l.index(x)]: the first position of [x]; [ValueError] when absent *)
Fixpoint index_of (x : grade) (l : list grade) : result nat :=
  match l with
  | [] => Raise ValueError
  | y :: r => if grade_eqb y x then Ok 0 else i <~ index_of x r ;; Ok (S i)
  end.

(** [x in l] *)
Definition grade_in (x : grade) (l : list grade) : bool := existsb (grade_eqb x) l.

(** [l.index(x) if x in l else 999] *)
Definition index_or_999 (x : grade) (l : list grade) : result nat :=
  if grade_in x l then index_of x l else Ok 999.

(** [a / b * 100] on integers: [ZeroDivisionError] when [b] is zero.  The
    quotient is kept as an exact rational; the rounding to binary64 and to
    one decimal in the text is not modelled. *)
Definition percent (a b : nat) : result Q :=
  if b =? 0 then Raise ZeroDivisionError
  else Ok (Qmult (Qmake (Z.of_nat a) (Pos.of_nat b)) (inject_Z 100)).

(** [sorted(l, key=...)] on keys already computed: a stable insertion sort *)
Fixpoint insert_by {A K} (le : K → K → bool) (x : K * A) (l : list (K * A)) : list (K * A) :=
  match l with
  | [] => [x]
  | y :: r => if le x.1 y.1 then x :: y :: r else y :: insert_by le x r
  end.

Fixpoint sort_by {A K} (le : K → K → bool) (l : list (K * A)) : list (K * A) :=
  match l with
  | [] => []
  | x :: r => insert_by le x (sort_by le r)
  end.

(** the keys are computed for every element, in order, before sorting *)
Fixpoint with_keys {A K} (key : A → result K) (l : list A) : result (list (K * A)) :=
  match l with
  | [] => Ok []
  | x :: r => k <~ key x ;; kr <~ with_keys key r ;; Ok ((k, x) :: kr)
  end.

Definition sorted {A K} (le : K → K → bool) (key : A → result K) (l : list A) : result (list A) :=
  keyed <~ with_keys key l ;; Ok ((sort_by le keyed).*2).

(** the order of Python text: by character code, a prefix first *)
Definition text_le (a b : string) : bool :=
  match String.compare a b with Gt => false | _ => true end.

(** the order of the pairs [(index, name)] *)
Definition pair_le (a b : nat * string) : bool :=
  (a.1 <? b.1) || ((a.1 =? b.1) && text_le a.2 b.2).

(** [grade_counts[grade] = grade_counts.get(grade, 0) + 1]; the dictionary
    keeps its keys in the order of first insertion *)
Fixpoint count_grade (g : grade) (counts : list (grade * nat)) : list (grade * nat) :=
  match counts with
  | [] => [(g, 1)]
  | (h, n) :: r => if grade_eqb h g then (h, S n) :: r else (h, n) :: count_grade g r
  end.

Definition grade_counts (domains_data : list rating) : list (grade * nat) :=
  fold_left (λ counts d, count_grade (rating_grade d) counts) domains_data [].

(** [grade_counts.get(g, 0)] *)
Fixpoint count_of (g : grade) (counts : list (grade * nat)) : nat :=
  match counts with
  | [] => 0
  | (h, n) :: r => if grade_eqb h g then n else count_of g r
  end.

Definition grade_order : list grade :=
  [GradeA; GradeB; GradeC; GradeD; GradeE; GradeUnknown].

(** ['Found' if service.get('grade') != 'Unknown' else 'Unknown'] *)
Definition found (d : rating) : bool := negb (grade_eqb (rating_grade d) GradeUnknown).

(** The values that the Markdown text interpolates, section by section. *)
Record report := {
  total_services : nat;
  found_services : nat;
  unknown_services : nat;
  rated_percent : Q;
  unknown_percent : Q;
  key_findings : list (grade * nat);
  distribution : list (grade * nat * Q);
  risky_services : list rating;
  complete_list : list (rating * bool)
}.

(** one row of the grade distribution table, lines 142 to 144 *)
Definition distribution_row (total : nat) (row : grade * nat) : result (grade * nat * Q) :=
  percentage <~ (if 0 <? total then percent row.2 total else Ok (inject_Z 0)) ;;
  Ok (row.1, row.2, percentage).

Fixpoint distribution_rows (total : nat) (rows : list (grade * nat))
  : result (list (grade * nat * Q)) :=
  match rows with
  | [] => Ok []
  | row :: r =>
      x <~ distribution_row total row ;;
      xs <~ distribution_rows total r ;;
      Ok (x :: xs)
  end.

Definition generate_markdown_report (domains_data : list rating) : result report :=
  let total := length domains_data in
  let found_n := length (filter (λ d, found d = true) domains_data) in
  let unknown_n := total - found_n in
  let counts := grade_counts domains_data in
  sorted_grades <~ sorted Nat.leb (λ x : grade * nat, index_or_999 x.1 grade_order) counts ;;
  (* the header and the executive summary, one formatted text *)
  rated_pct <~ percent found_n total ;;
  unknown_pct <~ percent unknown_n total ;;
  let findings :=
    filter (λ x : grade * nat, 0 < x.2)
           ((λ g, (g, count_of g counts)) <$> [GradeE; GradeD; GradeA; GradeB]) in
  rows <~ distribution_rows total sorted_grades ;;
  let risky := filter (λ d, grade_in (rating_grade d) [GradeE; GradeD] = true) domains_data in
  risky_sorted <~ sorted Nat.leb
                    (λ d, index_or_999 (rating_grade d) [GradeE; GradeD]) risky ;;
  sorted_services <~ sorted pair_le
                       (λ d, i <~ index_of (rating_grade d) grade_order ;; Ok (i, name d))
                       domains_data ;;
  Ok {| total_services := total;
        found_services := found_n;
        unknown_services := unknown_n;
        rated_percent := rated_pct;
        unknown_percent := unknown_pct;
        key_findings := findings;
        distribution := rows;
        risky_services := risky_sorted;
        complete_list := (λ d, (d, found d)) <$> sorted_services |}.

(** ** The dictionaries themselves, as far as the keys of the last sort *)

(** The function above takes the records decoded.  What follows is the same
    code on the dictionaries it is given, as far as the keys that [sorted]
    computes on line 169 for the complete list: every step that can raise
    before two keys are compared.  (What the comparisons of Python's sort do
    with names that are not text is not modelled.) *)






End Reporting.


(* ===================================================================== *)
(** * [vaultprivacy/main.py]: the loop that fetches the ratings            *)
(* ===================================================================== *)

Module Main.
Import Py ApiClient.
Local Open Scope py_scope.

(** [main], lines 104 to 109: for every domain, [lookup_tosdr], then
    [result['domain'] = domain], then [results.append(result)] *)
Fixpoint lookup_all (domains : list string) : M (list json) :=
  match domains with
  | [] => ret []
  | domain :: rest =>
      result <- lookup_tosdr domain ;;
      result <- lift (py_setitem result "domain" (JStr domain)) ;;
      results <- lookup_all rest ;;
      ret (result :: results)
  end.

End Main.

(* ===================================================================== *)
(** * Notions used in the statements                                      *)
(* ===================================================================== *)

Module Notions.
Import Py Parser Vault ApiClient.
Local Open Scope py_scope.


(** the world after a cache miss that ends with record [out] *)
Definition after_miss (w : world) (m : gmap string json) (domain : string) (out : json) : world :=
  {| cache_file := Holds (JDict (<[domain := out]> m));
     service := service w;
     requests_sent := requests_sent w ++ [domain];
     pauses := S (pauses w) |}.

(** the cache that [_load_cache] finds is a dictionary [m] *)
Definition cache_is (w : world) (m : gmap string json) : Prop :=
  (_load_cache w).1 = Ok (JDict m).

(** [[f(x) for x in l]], stopping at the first exception *)
Fixpoint collect {A B} (f : A → result B) (l : list A) : result (list B) :=
  match l with
  | [] => Ok []
  | x :: r => y <~ f x ;; ys <~ collect f r ;; Ok (y :: ys)
  end.

(** the values found under ["uri"], in the order in which the two loops of
    [extract_domains] visit them *)
Definition raws_of_item (it : json) : result (list json) :=
  uris <~ uris_of_item it ;;
  us <~ py_iter uris ;;
  collect raw_of_entry us.

Definition raw_values (data : json) : result (list json) :=
  items <~ py_get data "items" (JList []) ;;
  its <~ py_iter items ;;
  rss <~ collect raws_of_item its ;;
  Ok (concat rss).

(** the first occurrence of every element, in the order of the list *)
Fixpoint first_occurrences (l : list string) : list string :=
  match l with
  | [] => []
  | x :: r => x :: filter (λ y, y ≠ x) (first_occurrences r)
  end.

(** The output as the specification words it: duplicates are decided on the
    raw strings, and every raw string kept is normalised and emitted. *)
Definition raw_keyed_output (raws : list string) : result (list string) :=
  doms <~ collect normalize_domain (first_occurrences raws) ;;
  Ok (filter (λ d, d ≠ "") doms).

(** An entry of [uris] without a usable URI: a falsy entry, an object
    without ["uri"] or with a falsy ["uri"], or one whose text normalises to
    the empty string. *)
Inductive blank_entry : json → Prop :=
| blank_falsy u :
    truthy u = false → blank_entry u
| blank_no_uri m :
    m !! "uri" = None → blank_entry (JDict m)
| blank_falsy_uri m v :
    m !! "uri" = Some v → truthy v = false → blank_entry (JDict m)
| blank_text m s :
    m !! "uri" = Some (JStr s) → normalize_domain s = Ok "" → blank_entry (JDict m).

(** An item without URIs: no (or a falsy) ["login"], or a login with no (or
    a falsy) ["uris"]. *)
Inductive blank_item : json → Prop :=
| item_no_login m :
    m !! "login" = None → blank_item (JDict m)
| item_falsy_login m v :
    m !! "login" = Some v → truthy v = false → blank_item (JDict m)
| item_no_uris m l :
    m !! "login" = Some (JDict l) → l !! "uris" = None → blank_item (JDict m)
| item_falsy_uris m l v :
    m !! "login" = Some (JDict l) → l !! "uris" = Some v → truthy v = false →
    blank_item (JDict m).

(** [isinstance(v, str)] *)
Definition is_text (v : json) : bool :=
  match v with JStr _ => true | _ => false end.

(** An entry of [uris] on which the loop raises: a truthy value that is not
    an object (it has no [get]), or an object whose ["uri"] is truthy and is
    not text (it has no [strip]). *)
Inductive malformed_entry : json → Prop :=
| entry_not_object u :
    truthy u = true → is_dict u = false → malformed_entry u
| entry_uri_not_text m v :
    m !! "uri" = Some v → truthy v = true → is_text v = false →
    malformed_entry (JDict m).

(** the loop "append when non-empty and not yet present", on lists *)
Definition keep_fresh (acc : list string) (d : string) : list string :=
  if negb (String.eqb d "") && bool_decide (d ∉ acc) then acc ++ [d] else acc.

(** the set [seen] holds the elements of [ordered] *)
Definition in_step (st : loop_state) : Prop := ∀ x, x ∈ st.1 ↔ x ∈ st.2.

(** the number of occurrences of a character *)
Fixpoint count_char (c : ascii) (s : string) : nat :=
  match s with
  | EmptyString => 0
  | String a t => (if Ascii.eqb a c then 1 else 0) + count_char c t
  end.

(** the labels of a host name *)
Definition labels (host : string) : list string := split "." host.

(** the characters that a host returned by [urlparse] for lower-cased text
    can hold: no upper-case letter, none of TAB, CR and LF, none of the
    delimiters ['/?#'], and no ['@'] *)
Definition no_upper (c : ascii) : bool := negb (is_upper c).
Definition url_safe (c : ascii) : bool := negb (UrlParse.unsafe_url_byte c).
Definition no_delim (c : ascii) : bool := negb (UrlParse.netloc_delim c).
Definition no_at (c : ascii) : bool := negb (Ascii.eqb c "@").

Definition host_char (c : ascii) : bool :=
  no_upper c && url_safe c && no_delim c && no_at c.

(** the characters of a host that is not written with brackets or a port *)
Definition unbracketed_char (c : ascii) : bool :=
  negb (Ascii.eqb c ":") && negb (Ascii.eqb c "[") && negb (Ascii.eqb c "]").

(** a text that is the result of [normalize_domain] on some input *)
Definition normal_form (d : string) : Prop := ∃ raw, normalize_domain raw = Ok d.

(** what the loops of [extract_domains] keep true of [seen] and [ordered] *)
Definition loop_inv (st : loop_state) : Prop :=
  in_step st ∧ NoDup (snd st) ∧ ("" ∉ snd st) ∧ Forall normal_form (snd st).

(** the world once a request for [domain] has been sent *)
Definition after_request (w : world) (domain : string) : world :=
  {| cache_file := cache_file w;
     service := service w;
     requests_sent := requests_sent w ++ [domain];
     pauses := pauses w |}.

(** the service lists a URL that contains the domain *)
Definition lists_domain (domain : string) (sv : json) : Prop :=
  is_dict sv = true ∧
  ∃ urls us, py_get sv "urls" (JList []) = Ok urls ∧ py_iter urls = Ok us
             ∧ any_contains domain us = Ok true.

(** the first loop of [_best_match] goes past the service: it is not an
    object, or none of the URLs it lists contains the domain *)
Definition passed_over (domain : string) (sv : json) : Prop :=
  is_dict sv = false ∨
  ∃ urls us, py_get sv "urls" (JList []) = Ok urls ∧ py_iter urls = Ok us
             ∧ any_contains domain us = Ok false.

(** the grades of a rating record *)
Definition rating_grades : list string := ["A"; "B"; "C"; "D"; "E"; "Unknown"].

(** a record as [lookup_tosdr] builds it *)
Definition built_record (out : json) : Prop :=
  ∃ g sid name,
    out = JDict {[ "grade" := JStr g; "service_id" := sid; "name" := name ]}
    ∧ g ∈ rating_grades
    ∧ (truthy sid = false ∨ ∃ z, sid = JInt z).

(** the domains for which a run sends a request: the first occurrences of
    those that the cache does not hold *)
Definition missing_domains (m : gmap string json) (domains : list string) : list string :=
  first_occurrences (filter (λ d, d ∉ dom m) domains).

(** the position of a grade in [grade_order], and in [['E', 'D']] *)
Definition grade_rank (g : Reporting.grade) : nat :=
  match g with
  | Reporting.GradeA => 0
  | Reporting.GradeB => 1
  | Reporting.GradeC => 2
  | Reporting.GradeD => 3
  | Reporting.GradeE => 4
  | Reporting.GradeUnknown => 5
  end.

Definition risky_rank (g : Reporting.grade) : nat :=
  match g with
  | Reporting.GradeE => 0
  | Reporting.GradeD => 1
  | _ => 999
  end.

(** the key by which the complete list is sorted *)
Definition report_key (d : Reporting.rating) : nat * string :=
  (grade_rank (Reporting.rating_grade d), Reporting.name d).

(** the records with a given grade, and the risky ones *)
Definition with_grade (g : Reporting.grade) (ds : list Reporting.rating)
  : list Reporting.rating :=
  filter (λ d, Reporting.grade_eqb (Reporting.rating_grade d) g = true) ds.

Definition risky (ds : list Reporting.rating) : list Reporting.rating :=
  filter (λ d, Reporting.grade_in (Reporting.rating_grade d)
                 [Reporting.GradeE; Reporting.GradeD] = true) ds.

(** [a / b * 100] as a rational *)
Definition ratio (a b : nat) : Q :=
  Qmult (Qmake (Z.of_nat a) (Pos.of_nat b)) (inject_Z 100).




(** what the loop that counts the grades keeps true: the keys are distinct,
    the count of a grade is the number of records met with that grade, and a
    grade is a key exactly when a record with it was met *)
Definition counts_inv (counts : list (Reporting.grade * nat))
                      (met : list Reporting.rating) : Prop :=
  NoDup (counts.*1)
  ∧ (∀ g, Reporting.count_of g counts = length (with_grade g met))
  ∧ (∀ g, g ∈ counts.*1 ↔ 0 < length (with_grade g met)).

(* end of the notions *)
End Notions.

Import Py Parser Vault ApiClient Notions.
Local Open Scope py_scope.

(* ===================================================================== *)
(** * Properties of the rating client                                     *)
(* ===================================================================== *)

Section ApiClientFacts.

Lemma load_cache_state w : (_load_cache w).2 = w.
Proof. reflexivity. Qed.

Lemma py_in_dict domain (m : gmap string json) :
  py_in domain (JDict m) = Ok (bool_decide (is_Some (m !! domain))).
Proof. reflexivity. Qed.

Lemma lookup_unfold domain w m :
  cache_is w m →
  lookup_tosdr domain w =
    if bool_decide (is_Some (m !! domain))
    then (py_getitem (JDict m) domain, w)
    else match try_except (fetch domain) is_request_exception
                          (ret (unknown_record domain)) w with
         | (Ok out, w') =>
             (Ok out, {| cache_file := Holds (JDict (<[domain := out]> m));
                         service := service w';
                         requests_sent := requests_sent w';
                         pauses := S (pauses w') |})
         | (Raise e, w') => (Raise e, w')
         end.
Proof.
  unfold cache_is, lookup_tosdr, bindM. intros Hc.
  destruct (_load_cache w) as [r w1] eqn:Hl.
  assert (w1 = w) by (pose proof (load_cache_state w) as E; rewrite Hl in E; exact E).
  subst w1. simpl in Hc. subst r.
  unfold lift. rewrite py_in_dict.
  destruct (bool_decide (is_Some (m !! domain))); [reflexivity|].
  destruct (try_except _ _ _ w) as [[out|e] w']; reflexivity.
Qed.


End ApiClientFacts.

(** C5. For every domain already present in the cache, [lookup_tosdr]
    returns the exact cached record and leaves the world as it found it: no
    request is sent, no pause is taken, and the cache file is not rewritten. *)
Theorem lookup_cached_record :
  ∀ (w : world) (domain : string) (m : gmap string json) (record : json),
    cache_file w = Holds (JDict m) →
    m !! domain = Some record →
    lookup_tosdr domain w = (Ok record, w).
Proof.
  intros w domain m record Hfile Hm.
  rewrite (lookup_unfold domain w m).
  - rewrite bool_decide_eq_true_2 by (rewrite Hm; eauto).
    simpl. rewrite Hm. reflexivity.
  - unfold cache_is, _load_cache. simpl. rewrite Hfile. reflexivity.
Qed.


(* ===================================================================== *)
(** * Properties of the report generator                                  *)
(* ===================================================================== *)

Section ReportingFacts.
Import Reporting.



















End ReportingFacts.




(* ===================================================================== *)
(** * Properties of the vault parser                                      *)
(* ===================================================================== *)

Section FirstOccurrences.

Lemma first_occurrences_filter (P : string → Prop) `{!∀ x, Decision (P x)} l :
  first_occurrences (filter P l) = filter P (first_occurrences l).
Proof.
  induction l as [|x r IH]; [reflexivity|].
  destruct (decide (P x)) as [Hx|Hx].
  - rewrite filter_cons_True by exact Hx. simpl.
    rewrite filter_cons_True by exact Hx. rewrite IH.
    f_equal. rewrite !list_filter_filter.
    apply list_filter_iff. tauto.
  - rewrite filter_cons_False by exact Hx. simpl.
    rewrite filter_cons_False by exact Hx. rewrite IH.
    rewrite list_filter_filter. apply list_filter_iff.
    intros y. split; [|tauto]. intros Hy. split; [exact Hy|].
    intros ->. contradiction.
Qed.

Lemma elem_of_first_occurrences x l : x ∈ first_occurrences l ↔ x ∈ l.
Proof.
  induction l as [|y r IH]; [reflexivity|]. simpl.
  rewrite !elem_of_cons, list_elem_of_filter, IH.
  destruct (decide (x = y)); tauto.
Qed.

Lemma NoDup_first_occurrences l : NoDup (first_occurrences l).
Proof.
  induction l as [|y r IH]; simpl; constructor.
  - rewrite list_elem_of_filter. tauto.
  - apply NoDup_filter, IH.
Qed.

Lemma keep_fresh_fold ds acc :
  fold_left keep_fresh ds acc
  = acc ++ first_occurrences (filter (λ d, d ≠ "" ∧ d ∉ acc) ds).
Proof.
  revert acc. induction ds as [|d r IH]; intros acc; simpl.
  - rewrite app_nil_r. reflexivity.
  - unfold keep_fresh at 2.
    destruct (String.eqb_spec d "") as [->|Hd]; simpl.
    + rewrite filter_cons_False by tauto. apply IH.
    + destruct (decide (d ∈ acc)) as [Hin|Hin].
      * rewrite bool_decide_eq_false_2 by tauto.
        rewrite filter_cons_False by tauto. apply IH.
      * rewrite bool_decide_eq_true_2 by exact Hin.
        rewrite filter_cons_True by tauto. simpl.
        rewrite IH, <- app_assoc. simpl. do 2 f_equal.
        rewrite <- first_occurrences_filter, list_filter_filter.
        f_equal. apply list_filter_iff. intros y.
        rewrite not_elem_of_app, list_elem_of_singleton. tauto.
Qed.

Lemma keep_fresh_all ds :
  fold_left keep_fresh ds [] = first_occurrences (filter (λ d, d ≠ "") ds).
Proof.
  rewrite keep_fresh_fold. simpl. f_equal. apply list_filter_iff.
  intros y. rewrite elem_of_nil. tauto.
Qed.

End FirstOccurrences.

Section VaultFacts.

Lemma record_domain_step st d :
  in_step st →
  in_step (record_domain st d) ∧ (record_domain st d).2 = keep_fresh st.2 d.
Proof.
  intros Hst. unfold record_domain, keep_fresh.
  destruct (String.eqb_spec d "") as [->|Hd]; simpl; [tauto|].
  destruct (decide (d ∈ st.1)) as [Hin|Hin].
  - rewrite !bool_decide_eq_false_2; [tauto| |tauto].
    rewrite <- (Hst d). tauto.
  - rewrite !bool_decide_eq_true_2; [|by rewrite <- (Hst d)|done].
    split; [|reflexivity].
    intros x. cbn [fst snd]. rewrite elem_of_union, elem_of_singleton, elem_of_app,
      list_elem_of_singleton, (Hst x). tauto.
Qed.

Lemma record_domain_fold doms st :
  in_step st →
  (fold_left record_domain doms st).2 = fold_left keep_fresh doms st.2.
Proof.
  revert st. induction doms as [|d r IH]; intros st Hst; [reflexivity|].
  simpl. destruct (record_domain_step st d Hst) as [Hst' Heq].
  rewrite IH by exact Hst'. rewrite Heq. reflexivity.
Qed.

Lemma collect_app {A B} (f : A → result B) l1 l2 ys :
  collect f (l1 ++ l2) = Ok ys →
  ∃ y1 y2, collect f l1 = Ok y1 ∧ collect f l2 = Ok y2 ∧ ys = y1 ++ y2.
Proof.
  revert ys. induction l1 as [|x r IH]; intros ys; simpl.
  - intros H. exists [], ys. auto.
  - destruct (f x) as [y|e]; simpl; [|discriminate].
    destruct (collect f (r ++ l2)) as [zs|e] eqn:E; simpl; [|discriminate].
    intros [= <-]. destruct (IH zs eq_refl) as (y1 & y2 & H1 & H2 & ->).
    rewrite H1. simpl. exists (y :: y1), y2. auto.
Qed.

Lemma scan_uris_collect us raws doms st :
  collect raw_of_entry us = Ok raws →
  collect normalize_domain_value raws = Ok doms →
  scan_uris us st = Ok (fold_left record_domain doms st).
Proof.
  revert raws doms st. induction us as [|u r IH]; intros raws doms st; simpl.
  - intros [= <-]. simpl. intros [= <-]. reflexivity.
  - destruct (raw_of_entry u) as [raw|e]; simpl; [|discriminate].
    destruct (collect raw_of_entry r) as [rs|e]; simpl; [|discriminate].
    intros [= <-]. simpl.
    destruct (normalize_domain_value raw) as [dom|e]; simpl; [|discriminate].
    destruct (collect normalize_domain_value rs) as [ds|e] eqn:E; simpl;
      [|discriminate].
    intros [= <-]. simpl. apply (IH rs ds); [reflexivity|exact E].
Qed.

Lemma scan_items_collect its rss doms st :
  collect raws_of_item its = Ok rss →
  collect normalize_domain_value (concat rss) = Ok doms →
  scan_items its st = Ok (fold_left record_domain doms st).
Proof.
  revert rss doms st. induction its as [|it r IH]; intros rss doms st; simpl.
  - intros [= <-]. simpl. intros [= <-]. reflexivity.
  - unfold raws_of_item at 1.
    destruct (uris_of_item it) as [uris|e]; simpl; [|discriminate].
    destruct (py_iter uris) as [us|e]; simpl; [|discriminate].
    destruct (collect raw_of_entry us) as [raws|e] eqn:Hraws; simpl;
      [|discriminate].
    destruct (collect raws_of_item r) as [rs|e] eqn:Hrs; simpl; [|discriminate].
    intros [= <-]. simpl. intros Hdoms.
    destruct (collect_app _ _ _ _ Hdoms) as (d1 & d2 & H1 & H2 & ->).
    rewrite (scan_uris_collect us raws d1 st Hraws H1). simpl.
    rewrite fold_left_app. apply (IH rs d2); [reflexivity|exact H2].
Qed.

Lemma blank_entry_skipped u :
  blank_entry u →
  ∃ raw, raw_of_entry u = Ok raw ∧ normalize_domain_value raw = Ok "".
Proof.
  intros Hu. unfold raw_of_entry, py_or.
  destruct Hu as [u Hf | m Hm | m v Hm Hv | m s Hm Hs].
  - rewrite Hf. simpl. exists (JStr ""). split; reflexivity.
  - destruct (truthy (JDict m)); simpl; rewrite ?Hm, ?lookup_empty; simpl;
      exists (JStr ""); split; reflexivity.
  - destruct (truthy (JDict m)) eqn:Ht; simpl.
    + rewrite Hm. simpl. exists v. split; [reflexivity|].
      unfold normalize_domain_value. rewrite Hv. reflexivity.
    + exists (JStr ""). split; reflexivity.
  - destruct (truthy (JDict m)) eqn:Ht; simpl.
    + rewrite Hm. simpl. exists (JStr s). split; [reflexivity|].
      unfold normalize_domain_value.
      destruct (truthy (JStr s)); simpl; [exact Hs|reflexivity].
    + exists (JStr ""). split; reflexivity.
Qed.

Lemma scan_uris_blank us1 u us2 st :
  blank_entry u → scan_uris (us1 ++ u :: us2) st = scan_uris (us1 ++ us2) st.
Proof.
  intros Hu. revert st. induction us1 as [|v r IH]; intros st; simpl.
  - destruct (blank_entry_skipped u Hu) as (raw & H1 & H2).
    rewrite H1. simpl. rewrite H2. simpl.
    unfold record_domain. simpl. reflexivity.
  - destruct (raw_of_entry v) as [a|e]; simpl; [|reflexivity].
    destruct (normalize_domain_value a); simpl; [|reflexivity]. apply IH.
Qed.

Lemma blank_item_skipped it :
  blank_item it → uris_of_item it = Ok (JList []).
Proof.
  intros Hit. unfold uris_of_item, py_or.
  destruct Hit as [m Hm | m v Hm Hv | m l Hm Hl | m l v Hm Hl Hv]; simpl;
    rewrite Hm; simpl.
  - reflexivity.
  - rewrite Hv. simpl. reflexivity.
  - destruct (negb (bool_decide (l = ∅))); simpl; rewrite ?Hl; reflexivity.
  - destruct (negb (bool_decide (l = ∅))); simpl; rewrite ?Hl; simpl;
      rewrite ?Hv; reflexivity.
Qed.

Lemma scan_items_blank is1 it is2 st :
  blank_item it → scan_items (is1 ++ it :: is2) st = scan_items (is1 ++ is2) st.
Proof.
  intros Hit. revert st. induction is1 as [|v r IH]; intros st; simpl.
  - rewrite (blank_item_skipped it Hit). simpl. reflexivity.
  - destruct (uris_of_item v) as [a|e]; simpl; [|reflexivity].
    destruct (py_iter a) as [a0|e]; simpl; [|reflexivity].
    destruct (scan_uris a0 st); simpl; [|reflexivity]. apply IH.
Qed.

Lemma scan_uris_app us1 us2 st :
  scan_uris (us1 ++ us2) st = (st1 <~ scan_uris us1 st ;; scan_uris us2 st1).
Proof.
  revert st. induction us1 as [|v r IH]; intros st; [reflexivity|].
  cbn [app scan_uris].
  destruct (raw_of_entry v) as [a|e]; cbn [bind]; [|reflexivity].
  destruct (normalize_domain_value a); cbn [bind]; [|reflexivity]. apply IH.
Qed.

Lemma scan_items_app is1 is2 st :
  scan_items (is1 ++ is2) st = (st1 <~ scan_items is1 st ;; scan_items is2 st1).
Proof.
  revert st. induction is1 as [|v r IH]; intros st; [reflexivity|].
  cbn [app scan_items].
  destruct (uris_of_item v) as [a|e]; cbn [bind]; [|reflexivity].
  destruct (py_iter a) as [a0|e]; cbn [bind]; [|reflexivity].
  destruct (scan_uris a0 st); cbn [bind]; [|reflexivity]. apply IH.
Qed.

Lemma malformed_entry_raises u rest st :
  malformed_entry u → scan_uris (u :: rest) st = Raise AttributeError.
Proof.
  intros Hu. cbn [scan_uris]. unfold raw_of_entry, py_or.
  destruct Hu as [u Ht Hd | m v Hm Ht Hv].
  - rewrite Ht. destruct u; try discriminate; reflexivity.
  - assert (Hne : m ≠ ∅)
      by (intros ->; rewrite lookup_empty in Hm; discriminate).
    cbn [truthy]. rewrite bool_decide_eq_false_2 by exact Hne.
    cbn [negb py_get]. rewrite Hm. cbn [default from_option id bind].
    unfold normalize_domain_value. rewrite Ht. cbn [negb].
    destruct v; try discriminate; reflexivity.
Qed.

Lemma item_not_object_raises it rest st :
  is_dict it = false → scan_items (it :: rest) st = Raise AttributeError.
Proof.
  intros Hd. cbn [scan_items]. unfold uris_of_item.
  destruct it; try discriminate; reflexivity.
Qed.

Lemma extract_domains_items m its :
  m !! "items" = Some (JList its) →
  extract_domains (Holds (JDict m))
  = (st <~ scan_items its (∅, []) ;; Ok st.2).
Proof.
  intros Hm. cbn [extract_domains]. unfold extract_domains_data.
  cbn [py_get]. rewrite Hm. reflexivity.
Qed.

End VaultFacts.

(** C3, as amended. [extract_domains] decides duplicates on the normalised
    domain, not on the raw string: whenever the export yields the raw values
    [raws] and these normalise to [doms], the output is the list of first
    occurrences of the non-empty elements of [doms], in their order, and it
    has no duplicates. *)
Theorem extract_domains_first_occurrences :
  ∀ (data : json) (raws : list json) (doms : list string),
    raw_values data = Ok raws →
    collect normalize_domain_value raws = Ok doms →
    extract_domains (Holds data)
    = Ok (first_occurrences (filter (λ d, d ≠ "") doms))
    ∧ NoDup (first_occurrences (filter (λ d, d ≠ "") doms)).
Proof.
  intros data raws doms Hraws Hdoms.
  split; [|apply NoDup_first_occurrences].
  unfold raw_values in Hraws. simpl. unfold extract_domains_data.
  destruct (py_get data "items" (JList [])) as [items|e]; simpl in *;
    [|discriminate].
  destruct (py_iter items) as [its|e]; simpl in *; [|discriminate].
  destruct (collect raws_of_item its) as [rss|e] eqn:Hrss; simpl in *;
    [|discriminate].
  injection Hraws as <-.
  rewrite (scan_items_collect its rss doms (∅, []) Hrss Hdoms). simpl.
  rewrite record_domain_fold.
  - simpl. rewrite keep_fresh_all. reflexivity.
  - intros x. simpl. rewrite elem_of_nil. set_solver.
Qed.

Lemma extract_domains_first_occurrences_witness :
  extract_domains
    (Holds (export_of [["https://example.com"; "https://www.example.com"];
                       ["https://test.org"]]))
  = Ok (first_occurrences
          (filter (λ d, d ≠ "") ["example.com"; "example.com"; "test.org"]))
  ∧ NoDup (first_occurrences
             (filter (λ d, d ≠ "") ["example.com"; "example.com"; "test.org"])).
Proof.
  apply (extract_domains_first_occurrences _
           [JStr "https://example.com"; JStr "https://www.example.com";
            JStr "https://test.org"]).
  - vm_compute. reflexivity.
  - vm_compute. reflexivity.
Defined.

(** C3, as stated, fails: two distinct raw strings with the same normal form
    are emitted once by the code, twice by the wording of the claim. *)
Lemma extract_domains_not_raw_keyed :
  extract_domains
    (Holds (export_of [["https://example.com"; "https://www.example.com"]]))
  = Ok ["example.com"]
  ∧ raw_keyed_output ["https://example.com"; "https://www.example.com"]
    = Ok ["example.com"; "example.com"].
Proof. split; vm_compute; reflexivity. Qed.

(** C6, as amended. An entry without a usable URI (a falsy entry, no
    ["uri"], a falsy ["uri"] of any type, or text that normalises to the
    empty string) and an item without URIs are skipped: the loops end as if
    the entry or item were not there, with no record and no exception.  JSON
    types are not validated otherwise: once the items and entries before it
    have been processed, an item that is not an object, a truthy entry that
    is not an object and a ["uri"] that is truthy and not text each raise
    [AttributeError], and [extract_domains] returns no list. *)
Theorem blank_entries_skipped :
  (∀ us1 u us2 st,
     blank_entry u → scan_uris (us1 ++ u :: us2) st = scan_uris (us1 ++ us2) st)
  ∧ (∀ is1 it is2 st,
       blank_item it →
       scan_items (is1 ++ it :: is2) st = scan_items (is1 ++ is2) st)
  ∧ (∀ (m : gmap string json) is1 it is2 st1,
       m !! "items" = Some (JList (is1 ++ it :: is2)) →
       scan_items is1 (∅, []) = Ok st1 →
       is_dict it = false →
       extract_domains (Holds (JDict m)) = Raise AttributeError)
  ∧ (∀ (m : gmap string json) is1 it is2 st1 us1 u us2 st2,
       m !! "items" = Some (JList (is1 ++ it :: is2)) →
       scan_items is1 (∅, []) = Ok st1 →
       uris_of_item it = Ok (JList (us1 ++ u :: us2)) →
       scan_uris us1 st1 = Ok st2 →
       malformed_entry u →
       extract_domains (Holds (JDict m)) = Raise AttributeError).
Proof.
  split; [exact scan_uris_blank|].
  split; [exact scan_items_blank|].
  split.
  - intros m is1 it is2 st1 Hm H1 Hd.
    rewrite (extract_domains_items m _ Hm), scan_items_app, H1. cbn [bind].
    rewrite (item_not_object_raises it is2 st1 Hd). reflexivity.
  - intros m is1 it is2 st1 us1 u us2 st2 Hm H1 Hu H2 Hbad.
    rewrite (extract_domains_items m _ Hm), scan_items_app, H1. cbn [bind].
    cbn [scan_items]. rewrite Hu. cbn [bind py_iter].
    rewrite scan_uris_app, H2. cbn [bind].
    rewrite (malformed_entry_raises u us2 st2 Hbad). reflexivity.
Qed.

Lemma blank_entries_skipped_witness :
  scan_uris ([uri_entry "https://example.com"]
               ++ JDict {[ "uri" := JInt 0 ]} :: [uri_entry "https://test.org"])
            (∅, [])
  = scan_uris ([uri_entry "https://example.com"] ++ [uri_entry "https://test.org"])
              (∅, [])
  ∧ extract_domains
      (Holds (JDict {[ "items" :=
         JList ([login_item ["https://example.com"]]
                  ++ JDict {[ "login" :=
                       JDict {[ "uris" :=
                         JList ([uri_entry "https://test.org"]
                                  ++ JDict {[ "uri" := JBool true ]} :: []) ]} ]}
                  :: []) ]}))
    = Raise AttributeError.
Proof.
  split.
  - apply (proj1 blank_entries_skipped).
    apply (blank_falsy_uri _ (JInt 0)); vm_compute; reflexivity.
  - apply (proj2 (proj2 (proj2 blank_entries_skipped))
             {[ "items" :=
                JList ([login_item ["https://example.com"]]
                         ++ JDict {[ "login" :=
                              JDict {[ "uris" :=
                                JList ([uri_entry "https://test.org"]
                                         ++ JDict {[ "uri" := JBool true ]} :: []) ]} ]}
                         :: []) ]}
             [login_item ["https://example.com"]]
             (JDict {[ "login" :=
                JDict {[ "uris" :=
                  JList ([uri_entry "https://test.org"]
                           ++ JDict {[ "uri" := JBool true ]} :: []) ]} ]})
             []
             ({["example.com"]}, ["example.com"])
             [uri_entry "https://test.org"] (JDict {[ "uri" := JBool true ]}) []
             ({["test.org"; "example.com"]}, ["example.com"; "test.org"])).
    + vm_compute; reflexivity.
    + vm_compute; reflexivity.
    + vm_compute; reflexivity.
    + vm_compute; reflexivity.
    + apply (entry_uri_not_text _ (JBool true)); vm_compute; reflexivity.
Defined.

(** C6, as stated, fails: an item that is a number, and a ["uri"] that is a
    non-zero number, each end the whole extraction with an exception. *)
Lemma malformed_entries_raise :
  extract_domains (Holds (JDict {[ "items" := JList [JInt 5] ]}))
  = Raise AttributeError
  ∧ extract_domains
      (Holds (JDict {[ "items" :=
         JList [JDict {[ "login" :=
           JDict {[ "uris" := JList [JDict {[ "uri" := JInt 5 ]}] ]} ]}] ]}))
    = Raise AttributeError.
Proof. repeat split; vm_compute; reflexivity. Qed.

(** A URL with an unbalanced bracket makes [urlparse] raise, and the
    exception leaves [extract_domains]. *)
Lemma unbalanced_bracket_raises :
  normalize_domain "http://[example.com" = Raise ValueError
  ∧ extract_domains (Holds (export_of [["https://example.com"; "http://[example.com"]]))
    = Raise ValueError.
Proof. repeat split; vm_compute; reflexivity. Qed.

(* ===================================================================== *)
(** * The two normalisers                                                 *)
(* ===================================================================== *)

Section NormalizerFacts.
Import DomainNormalizer.

Lemma str_map_empty f s : str_map f s = "" → s = "".
Proof. destruct s; [reflexivity|discriminate]. Qed.

Lemma append_dot_not_empty a b : a +:+ "." +:+ b ≠ "".
Proof. destruct a; discriminate. Qed.

Lemma normalize_not_empty (extract : string → ExtractResult) url :
  url ≠ "" → normalize extract url ≠ "".
Proof.
  intros Hne. unfold normalize.
  destruct (String.eqb_spec url "") as [->|_]; [congruence|].
  destruct (_ || _); intros H; apply str_map_empty in H.
  - congruence.
  - exact (append_dot_not_empty _ _ H).
Qed.

Lemma normalized_domains_fold (extract : string → ExtractResult) ds acc :
  fold_left (keep_normalized extract) ds acc
  = fold_left keep_fresh (normalize extract <$> ds) acc.
Proof.
  revert acc. induction ds as [|d r IH]; intros acc; [reflexivity|].
  simpl. rewrite IH. reflexivity.
Qed.

End NormalizerFacts.

(** C8, as amended. The two normalisers are different functions: they agree
    on the empty string, but [parser.normalize_domain] maps e-mail-like text
    to the empty string, which [domain_normalizer.normalize] never returns
    for a non-empty input, whatever [tldextract] answers.  The pipeline
    applies the second to the output of the first and keeps the first
    occurrence of every non-empty result. *)
Theorem normalizers_differ :
  ∀ extract : string → DomainNormalizer.ExtractResult,
    (∀ url, url ≠ "" → DomainNormalizer.normalize extract url ≠ "")
    ∧ DomainNormalizer.normalize extract "" = ""
    ∧ normalize_domain "" = Ok ""
    ∧ normalize_domain "user@example.com" = Ok ""
    ∧ (∀ file domains,
         extract_domains file = Ok domains →
         domains ≠ [] →
         DomainNormalizer.pipeline_domains extract file
         = Ok (first_occurrences
                 (filter (λ d, d ≠ "")
                         (DomainNormalizer.normalize extract <$> domains)))).
Proof.
  intros extract.
  split; [apply normalize_not_empty|].
  split; [reflexivity|]. split; [reflexivity|].
  split; [vm_compute; reflexivity|].
  intros file domains Hex Hne.
  unfold DomainNormalizer.pipeline_domains. rewrite Hex. simpl.
  destruct domains as [|d r]; [congruence|].
  unfold DomainNormalizer.normalized_domains.
  rewrite normalized_domains_fold, keep_fresh_all. reflexivity.
Qed.

Lemma normalizers_differ_witness :
  DomainNormalizer.normalize
    (λ _, {| DomainNormalizer.subdomain := "";
             DomainNormalizer.domain := "example";
             DomainNormalizer.suffix := "com" |})
    "user@example.com" ≠ "".
Proof.
  apply (proj1 (normalizers_differ _)). discriminate.
Defined.

(** C8, as stated, fails: no behaviour of [tldextract] makes the two
    normalisers agree on every input. *)
Lemma normalizers_not_equivalent :
  ¬ ∃ extract : string → DomainNormalizer.ExtractResult,
      ∀ raw, Ok (DomainNormalizer.normalize extract raw) = normalize_domain raw.
Proof.
  intros [extract Heq].
  specialize (Heq "user@example.com").
  assert (Hnd : normalize_domain "user@example.com" = Ok "")
    by (vm_compute; reflexivity).
  rewrite Hnd in Heq. injection Heq as Heq.
  exact (normalize_not_empty extract "user@example.com" ltac:(discriminate) Heq).
Qed.

(* ===================================================================== *)
(** * Facts about text                                                    *)
(* ===================================================================== *)

Section TextFacts.

Lemma app_cons c a b : String c a +:+ b = String c (a +:+ b).
Proof. reflexivity. Qed.

Lemma app_empty_l b : "" +:+ b = b.
Proof. reflexivity. Qed.

Lemma app_empty_r a : a +:+ "" = a.
Proof. induction a as [|c a IH]; [reflexivity|]. rewrite app_cons, IH. reflexivity. Qed.

Lemma str_app_assoc a b c : (a +:+ b) +:+ c = a +:+ (b +:+ c).
Proof.
  induction a as [|x a IH]; [reflexivity|]. rewrite !app_cons, IH. reflexivity.
Qed.

Lemma str_all_app p a b : str_all p (a +:+ b) = str_all p a && str_all p b.
Proof.
  induction a as [|x a IH]; [reflexivity|].
  rewrite app_cons. simpl. rewrite IH, andb_assoc. reflexivity.
Qed.

Lemma str_all_and p q s :
  str_all (λ c, p c && q c) s = str_all p s && str_all q s.
Proof.
  induction s as [|c s IH]; [reflexivity|]. simpl. rewrite IH.
  destruct (p c), (q c), (str_all p s), (str_all q s); reflexivity.
Qed.

Lemma str_all_impl (p q : ascii → bool) s :
  (∀ c, p c = true → q c = true) → str_all p s = true → str_all q s = true.
Proof.
  intros Hpq. induction s as [|c s IH]; [reflexivity|]. simpl.
  rewrite !andb_true_iff. intros [Hc Hs]. auto.
Qed.

Lemma has_char_app c a b : has_char c (a +:+ b) = has_char c a || has_char c b.
Proof.
  induction a as [|x a IH]; [reflexivity|].
  rewrite app_cons. simpl. rewrite IH, orb_assoc. reflexivity.
Qed.

(** a character absent from a text, as a property of all its characters *)
Lemma has_char_false c s :
  has_char c s = false ↔ str_all (λ a, negb (Ascii.eqb a c)) s = true.
Proof.
  induction s as [|x s IH]; simpl; [tauto|].
  rewrite orb_false_iff, andb_true_iff, negb_true_iff, IH. tauto.
Qed.

Lemma str_in_one c s : str_in (String c "") s = has_char c s.
Proof.
  induction s as [|x s IH]; [reflexivity|]. simpl.
  rewrite IH, andb_true_r, Ascii.eqb_sym. reflexivity.
Qed.

Lemma startswith_app n a b : startswith n a = true → startswith n (a +:+ b) = true.
Proof.
  revert a. induction n as [|x n IH]; intros [|y a]; try reflexivity;
    try discriminate.
  rewrite app_cons. cbn [startswith]. rewrite !andb_true_iff.
  intros [-> H]. auto.
Qed.

Lemma str_in_app_l n a b : str_in n a = true → str_in n (a +:+ b) = true.
Proof.
  induction a as [|y a IH].
  - simpl. rewrite orb_false_r. destruct n; [|discriminate].
    intros _. destruct b; reflexivity.
  - rewrite app_cons. simpl. rewrite !orb_true_iff. intros [H|H].
    + left. destruct n as [|x n]; [reflexivity|].
      simpl in *. rewrite andb_true_iff in *. destruct H as [-> H].
      split; [reflexivity|]. apply startswith_app, H.
    + right. apply IH, H.
Qed.

Lemma str_in_app_r n a b : str_in n b = true → str_in n (a +:+ b) = true.
Proof.
  intros H. induction a as [|y a IH]; [exact H|].
  rewrite app_cons. simpl. rewrite IH. apply orb_true_r.
Qed.

(** what [lstrip] and [rstrip] remove *)
Lemma lstrip_by_split p s : ∃ w, s = w +:+ lstrip_by p s.
Proof.
  induction s as [|c s [w IH]]; [exists ""; reflexivity|]. simpl.
  destruct (p c).
  - exists (String c w). rewrite app_cons, <- IH. reflexivity.
  - exists "". reflexivity.
Qed.

Lemma rstrip_by_split p s : ∃ w, s = rstrip_by p s +:+ w.
Proof.
  induction s as [|c s [w IH]]; [exists ""; reflexivity|]. simpl.
  destruct (rstrip_by p s) as [|d r].
  - destruct (p c).
    + exists (String c s). reflexivity.
    + exists w. rewrite app_cons, <- IH. reflexivity.
  - exists w. rewrite app_cons, <- IH. reflexivity.
Qed.

Lemma strip_split s : ∃ w1 w2, s = w1 +:+ strip s +:+ w2.
Proof.
  destruct (lstrip_by_split is_space s) as [w1 H1].
  destruct (rstrip_by_split is_space (lstrip_by is_space s)) as [w2 H2].
  exists w1, w2. unfold strip. rewrite <- H2. exact H1.
Qed.

Lemma str_in_strip n s : str_in n (strip s) = true → str_in n s = true.
Proof.
  intros H. destruct (strip_split s) as (w1 & w2 & E). rewrite E.
  apply str_in_app_r, str_in_app_l, H.
Qed.

Lemma has_char_lstrip p c s :
  p c = false → has_char c (lstrip_by p s) = has_char c s.
Proof.
  intros Hc. induction s as [|x s IH]; [reflexivity|]. simpl.
  destruct (p x) eqn:Hx; [|reflexivity]. rewrite IH.
  destruct (Ascii.eqb_spec x c) as [->|_]; [congruence|reflexivity].
Qed.

Lemma has_char_rstrip p c s :
  p c = false → has_char c (rstrip_by p s) = has_char c s.
Proof.
  intros Hc. induction s as [|x s IH]; [reflexivity|]. simpl.
  destruct (rstrip_by p s) as [|d r] eqn:E.
  - simpl in IH. rewrite <- IH, orb_false_r.
    destruct (p x) eqn:Hx; simpl; [|rewrite orb_false_r; reflexivity].
    destruct (Ascii.eqb_spec x c) as [->|_]; [congruence|reflexivity].
  - simpl. simpl in IH. rewrite IH. reflexivity.
Qed.

Lemma has_char_strip c s : is_space c = false → has_char c (strip s) = has_char c s.
Proof.
  intros Hc. unfold strip. rewrite has_char_rstrip, has_char_lstrip; auto.
Qed.

(** lower case *)
Lemma lower_char_upper a : is_upper a = true → is_lower (lower_char a) = true.
Proof. destruct a as [[] [] [] [] [] [] [] []]; vm_compute; congruence. Qed.

Lemma eqb_lower_char c a :
  is_alpha c = false → Ascii.eqb (lower_char a) c = Ascii.eqb a c.
Proof.
  intros Hc. unfold lower_char. destruct (is_upper a) eqn:Ha; [|reflexivity].
  pose proof (lower_char_upper a Ha) as Hl. unfold lower_char in Hl.
  rewrite Ha in Hl.
  destruct (Ascii.eqb_spec (ascii_of_nat (code a + 32)) c) as [E|_];
    destruct (Ascii.eqb_spec a c) as [E'|_]; try reflexivity.
  - subst c. unfold is_alpha in Hc. rewrite Hl, orb_true_r in Hc. discriminate.
  - subst c. unfold is_alpha in Hc. rewrite Ha in Hc. discriminate.
Qed.

Lemma has_char_lower c s : is_alpha c = false → has_char c (lower s) = has_char c s.
Proof.
  intros Hc. unfold lower. induction s as [|x s IH]; [reflexivity|]. simpl.
  rewrite IH, eqb_lower_char by exact Hc. reflexivity.
Qed.

Lemma startswith_lower n s :
  str_all (λ c, negb (is_alpha c)) n = true →
  startswith n (lower s) = startswith n s.
Proof.
  revert s. induction n as [|c n IH]; intros s Hn; [reflexivity|].
  simpl in Hn. rewrite andb_true_iff, negb_true_iff in Hn. destruct Hn as [Hc Hn].
  destruct s as [|x s]; [reflexivity|]. simpl.
  rewrite IH by exact Hn.
  rewrite (Ascii.eqb_sym c (lower_char x)), (Ascii.eqb_sym c x),
    eqb_lower_char by exact Hc.
  reflexivity.
Qed.

Lemma str_in_lower n s :
  str_all (λ c, negb (is_alpha c)) n = true → str_in n (lower s) = str_in n s.
Proof.
  intros Hn. induction s as [|x s IH].
  - simpl. change "" with (lower ""). rewrite startswith_lower by exact Hn.
    reflexivity.
  - change (lower (String x s)) with (String (lower_char x) (lower s)).
    cbn [str_in]. rewrite IH.
    change (String (lower_char x) (lower s)) with (lower (String x s)).
    rewrite startswith_lower by exact Hn. reflexivity.
Qed.

End TextFacts.

(** C4, as amended. For every string that contains ['@'] and does not
    contain the scheme delimiter ["://"], [parser.normalize_domain] returns
    the empty string; in particular it does so for ["user@example.com"].
    [domain_normalizer.normalize], the other function that carries the name,
    has no such test: whatever [tldextract] answers, it returns a non-empty
    string for every non-empty input. *)
Theorem email_like_is_rejected :
  (∀ raw : string,
     str_in "@" raw = true → str_in "://" raw = false →
     normalize_domain raw = Ok "")
  ∧ normalize_domain "user@example.com" = Ok ""
  ∧ (∀ (extract : string → DomainNormalizer.ExtractResult) (url : string),
       url ≠ "" → DomainNormalizer.normalize extract url ≠ "").
Proof.
  split; [|split; [vm_compute; reflexivity|]].
  - intros raw Hat Hscheme. unfold normalize_domain.
    destruct (String.eqb_spec raw "") as [->|_]; [reflexivity|].
    unfold parsed_host.
    assert (H1 : str_in "@" (lower (strip raw)) = true).
    { rewrite str_in_one in *. rewrite has_char_lower, has_char_strip;
        [exact Hat|reflexivity|reflexivity]. }
    assert (H2 : str_in "://" (lower (strip raw)) = false).
    { rewrite str_in_lower by reflexivity.
      destruct (str_in "://" (strip raw)) eqn:E; [|reflexivity].
      apply str_in_strip in E. congruence. }
    rewrite H1, H2. reflexivity.
  - intros extract url. apply normalize_not_empty.
Qed.

Lemma email_like_is_rejected_witness :
  normalize_domain "  Alice.Smith@Mail.Example.ORG " = Ok ""
  ∧ DomainNormalizer.normalize
      (λ _, {| DomainNormalizer.subdomain := "";
               DomainNormalizer.domain := "example";
               DomainNormalizer.suffix := "org" |})
      "alice.smith@mail.example.org" ≠ "".
Proof.
  split.
  - apply (proj1 email_like_is_rejected); vm_compute; reflexivity.
  - apply (proj2 (proj2 email_like_is_rejected)). discriminate.
Defined.

(** C4, as stated, fails for [domain_normalizer.normalize]: the text
    ["user@example.com"] contains ['@'] and no ["://"], yet the function
    returns ["example.com"] when [tldextract] finds the domain [example] and
    the suffix [com], and no answer of [tldextract] makes it return the empty
    string. *)
Lemma normalize_keeps_email_like :
  str_in "@" "user@example.com" = true
  ∧ str_in "://" "user@example.com" = false
  ∧ DomainNormalizer.normalize
      (λ _, {| DomainNormalizer.subdomain := "";
               DomainNormalizer.domain := "example";
               DomainNormalizer.suffix := "com" |})
      "user@example.com" = "example.com"
  ∧ ∀ extract : string → DomainNormalizer.ExtractResult,
      DomainNormalizer.normalize extract "user@example.com" ≠ "".
Proof.
  split; [vm_compute; reflexivity|]. split; [vm_compute; reflexivity|].
  split; [vm_compute; reflexivity|].
  intros extract. apply normalize_not_empty. discriminate.
Qed.

(* ===================================================================== *)
(** * Labels: [split], [join] and the slices [parts[-n:]]                  *)
(* ===================================================================== *)

Section LabelFacts.

Lemma split_not_nil c s : split c s ≠ [].
Proof.
  destruct s as [|a t]; simpl; [discriminate|].
  destruct (Ascii.eqb a c); [discriminate|].
  destruct (split c t); discriminate.
Qed.

Lemma split_length c s : 1 ≤ length (split c s).
Proof.
  pose proof (split_not_nil c s). destruct (split c s); [congruence|simpl; lia].
Qed.

Lemma split_no_sep c s : Forall (λ l, has_char c l = false) (split c s).
Proof.
  induction s as [|a t IH]; simpl.
  - repeat constructor.
  - destruct (Ascii.eqb a c) eqn:E.
    + constructor; [reflexivity|exact IH].
    + destruct (split c t) as [|x r].
      * repeat constructor. simpl. rewrite E. reflexivity.
      * inversion IH as [|? ? Hx Hr]; subst. constructor; [|exact Hr].
        simpl. rewrite E, Hx. reflexivity.
Qed.

Lemma split_one c a : has_char c a = false → split c a = [a].
Proof.
  induction a as [|x a IH]; [reflexivity|]. simpl.
  rewrite orb_false_iff. intros [-> H]. rewrite (IH H). reflexivity.
Qed.

Lemma split_app_sep c a rest :
  has_char c a = false →
  split c (a +:+ String c rest) = a :: split c rest.
Proof.
  induction a as [|x a IH].
  - intros _. rewrite app_empty_l. simpl. rewrite Ascii.eqb_refl. reflexivity.
  - rewrite app_cons. simpl. rewrite orb_false_iff. intros [Hx H].
    rewrite Hx, (IH H). reflexivity.
Qed.

Lemma join_cons sep x y r :
  join sep (x :: y :: r) = x +:+ sep +:+ join sep (y :: r).
Proof. reflexivity. Qed.

Lemma split_join c ls :
  ls ≠ [] →
  Forall (λ l, has_char c l = false) ls →
  split c (join (String c "") ls) = ls.
Proof.
  induction ls as [|x r IH]; [congruence|]. intros _ Hall.
  inversion Hall as [|? ? Hx Hr]; subst.
  destruct r as [|y r].
  - simpl. apply split_one, Hx.
  - rewrite join_cons, app_cons, app_empty_l.
    rewrite (split_app_sep c x _ Hx). f_equal. apply IH; [discriminate|exact Hr].
Qed.

Lemma str_all_split q c s :
  str_all q s = true → Forall (λ l, str_all q l = true) (split c s).
Proof.
  induction s as [|a t IH]; simpl.
  - repeat constructor.
  - rewrite andb_true_iff. intros [Ha Ht]. specialize (IH Ht).
    destruct (Ascii.eqb a c).
    + constructor; [reflexivity|exact IH].
    + destruct (split c t) as [|x r].
      * repeat constructor. simpl. rewrite Ha. reflexivity.
      * inversion IH as [|? ? Hx Hr]; subst. constructor; [|exact Hr].
        simpl. rewrite Ha, Hx. reflexivity.
Qed.

Lemma str_all_join q sep ls :
  str_all q sep = true →
  Forall (λ l, str_all q l = true) ls →
  str_all q (join sep ls) = true.
Proof.
  intros Hsep. induction ls as [|x r IH]; [reflexivity|]. intros Hall.
  inversion Hall as [|? ? Hx Hr]; subst.
  destruct r as [|y r]; [exact Hx|].
  rewrite join_cons, !str_all_app, Hx, Hsep, (IH Hr). reflexivity.
Qed.

Lemma last_n_length {A} n (l : list A) : length (last_n n l) = min n (length l).
Proof. unfold last_n. rewrite length_drop. lia. Qed.

Lemma last_n_all {A} n (l : list A) : length l ≤ n → last_n n l = l.
Proof.
  intros H. unfold last_n. replace (length l - n) with 0 by lia. apply drop_0.
Qed.

Lemma last_n_last_n {A} k n (l : list A) : k ≤ n → last_n k (last_n n l) = last_n k l.
Proof.
  intros H. unfold last_n. rewrite length_drop, drop_drop. f_equal. lia.
Qed.

Lemma Forall_last_n {A} (P : A → Prop) n l : Forall P l → Forall P (last_n n l).
Proof. apply Forall_drop. Qed.

Lemma last_n_not_nil {A} n (l : list A) : 0 < n → l ≠ [] → last_n n l ≠ [].
Proof.
  intros Hn Hl E. apply (f_equal length) in E. rewrite last_n_length in E.
  destruct l; [congruence|]. simpl in E. lia.
Qed.

Lemma count_char_app c a b : count_char c (a +:+ b) = count_char c a + count_char c b.
Proof.
  induction a as [|x a IH]; [reflexivity|].
  rewrite app_cons. simpl. rewrite IH. lia.
Qed.

Lemma count_join_three a b c :
  2 ≤ count_char "." (join "." [a; b; c]).
Proof.
  change (join "." [a; b; c]) with (a +:+ "." +:+ b +:+ "." +:+ c).
  rewrite !count_char_app. simpl. lia.
Qed.

Lemma multipart_one_dot x : x ∈ MULTIPART_TLDS → count_char "." x = 1.
Proof.
  unfold MULTIPART_TLDS. rewrite !elem_of_union, !elem_of_singleton.
  intros H. repeat destruct H as [H|H]; subst; reflexivity.
Qed.

(** a list of three elements, from its length *)
Lemma length_three {A} (l : list A) : length l = 3 → ∃ a b c, l = [a; b; c].
Proof.
  destruct l as [|a [|b [|c [|d l]]]]; simpl; try discriminate. eauto.
Qed.

Lemma four_label_guard_false parts : four_label_guard parts = false.
Proof.
  unfold four_label_guard, last_three.
  destruct (Nat.leb_spec 3 (length parts)) as [H3|H3].
  - destruct (length_three (last_n 3 parts)) as (a & b & c & E).
    { rewrite last_n_length. lia. }
    rewrite E. rewrite bool_decide_eq_false_2; [reflexivity|].
    intros Hin. apply multipart_one_dot in Hin.
    pose proof (count_join_three a b c). lia.
  - rewrite bool_decide_eq_false_2; [reflexivity|].
    intros Hin. apply multipart_one_dot in Hin. discriminate.
Qed.

(** the three ways in which [root_of_host] ends *)
Lemma root_of_host_cases host :
  let parts := labels host in
  (length parts < 2 ∧ root_of_host host = host)
  ∨ (3 ≤ length parts ∧ last_two parts ∈ MULTIPART_TLDS
     ∧ root_of_host host = join "." (last_n 3 parts))
  ∨ (2 ≤ length parts ∧ three_label_guard parts = false
     ∧ root_of_host host = join "." (last_n 2 parts)).
Proof.
  unfold labels, root_of_host. simpl.
  destruct (Nat.ltb_spec (length (split "." host)) 2) as [H2|H2]; [left; auto|].
  rewrite four_label_guard_false.
  destruct (three_label_guard (split "." host)) eqn:G.
  - right; left. unfold three_label_guard in G.
    rewrite andb_true_iff, bool_decide_eq_true, Nat.leb_le in G. tauto.
  - right; right. auto.
Qed.

(** the labels of the result of [root_of_host] *)
Lemma root_of_host_labels host :
  let parts := labels host in
  (length parts < 2 ∧ labels (root_of_host host) = parts)
  ∨ (3 ≤ length parts ∧ last_two parts ∈ MULTIPART_TLDS
     ∧ labels (root_of_host host) = last_n 3 parts)
  ∨ (2 ≤ length parts ∧ three_label_guard parts = false
     ∧ labels (root_of_host host) = last_n 2 parts).
Proof.
  pose proof (split_no_sep "." host) as Hno.
  pose proof (split_not_nil "." host) as Hnil.
  destruct (root_of_host_cases host) as [[H E]|[(H & Hin & E)|(H & G & E)]];
    simpl in *; rewrite E.
  - left. auto.
  - right; left. repeat split; [exact H|exact Hin|].
    apply split_join; [apply last_n_not_nil; [lia|exact Hnil]|].
    apply Forall_last_n, Hno.
  - right; right. repeat split; [exact H|exact G|].
    apply split_join; [apply last_n_not_nil; [lia|exact Hnil]|].
    apply Forall_last_n, Hno.
Qed.

Lemma root_of_host_fixed host : root_of_host (root_of_host host) = root_of_host host.
Proof.
  destruct (root_of_host_cases host) as [[H E]|[(H & Hin & E)|(H & G & E)]];
    simpl in *.
  - rewrite E. exact E.
  - destruct (root_of_host_labels host) as [[H' _]|[(_ & _ & L)|(_ & G' & _)]];
      simpl in *; [lia| |].
    + unfold root_of_host at 1. fold (labels (root_of_host host)). rewrite L.
      rewrite last_n_length.
      destruct (Nat.ltb_spec (3 `min` length (labels host)) 2); [lia|].
      unfold three_label_guard, last_two.
      rewrite last_n_last_n by lia. fold (last_two (labels host)).
      rewrite bool_decide_eq_true_2 by exact Hin.
      rewrite last_n_length.
      destruct (Nat.leb_spec 3 (3 `min` length (labels host))); [|lia].
      simpl. rewrite last_n_last_n by lia. symmetry. exact E.
    + unfold three_label_guard in G'.
      rewrite bool_decide_eq_true_2 in G' by exact Hin.
      destruct (Nat.leb_spec 3 (length (labels host))); [discriminate|lia].
  - destruct (root_of_host_labels host) as [[H' _]|[(H3 & Hin & _)|(_ & _ & L)]];
      simpl in *; [lia| |].
    + unfold three_label_guard in G.
      rewrite bool_decide_eq_true_2 in G by exact Hin.
      destruct (Nat.leb_spec 3 (length (labels host))); [discriminate|lia].
    + unfold root_of_host at 1. fold (labels (root_of_host host)). rewrite L.
      rewrite last_n_length.
      destruct (Nat.ltb_spec (2 `min` length (labels host)) 2); [lia|].
      rewrite four_label_guard_false.
      unfold three_label_guard. rewrite last_n_length.
      destruct (Nat.leb_spec 3 (2 `min` length (labels host))); [lia|].
      rewrite andb_false_r. unfold last_two.
      rewrite last_n_last_n by lia. symmetry. exact E.
Qed.

Lemma str_all_drop q n s : str_all q s = true → str_all q (str_drop n s) = true.
Proof.
  revert s. induction n as [|n IH]; intros [|c s]; simpl; auto.
  rewrite andb_true_iff. intros [_ H]. auto.
Qed.

Lemma str_all_strip_prefix q host :
  str_all q host = true → str_all q (strip_prefix host) = true.
Proof.
  intros H. unfold strip_prefix.
  destruct (startswith "www." host); [apply str_all_drop, H|].
  destruct (startswith "m." host); [apply str_all_drop, H|exact H].
Qed.

Lemma str_all_root_of_host q host :
  q "."%char = true → str_all q host = true → str_all q (root_of_host host) = true.
Proof.
  intros Hdot H.
  pose proof (str_all_split q "." host H) as Hparts.
  assert (Hsep : str_all q "." = true) by (simpl; rewrite Hdot; reflexivity).
  destruct (root_of_host_cases host) as [[_ E]|[(_ & _ & E)|(_ & _ & E)]];
    simpl in *; rewrite E.
  - exact H.
  - apply str_all_join; [exact Hsep|apply Forall_last_n, Hparts].
  - apply str_all_join; [exact Hsep|apply Forall_last_n, Hparts].
Qed.

End LabelFacts.

(* ===================================================================== *)
(** * Properties of [normalize_domain]                                    *)
(* ===================================================================== *)

Section NormalizeFacts.

Lemma urlsplit_raises s e : UrlParse.urlsplit s = Raise e → e = ValueError.
Proof.
  unfold UrlParse.urlsplit.
  destruct (UrlParse.split_scheme _) as [sch url].
  destruct (startswith "//" url); [|discriminate].
  destruct (_ || _); [congruence|].
  destruct (_ && _); [congruence|discriminate].
Qed.

Lemma parsed_host_raises raw e : parsed_host raw = Raise e → e = ValueError.
Proof.
  unfold parsed_host. destruct (_ && _); [discriminate|].
  unfold UrlParse.urlparse.
  destruct (UrlParse.urlsplit _) as [r|e'] eqn:E; simpl; [discriminate|].
  intros [= <-]. apply (urlsplit_raises _ _ E).
Qed.

(** [normalize_domain], by cases on the host that was parsed *)
Lemma normalize_domain_cases raw :
  (normalize_domain raw = Ok "" ∧ (raw = "" ∨ parsed_host raw = Ok ""))
  ∨ (∃ e, normalize_domain raw = Raise e ∧ parsed_host raw = Raise e)
  ∨ (∃ h, raw ≠ "" ∧ h ≠ "" ∧ parsed_host raw = Ok h
          ∧ normalize_domain raw = Ok (root_of_host (strip_prefix h))).
Proof.
  unfold normalize_domain.
  destruct (String.eqb_spec raw "") as [->|Hraw]; [left; auto|].
  destruct (parsed_host raw) as [h|e]; simpl.
  - destruct (String.eqb_spec h "") as [->|Hh]; [left; auto|].
    right; right. exists h. auto.
  - right; left. exists e. auto.
Qed.

Lemma parsed_host_empty : parsed_host "" = Ok "".
Proof. vm_compute. reflexivity. Qed.

Lemma labels_empty : labels "" = [""].
Proof. reflexivity. Qed.

End NormalizeFacts.

(** C9. Every entry of the multi-part suffix table has exactly two labels,
    so the guard of the four-label branch never holds.  Hence, for every
    input, [normalize_domain] raises only what [urlparse] raises, and
    otherwise returns at most three labels: the empty string, the
    prefix-stripped host when it has fewer than two labels, its last two
    labels, or its last three labels. *)
Theorem four_label_branch_unreachable :
  set_Forall (λ s, length (labels s) = 2) MULTIPART_TLDS
  ∧ (∀ parts, four_label_guard parts = false)
  ∧ (∀ raw,
       match normalize_domain raw with
       | Raise e => e = ValueError
       | Ok r =>
           length (labels r) ≤ 3
           ∧ (r = ""
              ∨ ∃ h, parsed_host raw = Ok h ∧
                  let host := strip_prefix h in
                  let parts := labels host in
                  (length parts < 2 ∧ r = host)
                  ∨ (2 ≤ length parts ∧ r = join "." (last_n 2 parts))
                  ∨ (3 ≤ length parts ∧ r = join "." (last_n 3 parts)))
       end).
Proof.
  split.
  { intros s. unfold MULTIPART_TLDS.
    rewrite !elem_of_union, !elem_of_singleton.
    intros H. repeat destruct H as [H|H]; subst; reflexivity. }
  split; [exact four_label_guard_false|].
  intros raw.
  destruct (normalize_domain_cases raw)
    as [[-> _]|[(e & -> & He)|(h & _ & _ & Hh & ->)]].
  - split; [simpl; lia|left; reflexivity].
  - apply (parsed_host_raises raw e He).
  - split.
    + destruct (root_of_host_labels (strip_prefix h))
        as [[H ->]|[(_ & _ & ->)|(_ & _ & ->)]]; simpl in *;
        rewrite ?last_n_length; lia.
    + right. exists h. split; [exact Hh|]. simpl.
      destruct (root_of_host_cases (strip_prefix h))
        as [[H E]|[(H & _ & E)|(H & _ & E)]]; simpl in *; auto.
Qed.

Lemma four_label_branch_unreachable_witness : length (labels "com.au") = 2.
Proof.
  apply (proj1 four_label_branch_unreachable).
  apply (bool_decide_unpack _). vm_compute. exact I.
Defined.

(* ===================================================================== *)
(** * The host that [urlparse] finds                                       *)
(* ===================================================================== *)

Section HostFacts.
Import UrlParse.

Lemma str_all_lstrip q p s : str_all q s = true → str_all q (lstrip_by p s) = true.
Proof.
  induction s as [|c s IH]; [reflexivity|]. simpl.
  destruct (p c); [|exact (λ H, H)].
  rewrite andb_true_iff. intros [_ H]. auto.
Qed.

Lemma str_all_filter q p s : str_all q s = true → str_all q (str_filter p s) = true.
Proof.
  induction s as [|c s IH]; [reflexivity|]. simpl.
  rewrite andb_true_iff. intros [Hc H].
  destruct (p c); simpl; rewrite ?Hc; auto.
Qed.

Lemma str_filter_all p s : str_all p (str_filter p s) = true.
Proof.
  induction s as [|c s IH]; [reflexivity|]. simpl.
  destruct (p c) eqn:E; simpl; rewrite ?E; exact IH.
Qed.

Lemma str_filter_id p s : str_all p s = true → str_filter p s = s.
Proof.
  induction s as [|c s IH]; [reflexivity|]. simpl.
  rewrite andb_true_iff. intros [-> H]. rewrite (IH H). reflexivity.
Qed.

Lemma str_all_take_until q p s :
  str_all q s = true → str_all q (take_until p s) = true.
Proof.
  induction s as [|c s IH]; [reflexivity|]. simpl.
  rewrite andb_true_iff. intros [Hc H].
  destruct (p c); simpl; rewrite ?Hc; auto.
Qed.

Lemma take_until_free p s : str_all (λ c, negb (p c)) (take_until p s) = true.
Proof.
  induction s as [|c s IH]; [reflexivity|]. simpl.
  destruct (p c) eqn:E; simpl; rewrite ?E; auto.
Qed.

Lemma take_until_id p s : str_all (λ c, negb (p c)) s = true → take_until p s = s.
Proof.
  induction s as [|c s IH]; [reflexivity|]. simpl.
  rewrite andb_true_iff, negb_true_iff. intros [-> H]. rewrite (IH H). reflexivity.
Qed.

Lemma drop_until_none p s : str_all (λ c, negb (p c)) s = true → drop_until p s = "".
Proof.
  induction s as [|c s IH]; [reflexivity|]. simpl.
  rewrite andb_true_iff, negb_true_iff. intros [-> H]. exact (IH H).
Qed.

Lemma str_all_partition q c s :
  str_all q s = true →
  str_all q (partition c s).1.1 = true ∧ str_all q (partition c s).2 = true.
Proof.
  induction s as [|a s IH]; [auto|]. simpl.
  rewrite andb_true_iff. intros [Ha H]. specialize (IH H).
  destruct (Ascii.eqb a c); [auto|].
  destruct (partition c s) as [[b f] r]. simpl in *. rewrite Ha. tauto.
Qed.

Lemma partition_none c s : has_char c s = false → partition c s = (s, false, "").
Proof.
  induction s as [|a s IH]; [reflexivity|]. simpl.
  rewrite orb_false_iff. intros [-> H]. rewrite (IH H). reflexivity.
Qed.

Lemma partition_join c s :
  s = (partition c s).1.1
      +:+ (if (partition c s).1.2 then String c "" else "")
      +:+ (partition c s).2.
Proof.
  induction s as [|a s IH]; [reflexivity|]. simpl.
  destruct (Ascii.eqb_spec a c) as [->|_]; [reflexivity|].
  destruct (partition c s) as [[b f] r]. simpl in *.
  rewrite app_cons, <- IH. reflexivity.
Qed.

Lemma str_all_rpartition q c s :
  str_all q s = true → str_all q (rpartition c s).2 = true.
Proof.
  induction s as [|a s IH]; [auto|]. simpl.
  rewrite andb_true_iff. intros [Ha H]. specialize (IH H).
  destruct (rpartition c s) as [[b f] r]. simpl in *.
  destruct f; [exact IH|].
  destruct (Ascii.eqb a c); simpl; [exact H|]. rewrite Ha. exact H.
Qed.

Lemma rpartition_tail c s :
  (rpartition c s).1.2 = false → (rpartition c s).2 = s.
Proof.
  induction s as [|a s IH]; [reflexivity|]. simpl.
  destruct (rpartition c s) as [[b f] r]. simpl in *.
  destruct f; [discriminate|].
  destruct (Ascii.eqb a c); [discriminate|reflexivity].
Qed.

Lemma rpartition_free c s : has_char c (rpartition c s).2 = false.
Proof.
  induction s as [|a s IH]; [reflexivity|]. simpl.
  pose proof (rpartition_tail c s) as Ht.
  destruct (rpartition c s) as [[b f] r]. simpl in *.
  destruct f; [exact IH|]. rewrite (Ht eq_refl) in IH.
  destruct (Ascii.eqb a c) eqn:E; simpl; [exact IH|].
  rewrite E, IH. reflexivity.
Qed.

Lemma rpartition_none c s : has_char c s = false → rpartition c s = ("", false, s).
Proof.
  induction s as [|a s IH]; [reflexivity|]. simpl.
  rewrite orb_false_iff. intros [-> H]. rewrite (IH H). reflexivity.
Qed.

Lemma lower_char_no_upper a : is_upper (lower_char a) = false.
Proof. destruct a as [[] [] [] [] [] [] [] []]; vm_compute; reflexivity. Qed.

Lemma lower_no_upper s : str_all no_upper (lower s) = true.
Proof.
  unfold lower. induction s as [|c s IH]; [reflexivity|]. simpl.
  unfold no_upper at 1. rewrite lower_char_no_upper. exact IH.
Qed.

Lemma lower_id s : str_all no_upper s = true → lower s = s.
Proof.
  unfold lower. induction s as [|c s IH]; [reflexivity|]. simpl.
  rewrite andb_true_iff. unfold no_upper at 1. rewrite negb_true_iff.
  intros [Hc H]. rewrite (IH H). unfold lower_char. rewrite Hc. reflexivity.
Qed.

Lemma host_char_all s :
  str_all host_char s = true
  ↔ str_all no_upper s = true ∧ str_all url_safe s = true
    ∧ str_all no_delim s = true ∧ str_all no_at s = true.
Proof.
  induction s as [|c s IH]; simpl; [tauto|].
  unfold host_char at 1. rewrite !andb_true_iff, IH. tauto.
Qed.

Lemma unbracketed_char_all s :
  str_all unbracketed_char s = true
  ↔ has_char ":" s = false ∧ has_char "[" s = false ∧ has_char "]" s = false.
Proof.
  rewrite !has_char_false.
  induction s as [|c s IH]; simpl; [tauto|].
  unfold unbracketed_char at 1. rewrite !andb_true_iff, IH. tauto.
Qed.

Lemma host_char_dot : host_char "." = true.
Proof. reflexivity. Qed.

End HostFacts.

Section ParseFacts.
Import UrlParse.

Lemma split_scheme_all q url :
  str_all q url = true → str_all q (split_scheme url).2 = true.
Proof.
  intros H. unfold split_scheme.
  pose proof (str_all_partition q ":" url H) as [_ Hafter].
  destruct (partition ":" url) as [[b f] after]. simpl in *.
  destruct b as [|c0 b]; [exact H|].
  destruct f; [|exact H].
  destruct (_ && _); simpl; [exact Hafter|exact H].
Qed.

(** what holds of the text once TAB, CR and LF are removed holds of the
    network location *)
Lemma urlsplit_netloc_from q s r :
  str_all q (str_filter (λ c, negb (unsafe_url_byte c))
                        (lstrip_by c0_control_or_space s)) = true →
  urlsplit s = Ok r → str_all q (netloc r) = true.
Proof.
  intros H. unfold urlsplit.
  pose proof (split_scheme_all q _ H) as Hs.
  destruct (split_scheme _) as [sch url]. simpl in Hs.
  destruct (startswith "//" url).
  - destruct (_ || _); [discriminate|]. destruct (_ && _); [discriminate|].
    intros [= <-]. cbn [netloc]. apply str_all_take_until.
    change (str_all q (str_drop 2 url) = true). apply str_all_drop, Hs.
  - intros [= <-]. reflexivity.
Qed.

Lemma urlsplit_netloc q s r :
  str_all q s = true → urlsplit s = Ok r → str_all q (netloc r) = true.
Proof.
  intros H. apply urlsplit_netloc_from, str_all_filter, str_all_lstrip, H.
Qed.

Lemma urlsplit_netloc_safe s r : urlsplit s = Ok r → str_all url_safe (netloc r) = true.
Proof. apply (urlsplit_netloc_from url_safe), str_filter_all. Qed.

Lemma urlsplit_netloc_delim s r : urlsplit s = Ok r → str_all no_delim (netloc r) = true.
Proof.
  unfold urlsplit. destruct (split_scheme _) as [sch url].
  destruct (startswith "//" url).
  - destruct (_ || _); [discriminate|]. destruct (_ && _); [discriminate|].
    intros [= <-]. cbn [netloc]. apply take_until_free.
  - intros [= <-]. reflexivity.
Qed.

Lemma hostinfo_host_from q nl :
  str_all q (rpartition "@" nl).2 = true → str_all q (hostinfo_host nl) = true.
Proof.
  intros Hi. unfold hostinfo_host.
  pose proof (str_all_partition q "[" _ Hi) as [_ Hb].
  pose proof (str_all_partition q ":" _ Hi) as [Hc _].
  destruct (partition "[" (rpartition "@" nl).2) as [[b f] br]. simpl in *.
  destruct f; [|exact Hc].
  apply (str_all_partition q "]" br Hb).
Qed.

Lemma hostinfo_host_all q nl :
  str_all q nl = true → str_all q (hostinfo_host nl) = true.
Proof. intros H. apply hostinfo_host_from, str_all_rpartition, H. Qed.

Lemma hostinfo_host_no_at nl : str_all no_at (hostinfo_host nl) = true.
Proof.
  apply hostinfo_host_from. apply (proj1 (has_char_false "@" _)).
  apply rpartition_free.
Qed.

Lemma hostname_no_upper r :
  str_all no_upper (netloc r) = true →
  hostname r = if String.eqb (hostinfo_host (netloc r)) "" then None
               else Some (hostinfo_host (netloc r)).
Proof.
  intros H. unfold hostname.
  destruct (String.eqb _ ""); [reflexivity|].
  pose proof (hostinfo_host_all no_upper _ H) as Hh.
  pose proof (partition_join "%" (hostinfo_host (netloc r))) as J.
  pose proof (str_all_partition no_upper "%" _ Hh) as [Hn _].
  destruct (partition "%" (hostinfo_host (netloc r))) as [[name percent] zone].
  simpl in *. rewrite (lower_id name Hn). rewrite <- J. reflexivity.
Qed.

Lemma parsed_host_chars raw h : parsed_host raw = Ok h → str_all host_char h = true.
Proof.
  unfold parsed_host. destruct (_ && _); [intros [= <-]; reflexivity|].
  set (s := if negb _ then _ else _).
  assert (Hs : str_all no_upper s = true).
  { subst s. destruct (negb _); [|apply lower_no_upper].
    rewrite str_all_app, lower_no_upper. reflexivity. }
  unfold urlparse. destruct (urlsplit s) as [r|e] eqn:E; simpl; [|discriminate].
  intros [= <-].
  rewrite (hostname_no_upper r (urlsplit_netloc no_upper s r Hs E)).
  destruct (String.eqb _ ""); [reflexivity|]. simpl.
  apply host_char_all. repeat split.
  - apply hostinfo_host_all, (urlsplit_netloc no_upper s r Hs E).
  - apply hostinfo_host_all, (urlsplit_netloc_safe s r E).
  - apply hostinfo_host_all, (urlsplit_netloc_delim s r E).
  - apply hostinfo_host_no_at.
Qed.

Lemma str_in_scheme_slash s : str_in "://" s = true → has_char "/" s = true.
Proof.
  induction s as [|a s IH]; [discriminate|].
  cbn [str_in has_char]. rewrite !orb_true_iff. intros [H|H]; [|auto].
  right. cbn [startswith] in H. rewrite andb_true_iff in H. destruct H as [_ H].
  destruct s as [|b s]; [discriminate|].
  cbn [startswith] in H. rewrite andb_true_iff in H. destruct H as [Hb _].
  apply Ascii.eqb_eq in Hb. subst b. reflexivity.
Qed.

Lemma https_prefix x :
  "https://" +:+ x
  = String "h" (String "t" (String "t" (String "p" (String "s"
      (String ":" (String "/" (String "/" x))))))).
Proof. reflexivity. Qed.

Lemma https_lstrip x :
  lstrip_by c0_control_or_space ("https://" +:+ x) = "https://" +:+ x.
Proof. reflexivity. Qed.

Lemma https_filter x :
  str_filter (λ c, negb (unsafe_url_byte c)) ("https://" +:+ x)
  = "https://" +:+ str_filter url_safe x.
Proof. reflexivity. Qed.

Lemma https_scheme x : split_scheme ("https://" +:+ x) = ("https", "//" +:+ x).
Proof. reflexivity. Qed.

Lemma slashes_start x : startswith "//" ("//" +:+ x) = true.
Proof. reflexivity. Qed.

Lemma slashes_drop x : str_drop 2 ("//" +:+ x) = x.
Proof. reflexivity. Qed.

(** [urlsplit] of ["https://"] followed by a plain host *)
Lemma urlsplit_https x :
  str_all url_safe x = true →
  str_all no_delim x = true →
  has_char "[" x = false →
  has_char "]" x = false →
  urlsplit ("https://" +:+ x) = Ok {| scheme := "https"; netloc := x; rest := "" |}.
Proof.
  intros Hsafe Hdelim Hl Hr. unfold urlsplit. cbv zeta.
  rewrite https_lstrip, https_filter, (str_filter_id _ _ Hsafe), https_scheme.
  cbv beta iota. rewrite slashes_start, slashes_drop.
  rewrite (take_until_id _ _ Hdelim), (drop_until_none _ _ Hdelim), Hl, Hr.
  reflexivity.
Qed.

Lemma hostinfo_host_plain x :
  has_char "@" x = false → has_char "[" x = false → has_char ":" x = false →
  hostinfo_host x = x.
Proof.
  intros Hat Hl Hc. unfold hostinfo_host.
  rewrite (rpartition_none _ _ Hat). cbn [snd].
  rewrite (partition_none _ _ Hl), (partition_none _ _ Hc). reflexivity.
Qed.

(** a plain host is parsed as itself *)
Lemma parsed_host_plain x :
  x ≠ "" →
  str_all host_char x = true →
  str_all unbracketed_char x = true →
  strip x = x →
  parsed_host x = Ok x.
Proof.
  intros Hne Hhost Hplain Hstrip.
  apply host_char_all in Hhost. destruct Hhost as (Hup & Hsafe & Hdelim & Hat).
  apply unbracketed_char_all in Hplain. destruct Hplain as (Hc & Hl & Hr).
  apply (proj2 (has_char_false "@" x)) in Hat.
  assert (Hslash : has_char "/" x = false).
  { apply has_char_false. revert Hdelim. apply str_all_impl.
    intros c. unfold no_delim, netloc_delim.
    destruct (Ascii.eqb_spec c "/") as [->|_]; [discriminate|reflexivity]. }
  assert (Hscheme : str_in "://" x = false).
  { destruct (str_in "://" x) eqn:E; [|reflexivity].
    apply str_in_scheme_slash in E. congruence. }
  unfold parsed_host. rewrite Hstrip, (lower_id x Hup).
  rewrite str_in_one, Hat, Hscheme. cbn [andb negb].
  unfold urlparse. rewrite (urlsplit_https x Hsafe Hdelim Hl Hr). cbn [bind].
  rewrite hostname_no_upper by exact Hup. cbn [netloc].
  rewrite (hostinfo_host_plain x Hat Hl Hc).
  destruct (String.eqb_spec x "") as [->|_]; [congruence|reflexivity].
Qed.

End ParseFacts.

(** C1, as amended. A result [x] of [normalize_domain] is normalised to
    itself whenever it does not itself begin with ["www."] or ["m."], has no
    white space at either end, and holds none of [':'], ['['] and [']']. *)
Theorem normalize_domain_idempotent_on_plain_results :
  ∀ raw x : string,
    normalize_domain raw = Ok x →
    strip_prefix x = x →
    strip x = x →
    str_all unbracketed_char x = true →
    normalize_domain x = Ok x.
Proof.
  intros raw x Hx Hprefix Hstrip Hplain.
  destruct (normalize_domain_cases raw)
    as [[E _]|[(e & E & _)|(h & _ & _ & Hh & E)]];
    rewrite E in Hx; [injection Hx as <-; reflexivity|discriminate|].
  injection Hx as Hx.
  assert (Hchars : str_all host_char x = true).
  { rewrite <- Hx. apply str_all_root_of_host; [exact host_char_dot|].
    apply str_all_strip_prefix, (parsed_host_chars raw h Hh). }
  unfold normalize_domain.
  destruct (String.eqb_spec x "") as [->|Hne]; [reflexivity|].
  rewrite (parsed_host_plain x Hne Hchars Hplain Hstrip). cbn [bind].
  destruct (String.eqb_spec x "") as [->|_]; [congruence|].
  rewrite Hprefix. rewrite <- Hx at 1. rewrite root_of_host_fixed, Hx.
  reflexivity.
Qed.

Lemma normalize_domain_idempotent_on_plain_results_witness :
  normalize_domain "example.co.uk" = Ok "example.co.uk".
Proof.
  apply (normalize_domain_idempotent_on_plain_results
           "https://www.shop.example.co.uk/basket");
    vm_compute; reflexivity.
Defined.

(** C1, as stated, fails: ["m.co.uk"] and ["www.com"] are results of
    [normalize_domain] that it does not map to themselves, and so are a host
    with white space at its end and an IPv6 literal. *)
Lemma normalize_domain_not_idempotent :
  normalize_domain "x.m.co.uk" = Ok "m.co.uk"
  ∧ normalize_domain "m.co.uk" = Ok "co.uk"
  ∧ normalize_domain "a.www.com" = Ok "www.com"
  ∧ normalize_domain "www.com" = Ok "com"
  ∧ normalize_domain "http://example.com /" = Ok "example.com "
  ∧ normalize_domain "example.com " = Ok "example.com"
  ∧ normalize_domain "http://[::1]/" = Ok "::1"
  ∧ normalize_domain "::1" = Ok "".
Proof. repeat split; vm_compute; reflexivity. Qed.


(** C7. Whenever the host, with its leading ["www."] or ["m."] removed, has
    at least three labels of which the last two form an entry of the
    multi-part suffix table, [normalize_domain] returns the last three labels
    joined by dots.  This holds for the host that [urlparse] finds in any
    input, and in particular for a plain host name given as the input; for
    instance ["sub.example.co.uk"] gives ["example.co.uk"]. *)
Theorem multipart_suffix_keeps_three_labels :
  (∀ raw h : string,
     parsed_host raw = Ok h →
     let parts := labels (strip_prefix h) in
     3 ≤ length parts →
     last_two parts ∈ MULTIPART_TLDS →
     normalize_domain raw = Ok (join "." (last_n 3 parts)))
  ∧ (∀ host : string,
       str_all host_char host = true →
       str_all unbracketed_char host = true →
       strip host = host →
       let parts := labels (strip_prefix host) in
       3 ≤ length parts →
       last_two parts ∈ MULTIPART_TLDS →
       normalize_domain host = Ok (join "." (last_n 3 parts)))
  ∧ normalize_domain "sub.example.co.uk" = Ok "example.co.uk".
Proof.
  assert (Hgen : ∀ raw h : string,
     parsed_host raw = Ok h →
     3 ≤ length (labels (strip_prefix h)) →
     last_two (labels (strip_prefix h)) ∈ MULTIPART_TLDS →
     normalize_domain raw
     = Ok (join "." (last_n 3 (labels (strip_prefix h))))).
  { intros raw h Hh H3 Hin.
    destruct (normalize_domain_cases raw)
      as [[_ [->|E]]|[(e & _ & E)|(h' & _ & _ & E & ->)]].
    - rewrite parsed_host_empty in Hh. injection Hh as <-.
      simpl in H3. lia.
    - rewrite E in Hh. injection Hh as <-. simpl in H3. lia.
    - rewrite E in Hh. discriminate.
    - rewrite E in Hh. injection Hh as ->.
      destruct (root_of_host_cases (strip_prefix h))
        as [[H _]|[(_ & _ & ->)|(_ & G & _)]]; simpl in *.
      + unfold labels in *. lia.
      + reflexivity.
      + unfold three_label_guard in G.
        rewrite bool_decide_eq_true_2 in G by exact Hin.
        destruct (Nat.leb_spec 3 (length (labels (strip_prefix h))));
          [discriminate|lia]. }
  split; [exact Hgen|]. split; [|vm_compute; reflexivity].
  intros host Hchars Hplain Hstrip parts H3 Hin. subst parts.
  apply Hgen; [|exact H3|exact Hin].
  apply parsed_host_plain; [|exact Hchars|exact Hplain|exact Hstrip].
  intros ->. simpl in H3. lia.
Qed.

Lemma multipart_suffix_keeps_three_labels_witness :
  normalize_domain "https://Shop.Example.com.au/cart?id=7"
  = Ok (join "." (last_n 3 (labels (strip_prefix "shop.example.com.au"))))
  ∧ normalize_domain "login.example.co.jp"
    = Ok (join "." (last_n 3 (labels (strip_prefix "login.example.co.jp")))).
Proof.
  split.
  - apply (proj1 multipart_suffix_keeps_three_labels).
    + vm_compute. reflexivity.
    + vm_compute. lia.
    + apply (bool_decide_unpack _). vm_compute. exact I.
  - apply (proj1 (proj2 multipart_suffix_keeps_three_labels)).
    + vm_compute. reflexivity.
    + vm_compute. reflexivity.
    + vm_compute. reflexivity.
    + vm_compute. lia.
    + apply (bool_decide_unpack _). vm_compute. exact I.
Defined.

(* ===================================================================== *)
(** * The rating client on concrete worlds                                *)
(* ===================================================================== *)

Lemma lookup_cached_record_witness :
  lookup_tosdr "github.com"
    {| cache_file :=
         Holds (JDict {[ "github.com" :=
           JDict {[ "grade" := JStr "B"; "service_id" := JInt 297;
                    "name" := JStr "GitHub" ]} ]});
       service := λ _, Fails Timeout;
       requests_sent := [];
       pauses := 0 |}
  = (Ok (JDict {[ "grade" := JStr "B"; "service_id" := JInt 297;
                  "name" := JStr "GitHub" ]}),
     {| cache_file :=
          Holds (JDict {[ "github.com" :=
            JDict {[ "grade" := JStr "B"; "service_id" := JInt 297;
                     "name" := JStr "GitHub" ]} ]});
        service := λ _, Fails Timeout;
        requests_sent := [];
        pauses := 0 |}).
Proof.
  apply (lookup_cached_record _ "github.com"
           {[ "github.com" :=
              JDict {[ "grade" := JStr "B"; "service_id" := JInt 297;
                       "name" := JStr "GitHub" ]} ]}).
  - reflexivity.
  - vm_compute. reflexivity.
Defined.



(* ===================================================================== *)
(** * Further properties of [normalize_domain]                            *)
(* ===================================================================== *)

Section MoreTextFacts.

Lemma lower_app a b : lower (a +:+ b) = lower a +:+ lower b.
Proof.
  unfold lower. induction a as [|c a IH]; [reflexivity|].
  rewrite app_cons. simpl. rewrite IH. reflexivity.
Qed.

Lemma lower_lower s : lower (lower s) = lower s.
Proof. apply lower_id, lower_no_upper. Qed.

Lemma is_space_lower_char c : is_space (lower_char c) = is_space c.
Proof. destruct c as [[] [] [] [] [] [] [] []]; vm_compute; reflexivity. Qed.

Lemma lstrip_lower s : lstrip_by is_space (lower s) = lower (lstrip_by is_space s).
Proof.
  unfold lower. induction s as [|c s IH]; [reflexivity|]. simpl.
  rewrite is_space_lower_char. destruct (is_space c); [exact IH|reflexivity].
Qed.

Lemma rstrip_lower s : rstrip_by is_space (lower s) = lower (rstrip_by is_space s).
Proof.
  unfold lower. induction s as [|c s IH]; [reflexivity|]. simpl.
  rewrite IH, is_space_lower_char.
  destruct (rstrip_by is_space s); simpl; [|reflexivity].
  destruct (is_space c); reflexivity.
Qed.

Lemma strip_lower s : strip (lower s) = lower (strip s).
Proof. unfold strip. rewrite lstrip_lower, rstrip_lower. reflexivity. Qed.

(** what remains after [lstrip] is empty or starts with a kept character *)
Lemma lstrip_by_head p s :
  lstrip_by p s = "" ∨ ∃ c t, lstrip_by p s = String c t ∧ p c = false.
Proof.
  induction s as [|c s IH]; [left; reflexivity|]. simpl.
  destruct (p c) eqn:E; [exact IH|]. right. eauto.
Qed.

Lemma lstrip_by_fixed p c t : p c = false → lstrip_by p (String c t) = String c t.
Proof. intros H. simpl. rewrite H. reflexivity. Qed.

Lemma rstrip_by_keep p c t :
  p c = false → rstrip_by p (String c t) = String c (rstrip_by p t).
Proof. intros H. simpl. rewrite H. destruct (rstrip_by p t); reflexivity. Qed.

Lemma rstrip_by_idem p s : rstrip_by p (rstrip_by p s) = rstrip_by p s.
Proof.
  induction s as [|c s IH]; [reflexivity|]. simpl.
  destruct (rstrip_by p s) as [|d r] eqn:E.
  - destruct (p c) eqn:Hc; [reflexivity|]. simpl. rewrite Hc. reflexivity.
  - simpl. simpl in IH. rewrite IH. reflexivity.
Qed.

Lemma rstrip_by_app p a b :
  rstrip_by p b ≠ "" → rstrip_by p (a +:+ b) = a +:+ rstrip_by p b.
Proof.
  intros Hb. induction a as [|c a IH]; [reflexivity|].
  rewrite !app_cons. simpl. rewrite IH.
  destruct (a +:+ rstrip_by p b) eqn:E; [|reflexivity].
  destruct a; [|discriminate]. rewrite app_empty_l in E. congruence.
Qed.

Lemma strip_idem s : strip (strip s) = strip s.
Proof.
  unfold strip.
  destruct (lstrip_by_head is_space s) as [E|(c & t & E & Hc)]; rewrite E.
  - reflexivity.
  - rewrite (rstrip_by_keep _ _ _ Hc), (lstrip_by_fixed _ _ _ Hc).
    rewrite <- (rstrip_by_keep _ _ _ Hc). apply rstrip_by_idem.
Qed.

(** a text that [strip] leaves alone is left alone by both of its halves *)
Lemma strip_fixed_parts x :
  strip x = x → lstrip_by is_space x = x ∧ rstrip_by is_space x = x.
Proof.
  unfold strip. intros H.
  destruct (lstrip_by_head is_space x) as [E|(c & t & E & Hc)].
  - rewrite E in H. simpl in H. subst x. auto.
  - rewrite E, (rstrip_by_keep _ _ _ Hc) in H.
    assert (Hl : lstrip_by is_space x = x).
    { rewrite <- H. apply lstrip_by_fixed, Hc. }
    rewrite Hl in E. split; [exact Hl|].
    rewrite E at 1. rewrite (rstrip_by_keep _ _ _ Hc). exact H.
Qed.

Lemma str_filter_app p a b : str_filter p (a +:+ b) = str_filter p a +:+ str_filter p b.
Proof.
  induction a as [|c a IH]; [reflexivity|].
  rewrite app_cons. simpl. destruct (p c); rewrite IH; reflexivity.
Qed.

Lemma take_until_app p x d t :
  str_all (λ c, negb (p c)) x = true → p d = true →
  take_until p (x +:+ String d t) = x.
Proof.
  intros Hx Hd. induction x as [|c x IH].
  - rewrite app_empty_l. simpl. rewrite Hd. reflexivity.
  - simpl in Hx. rewrite andb_true_iff, negb_true_iff in Hx.
    destruct Hx as [Hc Hx]. rewrite app_cons. simpl. rewrite Hc, (IH Hx).
    reflexivity.
Qed.

Lemma join_split c s : join (String c "") (split c s) = s.
Proof.
  induction s as [|a t IH]; [reflexivity|]. simpl.
  pose proof (split_not_nil c t) as Hne.
  destruct (Ascii.eqb_spec a c) as [->|_].
  - destruct (split c t) as [|x r]; [congruence|].
    rewrite join_cons, app_empty_l, app_cons, app_empty_l, IH. reflexivity.
  - destruct (split c t) as [|x r]; [congruence|].
    destruct r as [|y r].
    + simpl in *. rewrite IH. reflexivity.
    + rewrite join_cons in *. rewrite app_cons, IH. reflexivity.
Qed.

Lemma join_app sep l1 l2 :
  l1 ≠ [] → l2 ≠ [] →
  join sep (l1 ++ l2) = join sep l1 +:+ sep +:+ join sep l2.
Proof.
  intros H1 H2. induction l1 as [|x r IH]; [congruence|].
  destruct r as [|y r].
  - destruct l2 as [|z l2]; [congruence|]. reflexivity.
  - change ((x :: y :: r) ++ l2) with (x :: y :: (r ++ l2)).
    rewrite !join_cons. change (y :: r ++ l2) with ((y :: r) ++ l2).
    rewrite IH by discriminate. rewrite !str_app_assoc. reflexivity.
Qed.

(** [parts[-n:]] joined is a suffix of all the parts joined *)
Lemma join_take_drop sep k (parts : list string) :
  ∃ p, join sep parts = p +:+ join sep (drop k parts).
Proof.
  pose proof (take_drop k parts) as E.
  destruct (take k parts) as [|x r] eqn:Et.
  - exists "". simpl in E. rewrite E. reflexivity.
  - destruct (drop k parts) as [|y q] eqn:Ed.
    + exists (join sep parts). rewrite app_empty_r. reflexivity.
    + exists (join sep (x :: r) +:+ sep). rewrite <- E.
      rewrite join_app by discriminate. rewrite str_app_assoc. reflexivity.
Qed.

(** [parts[-n:]] joined is a suffix of all the parts joined *)
Lemma join_last_n_suffix sep n parts :
  ∃ p, join sep parts = p +:+ join sep (last_n n parts).
Proof. apply join_take_drop. Qed.

Lemma root_of_host_suffix host : ∃ p, host = p +:+ root_of_host host.
Proof.
  destruct (root_of_host_cases host) as [[_ E]|[(_ & _ & E)|(_ & _ & E)]];
    simpl in *; rewrite E.
  - exists "". reflexivity.
  - destruct (join_last_n_suffix "." 3 (labels host)) as [p Hp].
    exists p. rewrite <- Hp. unfold labels. symmetry. apply join_split.
  - destruct (join_last_n_suffix "." 2 (labels host)) as [p Hp].
    exists p. rewrite <- Hp. unfold labels. symmetry. apply join_split.
Qed.

Lemma str_drop_suffix n s : ∃ p, s = p +:+ str_drop n s.
Proof.
  revert s. induction n as [|n IH]; intros s; [exists ""; reflexivity|].
  destruct s as [|c s]; [exists ""; reflexivity|].
  destruct (IH s) as [p Hp]. exists (String c p). simpl.
  rewrite app_cons, <- Hp. reflexivity.
Qed.

Lemma strip_prefix_suffix host : ∃ p, host = p +:+ strip_prefix host.
Proof.
  unfold strip_prefix.
  destruct (startswith "www." host); [apply str_drop_suffix|].
  destruct (startswith "m." host); [apply str_drop_suffix|].
  exists "". reflexivity.
Qed.

Lemma netloc_delim_cases d :
  UrlParse.netloc_delim d = true → d = "/"%char ∨ d = "?"%char ∨ d = "#"%char.
Proof.
  destruct d as [[] [] [] [] [] [] [] []]; vm_compute; intros H;
    try discriminate; auto.
Qed.

End MoreTextFacts.

Section MoreParseFacts.
Import UrlParse.

Lemma netloc_delim_plain d :
  netloc_delim d = true →
  is_space d = false ∧ lower_char d = d ∧ url_safe d = true.
Proof.
  intros H. destruct (netloc_delim_cases d H) as [-> | [-> | ->] ];
    repeat split; reflexivity.
Qed.

(** [urlsplit] of ["https://"], a plain host and anything after a delimiter *)
Lemma urlsplit_https_tail x d t :
  str_all url_safe x = true →
  str_all no_delim x = true →
  has_char "[" x = false →
  has_char "]" x = false →
  netloc_delim d = true →
  ∃ r, urlsplit ("https://" +:+ x +:+ String d t) = Ok r ∧ netloc r = x.
Proof.
  intros Hsafe Hdelim Hl Hr Hd.
  destruct (netloc_delim_plain d Hd) as (_ & _ & Hds).
  unfold urlsplit. cbv zeta.
  rewrite https_lstrip, https_filter, str_filter_app, (str_filter_id _ _ Hsafe).
  cbn [str_filter]. rewrite Hds. rewrite https_scheme.
  cbv beta iota. rewrite slashes_start, slashes_drop.
  rewrite (take_until_app _ _ _ _ Hdelim Hd), Hl, Hr.
  cbn [andb orb negb]. eexists. split; reflexivity.
Qed.

Lemma strip_https_tail x d t :
  is_space d = false →
  strip ("https://" +:+ x +:+ String d t)
  = "https://" +:+ x +:+ String d (rstrip_by is_space t).
Proof.
  intros Hd. unfold strip.
  change (lstrip_by is_space ("https://" +:+ x +:+ String d t))
    with ("https://" +:+ x +:+ String d t).
  assert (H1 : rstrip_by is_space (String d t) = String d (rstrip_by is_space t))
    by (apply rstrip_by_keep, Hd).
  assert (H2 : rstrip_by is_space (x +:+ String d t)
               = x +:+ String d (rstrip_by is_space t)).
  { rewrite rstrip_by_app; rewrite H1; [reflexivity|discriminate]. }
  rewrite rstrip_by_app; rewrite H2; [reflexivity|].
  destruct x; discriminate.
Qed.

Lemma parsed_host_https_tail x d t :
  x ≠ "" →
  str_all host_char x = true →
  str_all unbracketed_char x = true →
  netloc_delim d = true →
  parsed_host ("https://" +:+ x +:+ String d t) = Ok x.
Proof.
  intros Hne Hhost Hplain Hd.
  apply host_char_all in Hhost. destruct Hhost as (Hup & Hsafe & Hdelim & Hat).
  apply unbracketed_char_all in Hplain. destruct Hplain as (Hc & Hl & Hr).
  apply (proj2 (has_char_false "@" x)) in Hat.
  destruct (netloc_delim_plain d Hd) as (Hsp & Hlow & _).
  unfold parsed_host. rewrite (strip_https_tail x d t Hsp).
  rewrite !lower_app, (lower_id x Hup).
  change (lower "https://") with "https://".
  change (lower (String d (rstrip_by is_space t)))
    with (String (lower_char d) (lower (rstrip_by is_space t))).
  rewrite Hlow.
  set (t' := lower (rstrip_by is_space t)).
  assert (Hs : str_in "://" ("https://" +:+ x +:+ String d t') = true)
    by (apply str_in_app_l; reflexivity).
  rewrite Hs, andb_false_r. cbn [negb].
  unfold urlparse.
  destruct (urlsplit_https_tail x d t' Hsafe Hdelim Hl Hr Hd) as (r & -> & Hn).
  cbn [bind]. rewrite hostname_no_upper by (rewrite Hn; exact Hup).
  rewrite Hn, (hostinfo_host_plain x Hat Hl Hc).
  destruct (String.eqb_spec x "") as [->|_]; [congruence|reflexivity].
Qed.

Lemma strip_with_prefix pre x :
  lstrip_by is_space (pre +:+ x) = pre +:+ x →
  x ≠ "" → strip x = x → strip (pre +:+ x) = pre +:+ x.
Proof.
  intros Hpre Hne Hx. unfold strip. rewrite Hpre.
  destruct (strip_fixed_parts x Hx) as [_ Hr].
  rewrite rstrip_by_app; rewrite Hr; [reflexivity|exact Hne].
Qed.

End MoreParseFacts.

(** X1. Whatever the input, a result of [normalize_domain] holds no
    upper-case letter, none of TAB, CR and LF, none of the delimiters
    ['/'], ['?'] and ['#'], and no ['@']. *)
Theorem normalize_domain_result_chars :
  ∀ raw x : string, normalize_domain raw = Ok x → str_all host_char x = true.
Proof.
  intros raw x Hx.
  destruct (normalize_domain_cases raw)
    as [[E _]|[(e & E & _)|(h & _ & _ & Hh & E)]];
    rewrite E in Hx; [injection Hx as <-; reflexivity|discriminate|].
  injection Hx as <-.
  apply str_all_root_of_host; [exact host_char_dot|].
  apply str_all_strip_prefix, (parsed_host_chars raw h Hh).
Qed.

Lemma normalize_domain_result_chars_witness :
  str_all host_char "example.co.uk" = true.
Proof.
  apply (normalize_domain_result_chars
           " HTTPS://User@WWW.Shop.Example.CO.UK:8443/Cart?x=1#top ").
  vm_compute. reflexivity.
Defined.

(** X2. [normalize_domain] does not depend on the case of its input. *)
Theorem normalize_domain_ignores_case :
  ∀ raw : string, normalize_domain (lower raw) = normalize_domain raw.
Proof.
  intros raw. unfold normalize_domain.
  assert (He : String.eqb (lower raw) "" = String.eqb raw "")
    by (destruct raw; reflexivity).
  rewrite He.
  assert (Hp : parsed_host (lower raw) = parsed_host raw).
  { unfold parsed_host. rewrite strip_lower, lower_lower. reflexivity. }
  rewrite Hp. reflexivity.
Qed.

(** X3. [normalize_domain] does not depend on white space around its
    input; in particular text made of white space only gives the empty
    string. *)
Theorem normalize_domain_ignores_outer_space :
  ∀ raw : string, normalize_domain (strip raw) = normalize_domain raw.
Proof.
  intros raw. unfold normalize_domain.
  assert (Hp : parsed_host (strip raw) = parsed_host raw).
  { unfold parsed_host. rewrite strip_idem. reflexivity. }
  destruct (String.eqb_spec (strip raw) "") as [E|E];
    destruct (String.eqb_spec raw "") as [E'|E'].
  - reflexivity.
  - unfold parsed_host. rewrite E. reflexivity.
  - subst raw. exfalso. apply E. reflexivity.
  - rewrite Hp. reflexivity.
Qed.

(** X4. Path, query and fragment are ignored: a plain host followed by
    anything that starts with ['/'], ['?'] or ['#'], behind ["https://"], is
    normalised like the host alone. *)
Theorem normalize_domain_ignores_path :
  ∀ (x : string) (d : ascii) (t : string),
    x ≠ "" →
    str_all host_char x = true →
    str_all unbracketed_char x = true →
    strip x = x →
    UrlParse.netloc_delim d = true →
    normalize_domain ("https://" +:+ x +:+ String d t) = normalize_domain x.
Proof.
  intros x d t Hne Hhost Hplain Hstrip Hd.
  unfold normalize_domain.
  rewrite (parsed_host_https_tail x d t Hne Hhost Hplain Hd).
  rewrite (parsed_host_plain x Hne Hhost Hplain Hstrip).
  destruct (String.eqb_spec x "") as [->|_]; [congruence|].
  reflexivity.
Qed.

Lemma normalize_domain_ignores_path_witness :
  normalize_domain ("https://" +:+ "shop.example.com" +:+ String "/" "Cart?item=7 ")
  = normalize_domain "shop.example.com".
Proof.
  apply normalize_domain_ignores_path;
    [discriminate|reflexivity|reflexivity|reflexivity|reflexivity].
Defined.

(** X5. One leading ["www."] or ["m."] is removed before the labels are
    cut: a plain host [x] behind either prefix gives the root of [x]. *)
Theorem normalize_domain_drops_one_prefix :
  ∀ x : string,
    x ≠ "" →
    str_all host_char x = true →
    str_all unbracketed_char x = true →
    strip x = x →
    normalize_domain ("www." +:+ x) = Ok (root_of_host x)
    ∧ normalize_domain ("m." +:+ x) = Ok (root_of_host x).
Proof.
  intros x Hne Hhost Hplain Hstrip.
  assert (Hgen : ∀ pre,
            pre ≠ "" →
            str_all host_char pre = true →
            str_all unbracketed_char pre = true →
            lstrip_by is_space (pre +:+ x) = pre +:+ x →
            strip_prefix (pre +:+ x) = x →
            normalize_domain (pre +:+ x) = Ok (root_of_host x)).
  { intros pre Hpre H1 H2 H3 H4. unfold normalize_domain.
    assert (Hn : pre +:+ x ≠ "") by (destruct pre; [congruence|discriminate]).
    rewrite (parsed_host_plain (pre +:+ x) Hn).
    - cbn [bind].
      destruct (String.eqb_spec (pre +:+ x) "") as [E|_]; [congruence|].
      rewrite H4. reflexivity.
    - rewrite str_all_app, H1, Hhost. reflexivity.
    - rewrite str_all_app, H2, Hplain. reflexivity.
    - apply strip_with_prefix; assumption. }
  split; apply Hgen; try reflexivity; discriminate.
Qed.

Lemma normalize_domain_drops_one_prefix_witness :
  normalize_domain ("www." +:+ "m.example.org") = Ok (root_of_host "m.example.org")
  ∧ normalize_domain ("m." +:+ "m.example.org") = Ok (root_of_host "m.example.org").
Proof.
  apply normalize_domain_drops_one_prefix;
    [discriminate|reflexivity|reflexivity|reflexivity].
Defined.

(** X6. Cutting the labels is idempotent: the root of a root is the root. *)
Theorem root_of_host_idempotent :
  ∀ host : string, root_of_host (root_of_host host) = root_of_host host.
Proof. exact root_of_host_fixed. Qed.

(** X7. A result of [normalize_domain] is a suffix of the host that
    [urlparse] finds in the input: nothing is added or rewritten, labels are
    only dropped from the left. *)
Theorem normalize_domain_result_suffix :
  ∀ raw x : string,
    normalize_domain raw = Ok x →
    ∃ h p, parsed_host raw = Ok h ∧ h = p +:+ x.
Proof.
  intros raw x Hx.
  destruct (normalize_domain_cases raw)
    as [ [E [-> | Hh] ] | [ (e & E & _) | (h & _ & _ & Hh & E) ] ];
    rewrite E in Hx; try discriminate; injection Hx as <-.
  - exists "", "". split; [exact parsed_host_empty|reflexivity].
  - exists "", "". split; [exact Hh|reflexivity].
  - destruct (strip_prefix_suffix h) as [p1 H1].
    destruct (root_of_host_suffix (strip_prefix h)) as [p2 H2].
    exists h, (p1 +:+ p2). split; [exact Hh|].
    rewrite str_app_assoc, <- H2. exact H1.
Qed.

Lemma normalize_domain_result_suffix_witness :
  ∃ h p, parsed_host "https://www.login.example.co.uk/x" = Ok h
         ∧ h = p +:+ "example.co.uk".
Proof.
  apply normalize_domain_result_suffix. vm_compute. reflexivity.
Defined.

(* ===================================================================== *)
(** * Further properties of [extract_domains]                             *)
(* ===================================================================== *)

Section MoreVaultFacts.

Lemma normalize_domain_value_form raw dom :
  normalize_domain_value raw = Ok dom → dom = "" ∨ normal_form dom.
Proof.
  unfold normalize_domain_value.
  destruct (truthy raw); simpl; [|intros [= <-]; auto].
  destruct raw; try discriminate. intros H. right. exists s. exact H.
Qed.

Lemma record_domain_inv st dom :
  loop_inv st → dom = "" ∨ normal_form dom → loop_inv (record_domain st dom).
Proof.
  intros (Hin & Hnd & Hne & Hnf) Hdom.
  destruct (record_domain_step st dom Hin) as [Hin' Heq].
  split; [exact Hin'|]. rewrite Heq. unfold keep_fresh.
  destruct (String.eqb_spec dom "") as [->|Hd]; simpl; [auto|].
  destruct (decide (dom ∈ st.2)) as [Hmem|Hmem].
  - rewrite bool_decide_eq_false_2 by tauto. auto.
  - rewrite bool_decide_eq_true_2 by exact Hmem.
    destruct Hdom as [->|Hform]; [congruence|].
    repeat split.
    + apply NoDup_app. repeat split; [exact Hnd| |apply NoDup_singleton].
      intros x Hx Hx'. apply list_elem_of_singleton in Hx'. congruence.
    + rewrite not_elem_of_app, list_elem_of_singleton. split; [exact Hne|congruence].
    + apply Forall_app. split; [exact Hnf|]. constructor; [exact Hform|constructor].
Qed.

Lemma scan_uris_inv us st st' :
  loop_inv st → scan_uris us st = Ok st' → loop_inv st'.
Proof.
  revert st. induction us as [|u r IH]; intros st Hst; simpl.
  - intros [= <-]. exact Hst.
  - destruct (raw_of_entry u) as [raw|e]; simpl; [|discriminate].
    destruct (normalize_domain_value raw) as [dom|e] eqn:E; simpl; [|discriminate].
    apply IH, record_domain_inv; [exact Hst|].
    apply (normalize_domain_value_form raw dom E).
Qed.

Lemma scan_items_inv its st st' :
  loop_inv st → scan_items its st = Ok st' → loop_inv st'.
Proof.
  revert st. induction its as [|it r IH]; intros st Hst; simpl.
  - intros [= <-]. exact Hst.
  - destruct (uris_of_item it) as [uris|e]; simpl; [|discriminate].
    destruct (py_iter uris) as [us|e]; simpl; [|discriminate].
    destruct (scan_uris us st) as [st1|e] eqn:E; simpl; [|discriminate].
    apply IH, (scan_uris_inv us st st1 Hst E).
Qed.

Lemma loop_inv_start : loop_inv (∅, []).
Proof.
  split; [intros x; simpl; rewrite elem_of_nil; set_solver|].
  split; [constructor|]. split; [apply not_elem_of_nil|constructor].
Qed.

Lemma collect_fmap {A B C} (g : A → B) (f : B → result C) l :
  collect f (g <$> l) = collect (λ x, f (g x)) l.
Proof.
  induction l as [|x r IH]; [reflexivity|].
  rewrite fmap_cons. cbn [collect]. rewrite IH. reflexivity.
Qed.

Lemma collect_ext {A B} (f g : A → result B) l :
  (∀ x, f x = g x) → collect f l = collect g l.
Proof.
  intros H. induction l as [|x r IH]; [reflexivity|]. simpl.
  rewrite H, IH. reflexivity.
Qed.

Lemma collect_total {A B} (f : A → B) l : collect (λ x, Ok (f x)) l = Ok (f <$> l).
Proof.
  induction l as [|x r IH]; [reflexivity|]. simpl. rewrite IH. reflexivity.
Qed.

Lemma normalize_domain_value_text s :
  normalize_domain_value (JStr s) = normalize_domain s.
Proof.
  unfold normalize_domain_value. simpl.
  destruct (String.eqb_spec s "") as [->|_]; reflexivity.
Qed.

Lemma truthy_singleton k (v : json) : truthy (JDict {[ k := v ]}) = true.
Proof.
  simpl. rewrite bool_decide_eq_false_2; [reflexivity|].
  apply map_non_empty_singleton.
Qed.

Lemma raw_of_uri_entry raw : raw_of_entry (uri_entry raw) = Ok (JStr raw).
Proof.
  unfold raw_of_entry, uri_entry, py_or. rewrite truthy_singleton.
  simpl. rewrite lookup_singleton_eq. reflexivity.
Qed.

Lemma raws_of_login_item raws : raws_of_item (login_item raws) = Ok (JStr <$> raws).
Proof.
  unfold raws_of_item, uris_of_item, login_item, py_or. simpl.
  rewrite lookup_singleton_eq. simpl.
  rewrite bool_decide_eq_false_2 by apply map_non_empty_singleton. simpl.
  rewrite lookup_singleton_eq. simpl.
  assert (E : (if match uri_entry <$> raws with [] => false | _ => true end
               then JList (uri_entry <$> raws) else JList [])
              = JList (uri_entry <$> raws)).
  { destruct raws; reflexivity. }
  rewrite E. simpl. rewrite collect_fmap.
  rewrite (collect_ext _ (λ x, Ok (JStr x))) by exact raw_of_uri_entry.
  apply collect_total.
Qed.

Lemma concat_fmap_each {A B} (g : A → B) (l : list (list A)) :
  concat (fmap (M:=list) g <$> l) = g <$> concat l.
Proof.
  induction l as [|x r IH]; [reflexivity|].
  rewrite fmap_cons. cbn [concat]. rewrite fmap_app, IH. reflexivity.
Qed.

Lemma raw_values_export items :
  raw_values (export_of items) = Ok (JStr <$> concat items).
Proof.
  unfold raw_values, export_of. simpl. rewrite lookup_singleton_eq. simpl.
  rewrite collect_fmap.
  rewrite (collect_ext _ (λ raws, Ok (JStr <$> raws))) by exact raws_of_login_item.
  rewrite collect_total. cbn [bind]. rewrite concat_fmap_each. reflexivity.
Qed.

End MoreVaultFacts.

(** X8. Whatever the export holds, a list returned by [extract_domains] has
    no duplicates, does not hold the empty string, and each of its elements
    is the result of [normalize_domain] on some text. *)
Theorem extract_domains_output_invariant :
  ∀ (data : json) (out : list string),
    extract_domains (Holds data) = Ok out →
    NoDup out ∧ ("" ∉ out) ∧ Forall normal_form out.
Proof.
  intros data out. simpl. unfold extract_domains_data.
  destruct (py_get data "items" (JList [])) as [items|e]; simpl; [|discriminate].
  destruct (py_iter items) as [its|e]; simpl; [|discriminate].
  destruct (scan_items its (∅, [])) as [st|e] eqn:E; simpl; [|discriminate].
  intros [= <-].
  destruct (scan_items_inv its (∅, []) st loop_inv_start E) as (_ & H1 & H2 & H3).
  auto.
Qed.

Lemma extract_domains_output_invariant_witness :
  NoDup ["example.com"; "test.org"] ∧ ("" ∉ ["example.com"; "test.org"])
  ∧ Forall normal_form ["example.com"; "test.org"].
Proof.
  apply (extract_domains_output_invariant
           (export_of [["https://example.com"; ""; "https://www.example.com/a"];
                       ["user@example.com"; "m.test.org"]])).
  vm_compute. reflexivity.
Defined.

(** X9. For an export of the shape that Bitwarden writes, whose URI texts
    all normalise without an exception, [extract_domains] returns, and a
    domain is in the output exactly when it is the non-empty normal form of
    one of the URIs. *)
Theorem extract_domains_of_export :
  ∀ (items : list (list string)) (doms : list string),
    collect normalize_domain (concat items) = Ok doms →
    ∃ out, extract_domains (Holds (export_of items)) = Ok out
           ∧ ∀ d, d ∈ out ↔ d ∈ doms ∧ d ≠ "".
Proof.
  intros items doms Hdoms.
  exists (first_occurrences (filter (λ d, d ≠ "") doms)). split.
  - simpl. unfold extract_domains_data.
    pose proof (raw_values_export items) as Hraw. unfold raw_values in Hraw.
    destruct (py_get (export_of items) "items" (JList [])) as [its0|e];
      simpl in *; [|discriminate].
    destruct (py_iter its0) as [its|e]; simpl in *; [|discriminate].
    destruct (collect raws_of_item its) as [rss|e] eqn:Hrss; simpl in *;
      [|discriminate].
    injection Hraw as Hraw.
    assert (Hd : collect normalize_domain_value (concat rss) = Ok doms).
    { rewrite Hraw, collect_fmap.
      rewrite (collect_ext _ normalize_domain) by exact normalize_domain_value_text.
      exact Hdoms. }
    rewrite (scan_items_collect its rss doms (∅, []) Hrss Hd). simpl.
    rewrite record_domain_fold by apply loop_inv_start.
    simpl. rewrite keep_fresh_all. reflexivity.
  - intros d. rewrite elem_of_first_occurrences, list_elem_of_filter. tauto.
Qed.

Lemma extract_domains_of_export_witness :
  ∃ out, extract_domains
           (Holds (export_of [["https://example.com"; "https://test.org"]])) = Ok out
         ∧ ∀ d, d ∈ out ↔ d ∈ ["example.com"; "test.org"] ∧ d ≠ "".
Proof.
  apply extract_domains_of_export. vm_compute. reflexivity.
Defined.

(** X10. The key ["items"]: when it is missing or holds an empty list the
    result is the empty list; when it holds [null] the loop raises
    [TypeError]; and an export that is not an object raises
    [AttributeError]. *)
Theorem extract_domains_items_key :
  (∀ m : gmap string json,
     m !! "items" = None ∨ m !! "items" = Some (JList []) →
     extract_domains (Holds (JDict m)) = Ok [])
  ∧ (∀ m : gmap string json,
       m !! "items" = Some JNull →
       extract_domains (Holds (JDict m)) = Raise TypeError)
  ∧ (∀ data : json,
       is_dict data = false →
       extract_domains (Holds data) = Raise AttributeError).
Proof.
  repeat split.
  - intros m [H|H]; simpl; unfold extract_domains_data; simpl; rewrite H;
      reflexivity.
  - intros m H. simpl. unfold extract_domains_data. simpl. rewrite H. reflexivity.
  - intros data H. destruct data; try discriminate; reflexivity.
Qed.

Lemma extract_domains_items_key_witness :
  extract_domains (Holds (JDict {[ "folders" := JList [] ]})) = Ok []
  ∧ extract_domains (Holds (JDict {[ "items" := JNull ]})) = Raise TypeError
  ∧ extract_domains (Holds (JList [])) = Raise AttributeError.
Proof.
  destruct extract_domains_items_key as (H1 & H2 & H3).
  split; [|split].
  - apply H1. left. vm_compute. reflexivity.
  - apply H2. vm_compute. reflexivity.
  - apply H3. reflexivity.
Defined.

(* ===================================================================== *)
(** * Further properties of the rating client                             *)
(* ===================================================================== *)

Section MoreApiClientFacts.

Lemma fetch_state domain w : (fetch domain w).2 = after_request w domain.
Proof.
  unfold fetch, bindM, requests_get.
  destruct (service w domain) as [k|ok body]; [reflexivity|].
  destruct ok; [|reflexivity]. cbn [fst snd].
  destruct body as [j|]; [|reflexivity]. cbn [resp_json ret lift].
  destruct (_best_match j domain) as [sv|e]; [|reflexivity].
  destruct (truthy sv); reflexivity.
Qed.

Lemma try_fetch_state domain w :
  (try_except (fetch domain) is_request_exception (ret (unknown_record domain)) w).2
  = after_request w domain.
Proof.
  unfold try_except. pose proof (fetch_state domain w) as H.
  destruct (fetch domain w) as [[out|e] w1]; simpl in *; [exact H|].
  destruct (is_request_exception e); exact H.
Qed.

(** what the [try] block leaves in [out] *)
Lemma try_fetch_result domain w out w1 :
  try_except (fetch domain) is_request_exception (ret (unknown_record domain)) w
  = (Ok out, w1) →
  out = unknown_record domain ∨ ∃ sv, record_of_service sv domain = Ok out.
Proof.
  unfold try_except, fetch, bindM, requests_get.
  destruct (service w domain) as [k|ok body]; simpl.
  - intros [= <- _]. auto.
  - destruct ok; simpl; [|intros [= <- _]; auto].
    destruct body as [j|]; simpl; [|intros [= <- _]; auto].
    unfold lift. destruct (_best_match j domain) as [sv|e]; simpl.
    + destruct (truthy sv); simpl; [|intros [= <- _]; auto].
      destruct (record_of_service sv domain) as [o|e] eqn:E; simpl.
      * intros [= <- _]. eauto.
      * destruct (is_request_exception e); simpl; [intros [= <- _]; auto|discriminate].
    + destruct (is_request_exception e); simpl; [intros [= <- _]; auto|discriminate].
Qed.

(** the three ways in which a lookup ends when the cache is a dictionary *)
Lemma lookup_outcome domain w m r w' :
  cache_is w m →
  lookup_tosdr domain w = (r, w') →
  (∃ record, m !! domain = Some record ∧ r = Ok record ∧ w' = w)
  ∨ (m !! domain = None ∧
     ∃ out, r = Ok out ∧ w' = after_miss w m domain out
            ∧ (out = unknown_record domain
               ∨ ∃ sv, record_of_service sv domain = Ok out))
  ∨ (m !! domain = None ∧ ∃ e, r = Raise e ∧ w' = after_request w domain).
Proof.
  intros Hc. rewrite (lookup_unfold domain w m Hc).
  destruct (m !! domain) as [record|] eqn:Hm.
  - rewrite bool_decide_eq_true_2 by eauto. simpl. rewrite Hm.
    intros [= <- <-]. left. eauto.
  - rewrite bool_decide_eq_false_2 by (intros [? ?]; discriminate).
    pose proof (try_fetch_state domain w) as Hs.
    pose proof (try_fetch_result domain w) as Hr.
    destruct (try_except _ _ _ w) as [[out|e] w1]; simpl in Hs; subst w1.
    + intros [= <- <-]. right; left. split; [reflexivity|].
      exists out. repeat split. apply (Hr out _ eq_refl).
    + intros [= <- <-]. right; right. eauto.
Qed.

Lemma cache_is_after_miss w m domain out :
  cache_is (after_miss w m domain out) (<[domain := out]> m).
Proof. reflexivity. Qed.

Lemma cache_is_after_request w m domain :
  cache_is w m → cache_is (after_request w domain) m.
Proof. intros H. exact H. Qed.

(** a lookup in a world whose cache holds the domain *)
Lemma lookup_hit domain w m record :
  cache_is w m → m !! domain = Some record →
  lookup_tosdr domain w = (Ok record, w).
Proof.
  intros Hc Hm. rewrite (lookup_unfold domain w m Hc).
  rewrite bool_decide_eq_true_2 by eauto. simpl. rewrite Hm. reflexivity.
Qed.

(** the cache after a lookup: it extends the cache before, by at most the
    domain looked up, and holds the record returned *)
Lemma lookup_cache domain w m r w' :
  cache_is w m →
  lookup_tosdr domain w = (r, w') →
  ∃ m', cache_is w' m' ∧ m ⊆ m' ∧ dom m' ⊆ dom m ∪ {[domain]}
        ∧ ∀ out, r = Ok out → m' !! domain = Some out.
Proof.
  intros Hc Hl.
  destruct (lookup_outcome domain w m r w' Hc Hl)
    as [(record & Hm & -> & ->)|[(Hm & out & -> & -> & _)|(Hm & e & -> & ->)]].
  - exists m. split; [exact Hc|]. split; [reflexivity|].
    split; [apply union_subseteq_l|]. intros out [= <-]. exact Hm.
  - exists (<[domain := out]> m). split; [reflexivity|].
    split; [apply insert_subseteq, Hm|].
    split; [rewrite dom_insert_L;
            apply union_least; [apply union_subseteq_r|apply union_subseteq_l]|].
    intros out' [= <-]. apply lookup_insert_eq.
  - exists m. split; [exact Hc|]. split; [reflexivity|].
    split; [apply union_subseteq_l|]. intros out. discriminate.
Qed.

Lemma coerce_grade_rating grade :
  ∃ g, coerce_grade grade = JStr g ∧ g ∈ rating_grades.
Proof.
  unfold coerce_grade.
  destruct (existsb _ _) eqn:E.
  - apply existsb_exists in E. destruct E as (g & Hin & Hg).
    destruct grade; try discriminate. simpl in Hg.
    apply String.eqb_eq in Hg. subst s. exists g. split; [reflexivity|].
    apply list_elem_of_In. simpl in Hin. unfold rating_grades. simpl. tauto.
  - exists "Unknown". split; [reflexivity|].
    unfold rating_grades. set_solver.
Qed.

Lemma record_of_service_built sv domain out :
  record_of_service sv domain = Ok out → built_record out.
Proof.
  unfold record_of_service.
  destruct (py_get sv "name" (JStr domain)) as [name|e]; simpl; [|discriminate].
  destruct (py_get sv "rating" (JDict ∅)) as [rating|e]; simpl; [|discriminate].
  match goal with
  | |- bind ?G _ = _ → _ => destruct G as [grade|e]; simpl; [|discriminate]
  end.
  destruct (py_get sv "id" JNull) as [sid|e]; simpl; [|discriminate].
  destruct (coerce_grade_rating grade) as (g & Hg & Hin).
  destruct (truthy sid) eqn:Ht; simpl.
  - destruct (py_int sid) as [z|e]; simpl; [|discriminate].
    intros [= <-]. exists g, (JInt z), name. rewrite Hg. eauto.
  - intros [= <-]. exists g, sid, name. rewrite Hg. auto.
Qed.

Lemma unknown_record_built domain : built_record (unknown_record domain).
Proof.
  exists "Unknown", JNull, (JStr domain). repeat split.
  - unfold rating_grades. set_solver.
  - left. reflexivity.
Qed.

Lemma first_listing_passed domain sv rest :
  passed_over domain sv →
  first_listing domain (sv :: rest) = first_listing domain rest.
Proof.
  intros [Hd|(urls & us & H1 & H2 & H3)]; cbn [first_listing].
  - rewrite Hd. reflexivity.
  - destruct (is_dict sv); [|reflexivity].
    rewrite H1. cbn [bind]. rewrite H2. cbn [bind]. rewrite H3. reflexivity.
Qed.

Lemma first_listing_none domain svs :
  Forall (passed_over domain) svs → first_listing domain svs = Ok JNull.
Proof.
  induction 1 as [|sv r Hsv _ IH]; [reflexivity|].
  rewrite (first_listing_passed domain sv r Hsv). exact IH.
Qed.

Lemma first_listing_first domain pre sv post :
  Forall (passed_over domain) pre →
  lists_domain domain sv →
  first_listing domain (pre ++ sv :: post) = Ok sv.
Proof.
  intros Hpre (Hd & urls & us & H1 & H2 & H3).
  induction Hpre as [|x r Hx _ IH].
  - cbn [app first_listing]. rewrite Hd, H1. cbn [bind]. rewrite H2. cbn [bind].
    rewrite H3. reflexivity.
  - cbn [app]. rewrite (first_listing_passed domain x _ Hx). exact IH.
Qed.

Lemma first_listing_cases domain svs found :
  first_listing domain svs = Ok found →
  (found = JNull ∧ Forall (passed_over domain) svs)
  ∨ (∃ pre post, svs = pre ++ found :: post
                 ∧ Forall (passed_over domain) pre
                 ∧ lists_domain domain found).
Proof.
  induction svs as [|x r IH]; cbn [first_listing].
  - intros [= <-]. left. split; [reflexivity|constructor].
  - destruct (is_dict x) eqn:Hd.
    + destruct (py_get x "urls" (JList [])) as [urls|e] eqn:E1; cbn [bind];
        [|discriminate].
      destruct (py_iter urls) as [us|e] eqn:E2; cbn [bind]; [|discriminate].
      destruct (any_contains domain us) as [hit|e] eqn:E3; cbn [bind];
        [|discriminate].
      destruct hit.
      * intros [= <-]. right. exists [], r. split; [reflexivity|].
        split; [constructor|]. split; [exact Hd|]. eauto.
      * assert (Hx : passed_over domain x) by (right; eauto).
        intros H. destruct (IH H) as [[-> Hall]|(pre & post & -> & Hpre & Hl)].
        -- left. split; [reflexivity|]. constructor; assumption.
        -- right. exists (x :: pre), post. split; [reflexivity|].
           split; [constructor; assumption|exact Hl].
    + assert (Hx : passed_over domain x) by (left; exact Hd).
      intros H. destruct (IH H) as [[-> Hall]|(pre & post & -> & Hpre & Hl)].
      * left. split; [reflexivity|]. constructor; assumption.
      * right. exists (x :: pre), post. split; [reflexivity|].
        split; [constructor; assumption|exact Hl].
Qed.

(** [_best_match] on an answer that lists its services *)
Lemma best_match_listed (sj pm : gmap string json) svs domain :
  sj !! "parameters" = Some (JDict pm) →
  pm !! "services" = Some (JList svs) →
  _best_match (JDict sj) domain
  = match svs with
    | [] => Ok JNull
    | _ :: _ =>
        found <~ first_listing domain svs ;;
        match found with
        | JNull => py_getitem0 (JList svs)
        | sv => Ok sv
        end
    end.
Proof.
  intros Hsj Hpm. unfold _best_match.
  assert (Hne : sj ≠ ∅) by (intros ->; rewrite lookup_empty in Hsj; discriminate).
  cbn [truthy]. rewrite bool_decide_eq_false_2 by exact Hne. cbn [negb].
  cbn [py_in bind]. rewrite bool_decide_eq_true_2 by (rewrite Hsj; eauto).
  cbn [negb py_getitem]. rewrite Hsj. cbn [bind py_get]. rewrite Hpm.
  cbn [default from_option id bind].
  destruct svs as [|first rest]; cbn [truthy negb]; reflexivity.
Qed.

End MoreApiClientFacts.

(** X11. Repeating a lookup: after a call that returned a record, a second
    call for the same domain returns the same record and changes nothing
    (no request, no pause), also when the record is the [Unknown] one. *)
Theorem lookup_twice :
  ∀ (w w' : world) (domain : string) (m : gmap string json) (out : json),
    cache_is w m →
    lookup_tosdr domain w = (Ok out, w') →
    lookup_tosdr domain w' = (Ok out, w').
Proof.
  intros w w' domain m out Hc Hl.
  destruct (lookup_cache domain w m (Ok out) w' Hc Hl) as (m' & Hc' & _ & _ & Hm).
  apply (lookup_hit domain w' m' out Hc'), Hm. reflexivity.
Qed.

Lemma lookup_twice_witness :
  let w := {| cache_file := Missing; service := λ _, Fails Timeout;
              requests_sent := []; pauses := 0 |} in
  lookup_tosdr "example.org" (lookup_tosdr "example.org" w).2
  = (Ok (unknown_record "example.org"), (lookup_tosdr "example.org" w).2).
Proof.
  intros w.
  apply (lookup_twice w (lookup_tosdr "example.org" w).2 "example.org" ∅).
  - reflexivity.
  - apply injective_projections; [vm_compute; reflexivity|reflexivity].
Defined.

(** X12. The cache only grows: when a lookup returns, the cache holds the
    record returned under the domain looked up, every entry that was there
    before is still there with the same record, and no other key is new. *)
Theorem lookup_keeps_cache :
  ∀ (w w' : world) (domain : string) (m : gmap string json) (out : json),
    cache_is w m →
    lookup_tosdr domain w = (Ok out, w') →
    ∃ m', cache_is w' m' ∧ m ⊆ m' ∧ dom m' ⊆ dom m ∪ {[domain]}
          ∧ m' !! domain = Some out.
Proof.
  intros w w' domain m out Hc Hl.
  destruct (lookup_cache domain w m (Ok out) w' Hc Hl) as (m' & H1 & H2 & H3 & H4).
  exists m'. split; [exact H1|]. split; [exact H2|]. split; [exact H3|].
  apply H4. reflexivity.
Qed.

Lemma lookup_keeps_cache_witness :
  let w := {| cache_file := Holds (JDict {[ "github.com" := JStr "kept" ]});
              service := λ _, Responds false None;
              requests_sent := []; pauses := 0 |} in
  ∃ m', cache_is (lookup_tosdr "example.org" w).2 m'
        ∧ ({[ "github.com" := JStr "kept" ]} : gmap string json) ⊆ m'
        ∧ dom m' ⊆ dom ({[ "github.com" := JStr "kept" ]} : gmap string json)
                   ∪ {[ "example.org" ]}
        ∧ m' !! "example.org" = Some (unknown_record "example.org").
Proof.
  intros w.
  apply (lookup_keeps_cache w (lookup_tosdr "example.org" w).2 "example.org"
           {[ "github.com" := JStr "kept" ]} (unknown_record "example.org")).
  - reflexivity.
  - apply injective_projections; [vm_compute; reflexivity|reflexivity].
Defined.

(** X13. The network and the clock: a lookup never changes the service, sends
    no request and takes no pause when the cache holds the domain, and
    otherwise sends exactly one request, whose query is the domain, and
    pauses once exactly when it returns. *)
Theorem lookup_effects :
  ∀ (w w' : world) (domain : string) (m : gmap string json) (r : result json),
    cache_is w m →
    lookup_tosdr domain w = (r, w') →
    service w' = service w
    ∧ requests_sent w' = requests_sent w ++ (if decide (domain ∈ dom m) then [] else [domain])
    ∧ pauses w' = pauses w + (if decide (domain ∈ dom m) then 0
                              else match r with Ok _ => 1 | Raise _ => 0 end).
Proof.
  intros w w' domain m r Hc Hl.
  destruct (lookup_outcome domain w m r w' Hc Hl)
    as [(record & Hm & -> & ->)|[(Hm & out & -> & -> & _)|(Hm & e & -> & ->)]].
  - destruct (decide (domain ∈ dom m)) as [_|Hn];
      [|exfalso; apply Hn, elem_of_dom; eauto].
    rewrite app_nil_r, Nat.add_0_r. auto.
  - destruct (decide (domain ∈ dom m)) as [Hin|_];
      [apply elem_of_dom in Hin; rewrite Hm in Hin; destruct Hin; discriminate|].
    simpl. rewrite Nat.add_1_r. auto.
  - destruct (decide (domain ∈ dom m)) as [Hin|_];
      [apply elem_of_dom in Hin; rewrite Hm in Hin; destruct Hin; discriminate|].
    simpl. rewrite Nat.add_0_r. auto.
Qed.

Lemma lookup_effects_witness :
  let w := {| cache_file := Missing;
              service := λ _, Responds true (Some (JDict ∅));
              requests_sent := ["github.com"]; pauses := 1 |} in
  service (lookup_tosdr "example.org" w).2 = service w
  ∧ requests_sent (lookup_tosdr "example.org" w).2
    = requests_sent w ++ (if decide ("example.org" ∈ dom (∅ : gmap string json))
                          then [] else ["example.org"])
  ∧ pauses (lookup_tosdr "example.org" w).2
    = pauses w + (if decide ("example.org" ∈ dom (∅ : gmap string json)) then 0
                  else match (lookup_tosdr "example.org" w).1 with
                       | Ok _ => 1 | Raise _ => 0 end).
Proof.
  intros w.
  apply (lookup_effects w (lookup_tosdr "example.org" w).2 "example.org" ∅
           (lookup_tosdr "example.org" w).1).
  - reflexivity.
  - apply surjective_pairing.
Defined.

(** X14. A record that [lookup_tosdr] builds on a cache miss has exactly the
    keys [grade], [service_id] and [name]; its grade is one of [A B C D E
    Unknown], and its [service_id] is an integer unless it is falsy. *)
Theorem lookup_builds_record :
  ∀ (w w' : world) (domain : string) (m : gmap string json) (out : json),
    cache_is w m →
    m !! domain = None →
    lookup_tosdr domain w = (Ok out, w') →
    built_record out.
Proof.
  intros w w' domain m out Hc Hm Hl.
  destruct (lookup_outcome domain w m (Ok out) w' Hc Hl)
    as [(record & Hm' & _)|[(_ & o & [= <-] & _ & [->|[sv Hsv]])|(_ & e & He & _)]].
  - congruence.
  - apply unknown_record_built.
  - apply (record_of_service_built sv domain out Hsv).
  - discriminate.
Qed.

Lemma lookup_builds_record_witness :
  built_record
    (JDict {[ "grade" := JStr "Unknown"; "service_id" := JInt 12;
              "name" := JStr "Example" ]}).
Proof.
  set (w := {| cache_file := Missing;
               service := λ _, Responds true (Some
                 (JDict {[ "parameters" := JDict {[ "services" :=
                    JList [JDict {[ "name" := JStr "Example"; "id" := JStr " 12 ";
                                    "rating" := JDict {[ "letter" := JStr "F" ]} ]}] ]} ]}));
               requests_sent := []; pauses := 0 |}).
  apply (lookup_builds_record w (lookup_tosdr "example.org" w).2 "example.org" ∅).
  - reflexivity.
  - reflexivity.
  - apply injective_projections; [vm_compute; reflexivity|reflexivity].
Defined.

(** X15. [_best_match] on an answer that lists its services returns [None]
    when the list is empty; otherwise it prefers a listing to the position:
    it returns the first service that lists a URL containing the domain,
    when the services before it are passed over, and the first service of
    the list when all are passed over; and whenever it returns, it is in one
    of these ways. *)
Theorem best_match_is_listed :
  ∀ (sj pm : gmap string json) (svs : list json) (domain : string),
    sj !! "parameters" = Some (JDict pm) →
    pm !! "services" = Some (JList svs) →
    (svs = [] → _best_match (JDict sj) domain = Ok JNull)
    ∧ (∀ pre sv post,
         svs = pre ++ sv :: post →
         Forall (passed_over domain) pre →
         lists_domain domain sv →
         _best_match (JDict sj) domain = Ok sv)
    ∧ (∀ first rest,
         svs = first :: rest →
         Forall (passed_over domain) svs →
         _best_match (JDict sj) domain = Ok first)
    ∧ (∀ sv,
         _best_match (JDict sj) domain = Ok sv →
         match svs with
         | [] => sv = JNull
         | first :: _ =>
             (∃ pre post, svs = pre ++ sv :: post
                          ∧ Forall (passed_over domain) pre
                          ∧ lists_domain domain sv)
             ∨ (Forall (passed_over domain) svs ∧ sv = first)
         end).
Proof.
  intros sj pm svs domain Hsj Hpm.
  rewrite (best_match_listed sj pm svs domain Hsj Hpm).
  split; [intros ->; reflexivity|]. split; [|split].
  - intros pre sv post -> Hpre Hl.
    rewrite (first_listing_first domain pre sv post Hpre Hl). cbn [bind].
    destruct Hl as [Hd _]. destruct sv; try discriminate.
    destruct pre; reflexivity.
  - intros first rest -> Hall.
    rewrite (first_listing_none domain _ Hall). reflexivity.
  - intros sv. destruct svs as [|first rest]; [intros [= <-]; reflexivity|].
    destruct (first_listing domain (first :: rest)) as [found|e] eqn:E;
      cbn [bind]; [|discriminate].
    destruct (first_listing_cases domain _ found E)
      as [[-> Hall]|(pre & post & Heq & Hpre & Hl)].
    + cbn [py_getitem0]. intros [= <-]. right. split; [exact Hall|reflexivity].
    + destruct Hl as [Hd Hl]. destruct found; try discriminate.
      intros [= <-]. left. exists pre, post.
      split; [exact Heq|]. split; [exact Hpre|]. split; assumption.
Qed.

Lemma best_match_is_listed_witness :
  _best_match
    (JDict {[ "parameters" := JDict {[ "services" :=
       JList [JDict {[ "name" := JStr "Other" ]};
              JDict {[ "name" := JStr "Example";
                       "urls" := JList [JStr "www.example.org"] ]};
              JDict {[ "name" := JStr "Late";
                       "urls" := JList [JStr "example.org"] ]}] ]} ]})
    "example.org"
  = Ok (JDict {[ "name" := JStr "Example";
                 "urls" := JList [JStr "www.example.org"] ]}).
Proof.
  destruct (best_match_is_listed
              ({[ "parameters" := JDict {[ "services" :=
                   JList [JDict {[ "name" := JStr "Other" ]};
                          JDict {[ "name" := JStr "Example";
                                   "urls" := JList [JStr "www.example.org"] ]};
                          JDict {[ "name" := JStr "Late";
                                   "urls" := JList [JStr "example.org"] ]}] ]} ]}
                 : gmap string json)
              ({[ "services" :=
                   JList [JDict {[ "name" := JStr "Other" ]};
                          JDict {[ "name" := JStr "Example";
                                   "urls" := JList [JStr "www.example.org"] ]};
                          JDict {[ "name" := JStr "Late";
                                   "urls" := JList [JStr "example.org"] ]}] ]}
                 : gmap string json)
              [JDict {[ "name" := JStr "Other" ]};
               JDict {[ "name" := JStr "Example";
                        "urls" := JList [JStr "www.example.org"] ]};
               JDict {[ "name" := JStr "Late";
                        "urls" := JList [JStr "example.org"] ]}]
              "example.org") as (_ & Hfirst & _).
  - vm_compute; reflexivity.
  - vm_compute; reflexivity.
  - apply (Hfirst [JDict {[ "name" := JStr "Other" ]}]
                  (JDict {[ "name" := JStr "Example";
                            "urls" := JList [JStr "www.example.org"] ]})
                  [JDict {[ "name" := JStr "Late";
                            "urls" := JList [JStr "example.org"] ]}]).
    + reflexivity.
    + constructor; [|constructor]. right.
      exists (JList []), []. repeat split; vm_compute; reflexivity.
    + split; [reflexivity|].
      exists (JList [JStr "www.example.org"]), [JStr "www.example.org"].
      repeat split; vm_compute; reflexivity.
Defined.

(* ===================================================================== *)
(** * Properties of the loop of [main] that fetches the ratings            *)
(* ===================================================================== *)

Section MainFacts.
Import Main.

Lemma lookup_all_cons_inv d r w rs w' :
  lookup_all (d :: r) w = (Ok rs, w') →
  ∃ out w1 out' rs',
    lookup_tosdr d w = (Ok out, w1)
    ∧ py_setitem out "domain" (JStr d) = Ok out'
    ∧ lookup_all r w1 = (Ok rs', w')
    ∧ rs = out' :: rs'.
Proof.
  cbn [lookup_all]. unfold bindM, lift, ret.
  destruct (lookup_tosdr d w) as [[out|e] w1] eqn:E1; [|discriminate].
  destruct (py_setitem out "domain" (JStr d)) as [out'|e] eqn:E2; [|discriminate].
  destruct (lookup_all r w1) as [[rs'|e] w2] eqn:E3; [|discriminate].
  intros [= <- <-]. exists out, w1, out', rs'.
  split; [reflexivity|]. split; [exact E2|]. split; [exact E3|reflexivity].
Qed.

Lemma lookup_all_cons d r w out w1 out' rs' w' :
  lookup_tosdr d w = (Ok out, w1) →
  py_setitem out "domain" (JStr d) = Ok out' →
  lookup_all r w1 = (Ok rs', w') →
  lookup_all (d :: r) w = (Ok (out' :: rs'), w').
Proof.
  intros H1 H2 H3. cbn [lookup_all]. unfold bindM, lift, ret.
  rewrite H1, H2, H3. reflexivity.
Qed.

Lemma py_setitem_get out k v out' :
  py_setitem out k v = Ok out' → py_get out' k JNull = Ok v.
Proof.
  destruct out; try discriminate. intros [= <-]. simpl.
  rewrite lookup_insert_eq. reflexivity.
Qed.

Lemma lookup_all_replay ds :
  ∀ w m rs w',
    cache_is w m →
    lookup_all ds w = (Ok rs, w') →
    ∃ m', cache_is w' m' ∧ m ⊆ m'
          ∧ ∀ w2 m2, cache_is w2 m2 → m' ⊆ m2 → lookup_all ds w2 = (Ok rs, w2).
Proof.
  induction ds as [|d r IH]; intros w m rs w' Hc Hl.
  - injection Hl as <- <-. exists m. split; [exact Hc|]. split; [reflexivity|].
    intros w2 m2 _ _. reflexivity.
  - destruct (lookup_all_cons_inv d r w rs w' Hl)
      as (out & w1 & out' & rs' & H1 & H2 & H3 & ->).
    destruct (lookup_cache d w m (Ok out) w1 Hc H1) as (m1 & Hc1 & Hsub1 & _ & Hm1).
    destruct (IH w1 m1 rs' w' Hc1 H3) as (m' & Hc' & Hsub' & Hreplay).
    exists m'. split; [exact Hc'|]. split; [etrans; eassumption|].
    intros w2 m2 Hc2 Hsub2.
    apply (lookup_all_cons d r w2 out w2 out' rs' w2).
    + apply (lookup_hit d w2 m2 out Hc2).
      apply (lookup_weaken m1); [apply Hm1; reflexivity|].
      etrans; eassumption.
    + exact H2.
    + apply (Hreplay w2 m2 Hc2 Hsub2).
Qed.

Lemma missing_domains_hit (m : gmap string json) d r :
  d ∈ dom m → missing_domains m (d :: r) = missing_domains m r.
Proof.
  intros H. unfold missing_domains. rewrite filter_cons_False by tauto.
  reflexivity.
Qed.

Lemma missing_domains_miss (m : gmap string json) d out r :
  d ∉ dom m →
  missing_domains m (d :: r) = d :: missing_domains (<[d := out]> m) r.
Proof.
  intros H. unfold missing_domains. rewrite filter_cons_True by exact H.
  simpl. f_equal. rewrite <- first_occurrences_filter, list_filter_filter.
  f_equal. apply list_filter_iff. intros x.
  rewrite dom_insert_L, not_elem_of_union, not_elem_of_singleton. tauto.
Qed.

Lemma lookup_all_requests ds :
  ∀ w m rs w',
    cache_is w m →
    lookup_all ds w = (Ok rs, w') →
    requests_sent w' = requests_sent w ++ missing_domains m ds
    ∧ pauses w' = pauses w + length (missing_domains m ds).
Proof.
  induction ds as [|d r IH]; intros w m rs w' Hc Hl.
  - injection Hl as <- <-. unfold missing_domains. simpl.
    rewrite app_nil_r, Nat.add_0_r. auto.
  - destruct (lookup_all_cons_inv d r w rs w' Hl)
      as (out & w1 & out' & rs' & H1 & H2 & H3 & ->).
    destruct (lookup_outcome d w m (Ok out) w1 Hc H1)
      as [(record & Hm & _ & ->)|[(Hm & o & [= <-] & -> & _)|(_ & e & He & _)]];
      [| |discriminate].
    + rewrite missing_domains_hit by (apply elem_of_dom; eauto).
      apply (IH w m rs' w' Hc H3).
    + rewrite (missing_domains_miss m d out)
        by (rewrite elem_of_dom, Hm; intros [? ?]; discriminate).
      destruct (IH _ _ rs' w' (cache_is_after_miss w m d out) H3) as [Hr Hp].
      rewrite Hr, Hp. simpl. rewrite <- app_assoc. split; [reflexivity|lia].
Qed.

End MainFacts.

(** X16. When the loop of [main] over the domains returns, it returns one
    result per domain, in the order of the domains, and each result carries
    its domain under the key ["domain"]. *)
Theorem lookup_all_results :
  ∀ (domains : list string) (w w' : world) (results : list json),
    Main.lookup_all domains w = (Ok results, w') →
    Forall2 (λ d r, py_get r "domain" JNull = Ok (JStr d)) domains results.
Proof.
  induction domains as [|d r IH]; intros w w' results Hl.
  - injection Hl as <- <-. constructor.
  - destruct (lookup_all_cons_inv d r w results w' Hl)
      as (out & w1 & out' & rs' & H1 & H2 & H3 & ->).
    constructor; [apply (py_setitem_get out _ _ out' H2)|].
    apply (IH w1 w' rs' H3).
Qed.

Lemma lookup_all_results_witness :
  let w := {| cache_file := Missing; service := λ _, Responds false None;
              requests_sent := []; pauses := 0 |} in
  Forall2 (λ d r, py_get r "domain" JNull = Ok (JStr d))
          ["example.com"; "test.org"]
          (match (Main.lookup_all ["example.com"; "test.org"] w).1 with
           | Ok rs => rs | Raise _ => [] end).
Proof.
  intros w.
  apply (lookup_all_results _ w (Main.lookup_all ["example.com"; "test.org"] w).2).
  apply injective_projections; [vm_compute; reflexivity|reflexivity].
Defined.

(** X17. A second run sends nothing: when the loop over the domains has
    returned, running it again in the world it left returns the same results
    and changes nothing (no request, no pause, no write). *)
Theorem lookup_all_twice :
  ∀ (domains : list string) (w w' : world) (m : gmap string json)
    (results : list json),
    cache_is w m →
    Main.lookup_all domains w = (Ok results, w') →
    Main.lookup_all domains w' = (Ok results, w').
Proof.
  intros domains w w' m results Hc Hl.
  destruct (lookup_all_replay domains w m results w' Hc Hl)
    as (m' & Hc' & _ & Hreplay).
  apply (Hreplay w' m' Hc'). reflexivity.
Qed.

Lemma lookup_all_twice_witness :
  let w := {| cache_file := Missing; service := λ _, Fails ConnectionError;
              requests_sent := []; pauses := 0 |} in
  let run := Main.lookup_all ["example.com"; "test.org"; "example.com"] w in
  Main.lookup_all ["example.com"; "test.org"; "example.com"] run.2
  = (Ok (match run.1 with Ok rs => rs | Raise _ => [] end), run.2).
Proof.
  intros w run.
  apply (lookup_all_twice _ w run.2 ∅).
  - reflexivity.
  - apply injective_projections; [vm_compute; reflexivity|reflexivity].
Defined.

(** X18. When the loop over the domains returns, it has sent exactly one
    request, and paused once, for each domain that the cache did not hold,
    in the order of their first occurrence; a domain in the cache, or met
    before, costs nothing. *)
Theorem lookup_all_sends_missing :
  ∀ (domains : list string) (w w' : world) (m : gmap string json)
    (results : list json),
    cache_is w m →
    Main.lookup_all domains w = (Ok results, w') →
    requests_sent w' = requests_sent w ++ missing_domains m domains
    ∧ pauses w' = pauses w + length (missing_domains m domains).
Proof.
  intros domains w w' m results. apply lookup_all_requests.
Qed.

Lemma lookup_all_sends_missing_witness :
  let m : gmap string json :=
    {[ "github.com" := ApiClient.unknown_record "github.com" ]} in
  let w := {| cache_file := Holds (JDict m); service := λ _, Fails Timeout;
              requests_sent := []; pauses := 0 |} in
  let ds := ["example.com"; "github.com"; "example.com"; "test.org"] in
  requests_sent (Main.lookup_all ds w).2 = requests_sent w ++ missing_domains m ds
  ∧ pauses (Main.lookup_all ds w).2 = pauses w + length (missing_domains m ds).
Proof.
  intros m w ds.
  apply (lookup_all_sends_missing ds w (Main.lookup_all ds w).2 m
           (match (Main.lookup_all ds w).1 with Ok rs => rs | Raise _ => [] end)).
  - reflexivity.
  - apply injective_projections; [vm_compute; reflexivity|reflexivity].
Defined.

(* ===================================================================== *)
(** * Further properties of the report generator                          *)
(* ===================================================================== *)

Section SortFacts.
Import Reporting.
Context {A K : Type} (le : K → K → bool).
Hypothesis le_total : ∀ a b, le a b = false → le b a = true.

Lemma insert_by_perm (x : K * A) l : insert_by le x l ≡ₚ x :: l.
Proof.
  induction l as [|y r IH]; [reflexivity|]. simpl.
  destruct (le x.1 y.1); [reflexivity|].
  rewrite IH. apply Permutation_swap.
Qed.

Lemma sort_by_perm (l : list (K * A)) : sort_by le l ≡ₚ l.
Proof.
  induction l as [|x r IH]; [reflexivity|]. simpl.
  rewrite insert_by_perm, IH. reflexivity.
Qed.

Lemma insert_by_sorted (x : K * A) l :
  Sorted (λ a b, le a.1 b.1 = true) l →
  Sorted (λ a b, le a.1 b.1 = true) (insert_by le x l).
Proof.
  induction l as [|y r IH]; intros Hs; simpl.
  - repeat constructor.
  - destruct (le x.1 y.1) eqn:E.
    + constructor; [exact Hs|]. constructor. exact E.
    + inversion Hs as [|? ? Hr Hy]; subst.
      constructor; [apply IH, Hr|].
      destruct r as [|z r]; simpl.
      * constructor. apply le_total, E.
      * destruct (le x.1 z.1); constructor.
        -- apply le_total, E.
        -- inversion Hy; subst. assumption.
Qed.

Lemma sort_by_sorted (l : list (K * A)) :
  Sorted (λ a b, le a.1 b.1 = true) (sort_by le l).
Proof.
  induction l as [|x r IH]; simpl; [constructor|].
  apply insert_by_sorted, IH.
Qed.

Lemma with_keys_pure (key : A → result K) (f : A → K) l :
  (∀ x, key x = Ok (f x)) → with_keys key l = Ok ((λ x, (f x, x)) <$> l).
Proof.
  intros H. induction l as [|x r IH]; [reflexivity|].
  cbn [with_keys]. rewrite H, IH. reflexivity.
Qed.

Lemma Sorted_keyed (f : A → K) (kl : list (K * A)) :
  Forall (λ kx, kx.1 = f kx.2) kl →
  Sorted (λ a b, le a.1 b.1 = true) kl →
  Sorted (λ a b, le (f a) (f b) = true) (kl.*2).
Proof.
  induction kl as [|x r IH]; intros Hall Hs; [constructor|].
  inversion Hall as [|? ? Hx Hr]; subst.
  inversion Hs as [|? ? Hsr Hh]; subst.
  rewrite fmap_cons. constructor; [apply IH; assumption|].
  destruct r as [|y r]; [constructor|].
  inversion Hr; subst. inversion Hh; subst.
  rewrite fmap_cons. constructor. congruence.
Qed.

Lemma keyed_values (f : A → K) (l : list A) : ((λ x, (f x, x)) <$> l).*2 = l.
Proof.
  induction l as [|x r IH]; [reflexivity|].
  rewrite !fmap_cons, IH. reflexivity.
Qed.

(** the sort is stable: elements whose keys are equivalent keep the order
    they had *)
Lemma insert_by_filter (P : K → Prop) `{!∀ k, Decision (P k)} (x : K * A) l :
  (∀ a b, P a → P b → le a b = true) →
  filter (λ kx, P kx.1) (insert_by le x l) = filter (λ kx, P kx.1) (x :: l).
Proof.
  intros HP. induction l as [|y r IH]; [reflexivity|]. cbn [insert_by].
  destruct (le x.1 y.1) eqn:E; [reflexivity|].
  rewrite filter_cons, IH, !filter_cons.
  destruct (decide (P y.1)) as [Hy|Hy], (decide (P x.1)) as [Hx|Hx];
    try reflexivity.
  rewrite (HP _ _ Hx Hy) in E. discriminate.
Qed.

Lemma sort_by_filter (P : K → Prop) `{!∀ k, Decision (P k)} (l : list (K * A)) :
  (∀ a b, P a → P b → le a b = true) →
  filter (λ kx, P kx.1) (sort_by le l) = filter (λ kx, P kx.1) l.
Proof.
  intros HP. induction l as [|x r IH]; [reflexivity|]. cbn [sort_by].
  rewrite (insert_by_filter P x _ HP), !filter_cons, IH. reflexivity.
Qed.

Lemma filter_keyed (P : K → Prop) `{!∀ k, Decision (P k)} (f : A → K)
      (kl : list (K * A)) :
  Forall (λ kx, kx.1 = f kx.2) kl →
  filter (λ a, P (f a)) (kl.*2) = (filter (λ kx, P kx.1) kl).*2.
Proof.
  induction 1 as [|x r Hx Hr IH]; [reflexivity|].
  rewrite fmap_cons, !filter_cons, IH.
  destruct (decide (P (f x.2))) as [H1|H1], (decide (P x.1)) as [H2|H2];
    try reflexivity; exfalso; rewrite Hx in H2; contradiction.
Qed.

(** [sorted] with a key that does not raise: a permutation of the input,
    in the order of the keys, and stable *)
Lemma sorted_pure (key : A → result K) (f : A → K) l :
  (∀ x, key x = Ok (f x)) →
  ∃ out, sorted le key l = Ok out
         ∧ out ≡ₚ l
         ∧ Sorted (λ a b, le (f a) (f b) = true) out
         ∧ (∀ (P : K → Prop) (Hdec : ∀ k, Decision (P k)),
              (∀ a b, P a → P b → le a b = true) →
              filter (λ a, P (f a)) out = filter (λ a, P (f a)) l).
Proof.
  intros H. unfold sorted. rewrite (with_keys_pure key f l H). cbn [bind].
  eexists. split; [reflexivity|].
  assert (Hp : sort_by le ((λ x, (f x, x)) <$> l) ≡ₚ (λ x, (f x, x)) <$> l)
    by apply sort_by_perm.
  assert (Hk : Forall (λ kx : K * A, kx.1 = f kx.2) ((λ x, (f x, x)) <$> l)).
  { apply Forall_fmap, Forall_forall. intros x _. reflexivity. }
  split; [|split].
  - rewrite Hp, keyed_values. reflexivity.
  - apply Sorted_keyed; [|apply sort_by_sorted].
    rewrite Hp. exact Hk.
  - intros P Hdec HP.
    rewrite (filter_keyed P f); [|rewrite Hp; exact Hk].
    rewrite (sort_by_filter P _ HP).
    rewrite <- (filter_keyed P f _ Hk), keyed_values. reflexivity.
Qed.

End SortFacts.

Section MoreReportingFacts.
Import Reporting.

Lemma grade_eqb_eq g h : grade_eqb g h = true ↔ g = h.
Proof. destruct g, h; simpl; split; intros H; try discriminate; reflexivity. Qed.

Lemma grade_eqb_refl g : grade_eqb g g = true.
Proof. destruct g; reflexivity. Qed.

Lemma count_of_count_grade g0 g c :
  count_of g (count_grade g0 c)
  = count_of g c + (if grade_eqb g0 g then 1 else 0).
Proof.
  induction c as [|[h n] r IH]; [simpl; lia|]. simpl.
  destruct (grade_eqb h g0) eqn:E0; simpl.
  - apply grade_eqb_eq in E0. subst h.
    destruct (grade_eqb g0 g); lia.
  - destruct (grade_eqb h g) eqn:E; [|exact IH].
    apply grade_eqb_eq in E. subst h.
    destruct (grade_eqb g0 g) eqn:E1; [|lia].
    apply grade_eqb_eq in E1. subst g0. rewrite grade_eqb_refl in E0. discriminate.
Qed.

Lemma count_grade_keys g0 c :
  (g0 ∈ c.*1 → (count_grade g0 c).*1 = c.*1)
  ∧ (g0 ∉ c.*1 → (count_grade g0 c).*1 = c.*1 ++ [g0]).
Proof.
  induction c as [|[h n] r [IH1 IH2]].
  - split; [intros H; apply elem_of_nil in H; destruct H|reflexivity].
  - cbn [count_grade]. destruct (grade_eqb h g0) eqn:E0.
    + apply grade_eqb_eq in E0. subst h. rewrite !fmap_cons. cbn [fst].
      split; [reflexivity|].
      intros H. exfalso. apply H. apply list_elem_of_here.
    + assert (h ≠ g0) by (intros ->; rewrite grade_eqb_refl in E0; discriminate).
      rewrite !fmap_cons. cbn [fst]. split; intros Hin.
      * rewrite IH1; [reflexivity|].
        apply elem_of_cons in Hin. destruct Hin as [->|Hin]; [congruence|exact Hin].
      * rewrite IH2; [reflexivity|].
        intros Hr. apply Hin. apply list_elem_of_further, Hr.
Qed.

Lemma grade_elem_dec (g : grade) (l : list grade) : g ∈ l ∨ g ∉ l.
Proof.
  induction l as [|h r [IH|IH]].
  - right. apply not_elem_of_nil.
  - left. apply list_elem_of_further, IH.
  - destruct (grade_eqb h g) eqn:E.
    + apply grade_eqb_eq in E. subst h. left. apply list_elem_of_here.
    + right. intros H. apply elem_of_cons in H. destruct H as [->|H]; [|auto].
      rewrite grade_eqb_refl in E. discriminate.
Qed.

Lemma with_grade_snoc g met d :
  length (with_grade g (met ++ [d]))
  = length (with_grade g met) + (if grade_eqb (rating_grade d) g then 1 else 0).
Proof.
  unfold with_grade. rewrite filter_app, length_app. f_equal.
  destruct (grade_eqb (rating_grade d) g) eqn:E.
  - rewrite filter_cons_True by exact E. reflexivity.
  - rewrite filter_cons_False by (rewrite E; discriminate). reflexivity.
Qed.

Lemma counts_inv_step c met d :
  counts_inv c met → counts_inv (count_grade (rating_grade d) c) (met ++ [d]).
Proof.
  intros (Hnd & Hcount & Hkeys).
  destruct (count_grade_keys (rating_grade d) c) as [K1 K2].
  assert (Hmem : ∀ g, g ∈ (count_grade (rating_grade d) c).*1
                      ↔ g ∈ c.*1 ∨ g = rating_grade d).
  { intros g. destruct (grade_elem_dec (rating_grade d) (c.*1)) as [Hin|Hin].
    - rewrite (K1 Hin). split; [auto|]. intros [H| ->]; assumption.
    - rewrite (K2 Hin), elem_of_app, list_elem_of_singleton. reflexivity. }
  split; [|split].
  - destruct (grade_elem_dec (rating_grade d) (c.*1)) as [Hin|Hin].
    + rewrite (K1 Hin). exact Hnd.
    + rewrite (K2 Hin). apply NoDup_app. split; [exact Hnd|].
      split; [|apply NoDup_singleton].
      intros x Hx Hx'. apply list_elem_of_singleton in Hx'. congruence.
  - intros g. rewrite count_of_count_grade, Hcount, with_grade_snoc. reflexivity.
  - intros g. rewrite Hmem, Hkeys, with_grade_snoc.
    destruct (grade_eqb (rating_grade d) g) eqn:E.
    + apply grade_eqb_eq in E. split; [lia|auto].
    + split; [|intros H; left; lia].
      intros [H| ->]; [lia|].
      assert (grade_eqb (rating_grade d) (rating_grade d) = true)
        by (apply grade_eqb_eq; reflexivity).
      congruence.
Qed.

Lemma counts_inv_fold ds c met :
  counts_inv c met →
  counts_inv (fold_left (λ counts d, count_grade (rating_grade d) counts) ds c)
             (met ++ ds).
Proof.
  revert c met. induction ds as [|d r IH]; intros c met H; simpl.
  - rewrite app_nil_r. exact H.
  - replace (met ++ d :: r) with ((met ++ [d]) ++ r)
      by (rewrite <- app_assoc; reflexivity).
    apply IH, counts_inv_step, H.
Qed.

Lemma counts_inv_grade_counts ds : counts_inv (grade_counts ds) ds.
Proof.
  apply (counts_inv_fold ds [] []).
  split; [constructor|]. split; [reflexivity|].
  intros g. simpl. rewrite elem_of_nil. lia.
Qed.

(** with distinct keys, a pair is in the list when its key is and its count
    is the one found *)
Lemma elem_of_counts c g n :
  NoDup (c.*1) → (g, n) ∈ c ↔ g ∈ c.*1 ∧ count_of g c = n.
Proof.
  induction c as [|[h k] r IH]; intros Hnd.
  - simpl. rewrite !elem_of_nil. tauto.
  - rewrite fmap_cons in Hnd. apply NoDup_cons in Hnd. destruct Hnd as [Hh Hr].
    rewrite fmap_cons, !elem_of_cons, (IH Hr). simpl.
    destruct (grade_eqb h g) eqn:E.
    + apply grade_eqb_eq in E. subst h. split.
      * intros [[= <-]|[Hin _]]; [auto|contradiction].
      * intros [_ <-]. auto.
    + assert (g ≠ h) by (intros ->; destruct h; discriminate).
      split.
      * intros [[= -> _]|[Hin Hc]]; [congruence|auto].
      * intros [[->|Hin] Hc]; [congruence|auto].
Qed.

Lemma percent_ratio a b : b ≠ 0 → percent a b = Ok (ratio a b).
Proof.
  intros H. unfold percent. destruct (Nat.eqb_spec b 0); [congruence|reflexivity].
Qed.

Lemma distribution_rows_value total rows :
  total ≠ 0 →
  distribution_rows total rows
  = Ok ((λ row, (row.1, row.2, ratio row.2 total)) <$> rows).
Proof.
  intros H. induction rows as [|row r IH]; [reflexivity|].
  cbn [distribution_rows]. unfold distribution_row.
  destruct (Nat.ltb_spec 0 total); [|lia].
  rewrite (percent_ratio _ _ H). cbn [bind]. rewrite IH. reflexivity.
Qed.

Lemma index_or_999_order g : index_or_999 g grade_order = Ok (grade_rank g).
Proof. destruct g; reflexivity. Qed.

Lemma index_or_999_risky g : index_or_999 g [GradeE; GradeD] = Ok (risky_rank g).
Proof. destruct g; reflexivity. Qed.

Lemma index_of_order g : index_of g grade_order = Ok (grade_rank g).
Proof. destruct g; reflexivity. Qed.

Lemma leb_total a b : Nat.leb a b = false → Nat.leb b a = true.
Proof. rewrite Nat.leb_gt, Nat.leb_le. lia. Qed.

Lemma text_le_total a b : text_le a b = false → text_le b a = true.
Proof.
  unfold text_le. rewrite (String.compare_antisym a b).
  destruct (String.compare b a); simpl; congruence.
Qed.

Lemma pair_le_total a b : pair_le a b = false → pair_le b a = true.
Proof.
  unfold pair_le. rewrite orb_false_iff, andb_false_iff, !orb_true_iff,
    andb_true_iff, !Nat.ltb_ge, Nat.ltb_lt, Nat.eqb_neq, Nat.eqb_eq.
  intros [H1 [H2|H2]].
  - left. lia.
  - destruct (decide (a.1 = b.1)) as [E|E]; [|left; lia].
    right. split; [congruence|apply text_le_total, H2].
Qed.

Lemma pair_le_refl k : pair_le k k = true.
Proof.
  destruct (pair_le k k) eqn:E; [reflexivity|].
  pose proof (pair_le_total _ _ E). congruence.
Qed.

Lemma grade_rank_inj g h : grade_rank g = grade_rank h → g = h.
Proof. destruct g, h; simpl; intros H; congruence. Qed.

Lemma grade_listed (g : grade) : g ∈ grade_order.
Proof. unfold grade_order. rewrite !elem_of_cons. destruct g; tauto. Qed.

Lemma NoDup_grade_order : NoDup grade_order.
Proof.
  unfold grade_order.
  repeat (constructor;
          [rewrite ?elem_of_cons, elem_of_nil; intuition discriminate|]).
  constructor.
Qed.

Lemma of_nat_pos n : n ≠ 0 → Z.pos (Pos.of_nat n) = Z.of_nat n.
Proof. intros H. destruct n; [congruence|]. lia. Qed.

Lemma ratio_sum a b :
  a ≤ b → b ≠ 0 → Qeq (Qplus (ratio a b) (ratio (b - a) b)) (inject_Z 100).
Proof.
  intros Hab Hb. unfold ratio, Qeq, Qplus, Qmult, inject_Z. simpl.
  rewrite !Pos.mul_1_r, Pos2Z.inj_mul, (of_nat_pos b Hb), Nat2Z.inj_sub by exact Hab.
  nia.
Qed.

Lemma ratio_add a b t :
  t ≠ 0 → Qeq (Qplus (ratio a t) (ratio b t)) (ratio (a + b) t).
Proof.
  intros Ht. unfold ratio, Qeq, Qplus, Qmult, inject_Z. simpl.
  rewrite !Pos.mul_1_r, Pos2Z.inj_mul, (of_nat_pos t Ht), Nat2Z.inj_add.
  nia.
Qed.

Lemma ratio_full t : t ≠ 0 → Qeq (ratio t t) (inject_Z 100).
Proof.
  intros Ht. unfold ratio, Qeq, Qmult, inject_Z. simpl.
  rewrite !Pos.mul_1_r, (of_nat_pos t Ht). nia.
Qed.

Lemma ratio_zero t : Qeq (ratio 0 t) (inject_Z 0).
Proof. unfold ratio, Qeq, Qmult, inject_Z. simpl. reflexivity. Qed.

Section Filters.
Context {A : Type}.

Lemma filter_all (P : A → Prop) `{!∀ x, Decision (P x)} l :
  Forall P l → filter P l = l.
Proof.
  induction 1 as [|x r Hx Hr IH]; [reflexivity|].
  rewrite filter_cons_True by exact Hx. rewrite IH. reflexivity.
Qed.

Lemma filter_none (P : A → Prop) `{!∀ x, Decision (P x)} l :
  Forall (λ x, ¬ P x) l → filter P l = [].
Proof.
  induction 1 as [|x r Hx Hr IH]; [reflexivity|].
  rewrite filter_cons_False by exact Hx. exact IH.
Qed.

Lemma filter_within (P Q : A → Prop) `{!∀ x, Decision (P x)}
      `{!∀ x, Decision (Q x)} l :
  Forall (λ x, P x ↔ Q x) l → filter P l = filter Q l.
Proof.
  induction 1 as [|x r Hx Hr IH]; [reflexivity|].
  rewrite !filter_cons, IH.
  destruct (decide (P x)), (decide (Q x)); tauto.
Qed.

Lemma filter_fmap {B} (f : B → A) (P : A → Prop) `{!∀ x, Decision (P x)}
      (l : list B) :
  filter P (f <$> l) = f <$> filter (λ x, P (f x)) l.
Proof.
  induction l as [|x r IH]; [reflexivity|].
  rewrite fmap_cons, !filter_cons, IH.
  destruct (decide (P (f x))); reflexivity.
Qed.

Lemma StronglySorted_filter (R : relation A) (P : A → Prop)
      `{!∀ x, Decision (P x)} l :
  StronglySorted R l → StronglySorted R (filter P l).
Proof.
  induction 1 as [|x r Hr IH Hall]; [constructor|].
  rewrite filter_cons. destruct (decide (P x)); [|exact IH].
  constructor; [exact IH|].
  apply Forall_forall. intros y Hy. apply list_elem_of_filter in Hy.
  rewrite Forall_forall in Hall. apply Hall, Hy.
Qed.

(** a list in the order of a numeric key starts with the elements of key 0 *)
Lemma sorted_zero_first (f : A → nat) l :
  Sorted (λ a b, Nat.leb (f a) (f b) = true) l →
  l = filter (λ d, f d = 0) l ++ filter (λ d, f d ≠ 0) l.
Proof.
  intros Hs.
  assert (Htrans : Transitive (λ a b : A, Nat.leb (f a) (f b) = true)).
  { intros a b c. rewrite !Nat.leb_le. lia. }
  apply Sorted_StronglySorted in Hs; [|exact Htrans].
  induction Hs as [|x r Hr IH Hall]; [reflexivity|].
  rewrite !filter_cons.
  destruct (decide (f x = 0)) as [E|E], (decide (f x ≠ 0)) as [E'|E'];
    try contradiction.
  - cbn [app]. f_equal. exact IH.
  - assert (Hpos : Forall (λ y, f y ≠ 0) r).
    { eapply Forall_impl; [exact Hall|]. intros y Hy. cbn in Hy.
      apply Nat.leb_le in Hy. lia. }
    rewrite (filter_none (λ d, f d = 0)), (filter_all (λ d, f d ≠ 0)).
    + reflexivity.
    + exact Hpos.
    + eapply Forall_impl; [exact Hpos|]. intros y Hy. exact Hy.
Qed.

End Filters.

Lemma count_grade_sum g c :
  sum_list_with snd (count_grade g c) = S (sum_list_with snd c).
Proof.
  induction c as [|[h n] r IH]; [reflexivity|]. cbn [count_grade].
  destruct (grade_eqb h g); cbn [sum_list_with snd]; [reflexivity|].
  rewrite IH. lia.
Qed.

Lemma grade_counts_sum ds : sum_list_with snd (grade_counts ds) = length ds.
Proof.
  unfold grade_counts.
  assert (H : ∀ c, sum_list_with snd
                     (fold_left (λ counts d, count_grade (rating_grade d) counts) ds c)
                   = sum_list_with snd c + length ds).
  { induction ds as [|d r IH]; intros c; simpl; [lia|].
    rewrite IH, count_grade_sum. lia. }
  rewrite H. reflexivity.
Qed.

(** the counted grades, once sorted, are the grades of [grade_order] that
    occur, each with the number of its records *)
Lemma sorted_counts ds sg :
  sg ≡ₚ grade_counts ds →
  Sorted (λ a b : grade * nat, Nat.leb (grade_rank a.1) (grade_rank b.1) = true) sg →
  sg = (λ g, (g, length (with_grade g ds)))
         <$> filter (λ g, 0 < length (with_grade g ds)) grade_order.
Proof.
  intros Hp Hs.
  destruct (counts_inv_grade_counts ds) as (Hnd & Hc & Hk).
  assert (Hmem : ∀ g n, (g, n) ∈ grade_counts ds
                        ↔ 0 < length (with_grade g ds) ∧ n = length (with_grade g ds)).
  { intros g n. rewrite (elem_of_counts _ _ _ Hnd), Hk, Hc.
    split; intros [H1 H2]; split; congruence. }
  assert (Htrans : Transitive (λ a b : grade * nat,
                                 Nat.leb (grade_rank a.1) (grade_rank b.1) = true)).
  { intros a b c. rewrite !Nat.leb_le. lia. }
  apply (Sorted_unique_strong
           (λ a b : grade * nat, Nat.leb (grade_rank a.1) (grade_rank b.1) = true)).
  - intros [g1 n1] [g2 n2] H1 H2 L1 L2. cbn in L1, L2.
    apply Nat.leb_le in L1. apply Nat.leb_le in L2.
    assert (g1 = g2) by (apply grade_rank_inj; lia). subst g2.
    rewrite Hp in H1. apply Hmem in H1. destruct H1 as [_ ->].
    apply list_elem_of_fmap in H2. destruct H2 as (g & [= -> ->] & _).
    reflexivity.
  - exact Hs.
  - apply StronglySorted_Sorted.
    apply (StronglySorted_fmap _ (λ g h, Nat.leb (grade_rank g) (grade_rank h) = true)).
    + intros x y H. exact H.
    + apply StronglySorted_filter. unfold grade_order.
      repeat constructor.
  - rewrite Hp. apply NoDup_Permutation.
    + apply (NoDup_fmap_1 fst), Hnd.
    + apply NoDup_fmap_2_strong.
      * intros x y _ _ [= ->]. reflexivity.
      * apply NoDup_filter, NoDup_grade_order.
    + intros [g n]. rewrite Hmem, list_elem_of_fmap. split.
      * intros [Hpos ->]. exists g. split; [reflexivity|].
        apply list_elem_of_filter. split; [exact Hpos|apply grade_listed].
      * intros (g' & [= -> ->] & Hin). apply list_elem_of_filter in Hin.
        destruct Hin as [Hpos _]. split; [exact Hpos|reflexivity].
Qed.

(** the report on a non-empty list, part by part *)
Lemma report_parts ds :
  ds ≠ [] →
  ∃ sg rs ss,
    generate_markdown_report ds
    = Ok {| total_services := length ds;
            found_services := length (filter (λ d, found d = true) ds);
            unknown_services :=
              length ds - length (filter (λ d, found d = true) ds);
            rated_percent :=
              ratio (length (filter (λ d, found d = true) ds)) (length ds);
            unknown_percent :=
              ratio (length ds - length (filter (λ d, found d = true) ds))
                    (length ds);
            key_findings :=
              filter (λ x : grade * nat, 0 < x.2)
                     ((λ g, (g, count_of g (grade_counts ds)))
                        <$> [GradeE; GradeD; GradeA; GradeB]);
            distribution :=
              (λ row : grade * nat, (row.1, row.2, ratio row.2 (length ds))) <$> sg;
            risky_services := rs;
            complete_list := (λ d, (d, found d)) <$> ss |}
    ∧ (sg ≡ₚ grade_counts ds
       ∧ Sorted (λ a b : grade * nat,
                   Nat.leb (grade_rank a.1) (grade_rank b.1) = true) sg)
    ∧ (rs ≡ₚ risky ds
       ∧ Sorted (λ a b, Nat.leb (risky_rank (rating_grade a))
                                (risky_rank (rating_grade b)) = true) rs
       ∧ (∀ (P : nat → Prop) (Hdec : ∀ k, Decision (P k)),
            (∀ a b, P a → P b → Nat.leb a b = true) →
            filter (λ d, P (risky_rank (rating_grade d))) rs
            = filter (λ d, P (risky_rank (rating_grade d))) (risky ds)))
    ∧ (ss ≡ₚ ds
       ∧ Sorted (λ a b, pair_le (report_key a) (report_key b) = true) ss
       ∧ (∀ (P : nat * string → Prop) (Hdec : ∀ k, Decision (P k)),
            (∀ a b, P a → P b → pair_le a b = true) →
            filter (λ d, P (report_key d)) ss
            = filter (λ d, P (report_key d)) ds)).
Proof.
  intros Hne.
  assert (Hlen : length ds ≠ 0) by (destruct ds; simpl; congruence).
  unfold generate_markdown_report.
  destruct (sorted_pure Nat.leb leb_total
              (λ x : grade * nat, index_or_999 x.1 grade_order)
              (λ x, grade_rank x.1) (grade_counts ds))
    as (sg & Hsg & Hpg & Hsorted_g & _); [intros x; apply index_or_999_order|].
  rewrite Hsg. cbn [bind].
  rewrite !(percent_ratio _ _ Hlen). cbn [bind].
  rewrite (distribution_rows_value _ _ Hlen). cbn [bind].
  destruct (sorted_pure Nat.leb leb_total
              (λ d, index_or_999 (rating_grade d) [GradeE; GradeD])
              (λ d, risky_rank (rating_grade d))
              (filter (λ d, grade_in (rating_grade d) [GradeE; GradeD] = true) ds))
    as (rs & Hrs & Hpr & Hsorted_r & Hstable_r);
    [intros x; apply index_or_999_risky|].
  rewrite Hrs. cbn [bind].
  destruct (sorted_pure pair_le pair_le_total
              (λ d, i <~ index_of (rating_grade d) grade_order ;; Ok (i, name d))
              report_key ds)
    as (ss & Hss & Hps & Hsorted_s & Hstable_s).
  { intros x. rewrite index_of_order. reflexivity. }
  rewrite Hss. cbn [bind].
  exists sg, rs, ss. split; [reflexivity|].
  split; [split; assumption|].
  split; [split; [assumption|split; assumption]|].
  split; [assumption|split; assumption].
Qed.

Lemma rows_sum (t : nat) (sg : list (grade * nat)) :
  sum_list_with (λ row : grade * nat * Q, row.1.2)
                ((λ row : grade * nat, (row.1, row.2, ratio row.2 t)) <$> sg)
  = sum_list_with snd sg.
Proof.
  induction sg as [|x r IH]; [reflexivity|].
  rewrite fmap_cons. cbn [sum_list_with fst snd]. rewrite IH. reflexivity.
Qed.

Lemma rows_percent_sum (t : nat) (sg : list (grade * nat)) :
  t ≠ 0 →
  Qeq (foldr Qplus (inject_Z 0)
             (((λ row : grade * nat, (row.1, row.2, ratio row.2 t)) <$> sg).*2))
      (ratio (sum_list_with snd sg) t).
Proof.
  intros Ht. induction sg as [|x r IH].
  - cbn. symmetry. apply ratio_zero.
  - rewrite !fmap_cons. cbn [foldr sum_list_with fst snd].
    rewrite IH. apply ratio_add, Ht.
Qed.

Lemma risky_by_rank ds :
  filter (λ d, risky_rank (rating_grade d) = 0) (risky ds) = with_grade GradeE ds
  ∧ filter (λ d, risky_rank (rating_grade d) = 1) (risky ds) = with_grade GradeD ds.
Proof.
  unfold risky, with_grade. rewrite !list_filter_filter.
  split; apply list_filter_iff; intros d; destruct (rating_grade d); simpl;
    intuition (discriminate || lia || auto).
Qed.

Lemma found_or_unknown ds :
  length (filter (λ d, found d = true) ds) + length (with_grade GradeUnknown ds)
  = length ds.
Proof.
  unfold with_grade, found. induction ds as [|d r IH]; [reflexivity|].
  rewrite !filter_cons.
  destruct (decide (negb (grade_eqb (rating_grade d) GradeUnknown) = true)) as [E|E],
           (decide (grade_eqb (rating_grade d) GradeUnknown = true)) as [E'|E'];
    cbn [length]; try lia.
  - rewrite E' in E. discriminate.
  - destruct (grade_eqb (rating_grade d) GradeUnknown); simpl in *; congruence.
Qed.

End MoreReportingFacts.

(** X19. The summary of a report adds up: its total is the number of
    results, its number of unknown services is the number of results whose
    grade is Unknown, the rated and the unknown services add up to the total,
    and the two percentages of the executive summary, as exact quotients, add
    up to 100. *)
Theorem report_summary_adds_up :
  ∀ (domains_data : list Reporting.rating) (r : Reporting.report),
    Reporting.generate_markdown_report domains_data = Ok r →
    Reporting.total_services r = length domains_data
    ∧ Reporting.unknown_services r
      = length (with_grade Reporting.GradeUnknown domains_data)
    ∧ Reporting.found_services r + Reporting.unknown_services r
      = Reporting.total_services r
    ∧ Qeq (Qplus (Reporting.rated_percent r) (Reporting.unknown_percent r))
          (inject_Z 100).
Proof.
  intros domains_data r Hgen.
  assert (Hne : domains_data ≠ []) by (intros ->; discriminate).
  destruct (report_parts domains_data Hne) as (sg & rs & ss & Hr & _).
  rewrite Hr in Hgen. injection Hgen as <-. cbn.
  pose proof (length_filter (λ d, Reporting.found d = true) domains_data) as Hle.
  assert (Hlen : length domains_data ≠ 0) by (destruct domains_data; simpl; congruence).
  split; [reflexivity|]. split; [|split].
  - pose proof (found_or_unknown domains_data). lia.
  - lia.
  - apply ratio_sum; assumption.
Qed.

Lemma report_summary_adds_up_witness :
  ∃ r, Reporting.generate_markdown_report
         [ {| Reporting.domain := "github.com";
              Reporting.rating_grade := Reporting.GradeB;
              Reporting.service_id := Some 297%Z;
              Reporting.name := "GitHub" |};
           {| Reporting.domain := "example.org";
              Reporting.rating_grade := Reporting.GradeUnknown;
              Reporting.service_id := None;
              Reporting.name := "example.org" |} ] = Ok r
       ∧ Reporting.total_services r = 2
       ∧ Reporting.unknown_services r = 1
       ∧ Reporting.found_services r + Reporting.unknown_services r
         = Reporting.total_services r
       ∧ Qeq (Qplus (Reporting.rated_percent r) (Reporting.unknown_percent r))
             (inject_Z 100).
Proof.
  eexists. split; [reflexivity|].
  apply (report_summary_adds_up
           [ {| Reporting.domain := "github.com";
                Reporting.rating_grade := Reporting.GradeB;
                Reporting.service_id := Some 297%Z;
                Reporting.name := "GitHub" |};
             {| Reporting.domain := "example.org";
                Reporting.rating_grade := Reporting.GradeUnknown;
                Reporting.service_id := None;
                Reporting.name := "example.org" |} ]).
  reflexivity.
Defined.

(** X20. The key findings of the report list, in the order E, D, A, B, the
    grades among these four that at least one result has, each with the
    number of results of that grade. *)
Theorem report_key_findings (domains_data : list Reporting.rating) :
  domains_data ≠ [] →
  ∃ r, Reporting.generate_markdown_report domains_data = Ok r
       ∧ Reporting.key_findings r
         = (λ g, (g, length (with_grade g domains_data)))
             <$> filter (λ g, 0 < length (with_grade g domains_data))
                        [Reporting.GradeE; Reporting.GradeD;
                         Reporting.GradeA; Reporting.GradeB].
Proof.
  intros Hne. destruct (report_parts domains_data Hne) as (sg & rs & ss & Hr & _).
  eexists. split; [exact Hr|]. cbn [Reporting.key_findings].
  destruct (counts_inv_grade_counts domains_data) as (_ & Hc & _).
  assert (Hm : (λ g, (g, Reporting.count_of g (Reporting.grade_counts domains_data)))
                 <$> [Reporting.GradeE; Reporting.GradeD;
                      Reporting.GradeA; Reporting.GradeB]
               = (λ g, (g, length (with_grade g domains_data)))
                   <$> [Reporting.GradeE; Reporting.GradeD;
                        Reporting.GradeA; Reporting.GradeB]).
  { rewrite !fmap_cons, !Hc. reflexivity. }
  rewrite Hm, filter_fmap. f_equal.
Qed.

Lemma report_key_findings_witness :
  ∃ r, Reporting.generate_markdown_report
         [ {| Reporting.domain := "github.com";
              Reporting.rating_grade := Reporting.GradeB;
              Reporting.service_id := Some 297%Z;
              Reporting.name := "GitHub" |};
           {| Reporting.domain := "facebook.com";
              Reporting.rating_grade := Reporting.GradeE;
              Reporting.service_id := Some 182%Z;
              Reporting.name := "Facebook" |} ] = Ok r
       ∧ Reporting.key_findings r = [(Reporting.GradeE, 1); (Reporting.GradeB, 1)].
Proof.
  apply (report_key_findings
           [ {| Reporting.domain := "github.com";
                Reporting.rating_grade := Reporting.GradeB;
                Reporting.service_id := Some 297%Z;
                Reporting.name := "GitHub" |};
             {| Reporting.domain := "facebook.com";
                Reporting.rating_grade := Reporting.GradeE;
                Reporting.service_id := Some 182%Z;
                Reporting.name := "Facebook" |} ]).
  discriminate.
Defined.

(** X21. The grade distribution table of the report has one row for every
    grade that at least one result has, in the order A, B, C, D, E, Unknown;
    the row holds the number of results of that grade and that number's
    share of the total, as an exact quotient. *)
Theorem report_distribution (domains_data : list Reporting.rating) :
  domains_data ≠ [] →
  ∃ r, Reporting.generate_markdown_report domains_data = Ok r
       ∧ Reporting.distribution r
         = (λ g, (g, length (with_grade g domains_data),
                  ratio (length (with_grade g domains_data)) (length domains_data)))
             <$> filter (λ g, 0 < length (with_grade g domains_data))
                        Reporting.grade_order.
Proof.
  intros Hne.
  destruct (report_parts domains_data Hne)
    as (sg & rs & ss & Hr & (Hp & Hs) & _).
  eexists. split; [exact Hr|]. cbn [Reporting.distribution].
  rewrite (sorted_counts domains_data sg Hp Hs), <- list_fmap_compose.
  reflexivity.
Qed.

Lemma report_distribution_witness :
  ∃ r, Reporting.generate_markdown_report
         [ {| Reporting.domain := "example.org";
              Reporting.rating_grade := Reporting.GradeUnknown;
              Reporting.service_id := None;
              Reporting.name := "example.org" |};
           {| Reporting.domain := "github.com";
              Reporting.rating_grade := Reporting.GradeB;
              Reporting.service_id := Some 297%Z;
              Reporting.name := "GitHub" |} ] = Ok r
       ∧ Reporting.distribution r
         = [ (Reporting.GradeB, 1, ratio 1 2); (Reporting.GradeUnknown, 1, ratio 1 2) ].
Proof.
  apply (report_distribution
           [ {| Reporting.domain := "example.org";
                Reporting.rating_grade := Reporting.GradeUnknown;
                Reporting.service_id := None;
                Reporting.name := "example.org" |};
             {| Reporting.domain := "github.com";
                Reporting.rating_grade := Reporting.GradeB;
                Reporting.service_id := Some 297%Z;
                Reporting.name := "GitHub" |} ]).
  discriminate.
Defined.

(** X22. The counts of the grade distribution table add up to the number of
    results, and its percentages, as exact quotients, add up to 100. *)
Theorem report_distribution_adds_up (domains_data : list Reporting.rating) :
  domains_data ≠ [] →
  ∃ r, Reporting.generate_markdown_report domains_data = Ok r
       ∧ sum_list_with (λ row : Reporting.grade * nat * Q, row.1.2)
                       (Reporting.distribution r)
         = length domains_data
       ∧ Qeq (foldr Qplus (inject_Z 0) ((Reporting.distribution r).*2))
             (inject_Z 100).
Proof.
  intros Hne.
  destruct (report_parts domains_data Hne)
    as (sg & rs & ss & Hr & (Hp & Hs) & _).
  assert (Hlen : length domains_data ≠ 0) by (destruct domains_data; simpl; congruence).
  assert (Hsum : sum_list_with snd sg = length domains_data).
  { rewrite Hp. apply grade_counts_sum. }
  eexists. split; [exact Hr|]. cbn [Reporting.distribution]. split.
  - rewrite rows_sum. exact Hsum.
  - rewrite (rows_percent_sum _ _ Hlen), Hsum. apply ratio_full, Hlen.
Qed.

Lemma report_distribution_adds_up_witness :
  ∃ r, Reporting.generate_markdown_report
         [ {| Reporting.domain := "example.org";
              Reporting.rating_grade := Reporting.GradeUnknown;
              Reporting.service_id := None;
              Reporting.name := "example.org" |};
           {| Reporting.domain := "github.com";
              Reporting.rating_grade := Reporting.GradeB;
              Reporting.service_id := Some 297%Z;
              Reporting.name := "GitHub" |};
           {| Reporting.domain := "gitlab.com";
              Reporting.rating_grade := Reporting.GradeB;
              Reporting.service_id := Some 305%Z;
              Reporting.name := "GitLab" |} ] = Ok r
       ∧ sum_list_with (λ row : Reporting.grade * nat * Q, row.1.2)
                       (Reporting.distribution r)
         = 3
       ∧ Qeq (foldr Qplus (inject_Z 0) ((Reporting.distribution r).*2))
             (inject_Z 100).
Proof.
  apply (report_distribution_adds_up
           [ {| Reporting.domain := "example.org";
                Reporting.rating_grade := Reporting.GradeUnknown;
                Reporting.service_id := None;
                Reporting.name := "example.org" |};
             {| Reporting.domain := "github.com";
                Reporting.rating_grade := Reporting.GradeB;
                Reporting.service_id := Some 297%Z;
                Reporting.name := "GitHub" |};
             {| Reporting.domain := "gitlab.com";
                Reporting.rating_grade := Reporting.GradeB;
                Reporting.service_id := Some 305%Z;
                Reporting.name := "GitLab" |} ]).
  discriminate.
Defined.

(** X23. The table of services with poor privacy practices lists the results
    of grade E, in the order of the input, followed by the results of grade
    D, in the order of the input, and nothing else. *)
Theorem report_risky_services (domains_data : list Reporting.rating) :
  domains_data ≠ [] →
  ∃ r, Reporting.generate_markdown_report domains_data = Ok r
       ∧ Reporting.risky_services r
         = with_grade Reporting.GradeE domains_data
           ++ with_grade Reporting.GradeD domains_data.
Proof.
  intros Hne.
  destruct (report_parts domains_data Hne)
    as (sg & rs & ss & Hr & _ & (Hp & Hs & Hstable) & _).
  eexists. split; [exact Hr|]. cbn [Reporting.risky_services].
  destruct (risky_by_rank domains_data) as [HE HD].
  assert (H0 := Hstable (λ k, k = 0) _ (λ a b Ha Hb, f_equal2 Nat.leb Ha Hb)).
  assert (H1 := Hstable (λ k, k = 1) _ (λ a b Ha Hb, f_equal2 Nat.leb Ha Hb)).
  cbn beta in H0, H1.
  rewrite (sorted_zero_first
             (λ d, risky_rank (Reporting.rating_grade d)) rs Hs).
  f_equal.
  - rewrite <- HE. exact H0.
  - rewrite <- HD. etrans; [|exact H1].
    apply filter_within. apply Forall_forall. intros d Hd.
    rewrite Hp in Hd. unfold risky in Hd. apply list_elem_of_filter in Hd.
    destruct Hd as [Hg _]. destruct (Reporting.rating_grade d); simpl in *;
      split; intros H; (discriminate || lia || congruence).
Qed.

Lemma report_risky_services_witness :
  ∃ r, Reporting.generate_markdown_report
         [ {| Reporting.domain := "reddit.com";
              Reporting.rating_grade := Reporting.GradeD;
              Reporting.service_id := Some 194%Z;
              Reporting.name := "Reddit" |};
           {| Reporting.domain := "github.com";
              Reporting.rating_grade := Reporting.GradeB;
              Reporting.service_id := Some 297%Z;
              Reporting.name := "GitHub" |};
           {| Reporting.domain := "facebook.com";
              Reporting.rating_grade := Reporting.GradeE;
              Reporting.service_id := Some 182%Z;
              Reporting.name := "Facebook" |} ] = Ok r
       ∧ Reporting.risky_services r
         = [ {| Reporting.domain := "facebook.com";
                Reporting.rating_grade := Reporting.GradeE;
                Reporting.service_id := Some 182%Z;
                Reporting.name := "Facebook" |};
             {| Reporting.domain := "reddit.com";
                Reporting.rating_grade := Reporting.GradeD;
                Reporting.service_id := Some 194%Z;
                Reporting.name := "Reddit" |} ].
Proof.
  apply (report_risky_services
           [ {| Reporting.domain := "reddit.com";
                Reporting.rating_grade := Reporting.GradeD;
                Reporting.service_id := Some 194%Z;
                Reporting.name := "Reddit" |};
             {| Reporting.domain := "github.com";
                Reporting.rating_grade := Reporting.GradeB;
                Reporting.service_id := Some 297%Z;
                Reporting.name := "GitHub" |};
             {| Reporting.domain := "facebook.com";
                Reporting.rating_grade := Reporting.GradeE;
                Reporting.service_id := Some 182%Z;
                Reporting.name := "Facebook" |} ]).
  discriminate.
Defined.

(** X24. The complete service table lists every result exactly once, in the
    order of the grades A, B, C, D, E, Unknown and, within a grade, of the
    names; results with the same grade and the same name keep the order of
    the input; the status of a row is [Found] unless its grade is
    Unknown. *)
Theorem report_complete_list (domains_data : list Reporting.rating) :
  domains_data ≠ [] →
  ∃ r, Reporting.generate_markdown_report domains_data = Ok r
       ∧ (Reporting.complete_list r).*1 ≡ₚ domains_data
       ∧ Sorted (λ a b, Reporting.pair_le (report_key a) (report_key b) = true)
                ((Reporting.complete_list r).*1)
       ∧ (∀ k, filter (λ d, report_key d = k) ((Reporting.complete_list r).*1)
               = filter (λ d, report_key d = k) domains_data)
       ∧ Forall (λ row : Reporting.rating * bool,
                   row.2 = true ↔ Reporting.rating_grade row.1 ≠ Reporting.GradeUnknown)
                (Reporting.complete_list r).
Proof.
  intros Hne.
  destruct (report_parts domains_data Hne)
    as (sg & rs & ss & Hr & _ & _ & (Hp & Hs & Hstable)).
  eexists. split; [exact Hr|]. cbn [Reporting.complete_list].
  assert (Hfst : ((λ d, (d, Reporting.found d)) <$> ss).*1 = ss).
  { rewrite <- list_fmap_compose. apply list_fmap_id. }
  rewrite Hfst. split; [exact Hp|]. split; [exact Hs|]. split.
  - intros k.
    assert (Hk := Hstable (λ k', k' = k) _).
    cbn beta in Hk. apply Hk.
    intros a b -> ->. apply pair_le_refl.
  - apply Forall_fmap, Forall_forall. intros d _. cbn.
    unfold Reporting.found. destruct (Reporting.rating_grade d); simpl;
      split; intros H; congruence.
Qed.

Lemma report_complete_list_witness :
  ∃ r, Reporting.generate_markdown_report
         [ {| Reporting.domain := "reddit.com";
              Reporting.rating_grade := Reporting.GradeD;
              Reporting.service_id := Some 194%Z;
              Reporting.name := "Reddit" |};
           {| Reporting.domain := "github.com";
              Reporting.rating_grade := Reporting.GradeB;
              Reporting.service_id := Some 297%Z;
              Reporting.name := "GitHub" |} ] = Ok r
       ∧ (Reporting.complete_list r).*1
         ≡ₚ [ {| Reporting.domain := "reddit.com";
                 Reporting.rating_grade := Reporting.GradeD;
                 Reporting.service_id := Some 194%Z;
                 Reporting.name := "Reddit" |};
               {| Reporting.domain := "github.com";
                  Reporting.rating_grade := Reporting.GradeB;
                  Reporting.service_id := Some 297%Z;
                  Reporting.name := "GitHub" |} ]
       ∧ Sorted (λ a b, Reporting.pair_le (report_key a) (report_key b) = true)
                ((Reporting.complete_list r).*1)
       ∧ (∀ k, filter (λ d, report_key d = k) ((Reporting.complete_list r).*1)
               = filter (λ d, report_key d = k)
                   [ {| Reporting.domain := "reddit.com";
                        Reporting.rating_grade := Reporting.GradeD;
                        Reporting.service_id := Some 194%Z;
                        Reporting.name := "Reddit" |};
                     {| Reporting.domain := "github.com";
                        Reporting.rating_grade := Reporting.GradeB;
                        Reporting.service_id := Some 297%Z;
                        Reporting.name := "GitHub" |} ])
       ∧ Forall (λ row : Reporting.rating * bool,
                   row.2 = true ↔ Reporting.rating_grade row.1 ≠ Reporting.GradeUnknown)
                (Reporting.complete_list r).
Proof.
  apply (report_complete_list
           [ {| Reporting.domain := "reddit.com";
                Reporting.rating_grade := Reporting.GradeD;
                Reporting.service_id := Some 194%Z;
                Reporting.name := "Reddit" |};
             {| Reporting.domain := "github.com";
                Reporting.rating_grade := Reporting.GradeB;
                Reporting.service_id := Some 297%Z;
                Reporting.name := "GitHub" |} ]).
  discriminate.
Defined.

(* ===================================================================== *)
(** * Further properties of the second normaliser                         *)
(* ===================================================================== *)

Section MoreNormalizerFacts.
Import DomainNormalizer.

Lemma normalize_is_lower (extract : string → ExtractResult) url :
  lower (normalize extract url) = normalize extract url.
Proof.
  unfold normalize. destruct (String.eqb url ""); [reflexivity|].
  destruct (_ || _); apply lower_lower.
Qed.

End MoreNormalizerFacts.

(** X25. The list of normalised domains that [main] builds has no duplicate
    and no empty entry, holds only lower-case text, holds the normal form of
    every non-empty input domain, and holds nothing else, whatever
    [tldextract] answers. *)
Theorem normalized_domains_invariant :
  ∀ (extract : string → DomainNormalizer.ExtractResult) (domains : list string),
    NoDup (DomainNormalizer.normalized_domains extract domains)
    ∧ ("" ∉ DomainNormalizer.normalized_domains extract domains)
    ∧ Forall (λ x, lower x = x) (DomainNormalizer.normalized_domains extract domains)
    ∧ (∀ x, x ∈ DomainNormalizer.normalized_domains extract domains
            ↔ ∃ d, d ∈ domains ∧ d ≠ "" ∧ x = DomainNormalizer.normalize extract d).
Proof.
  intros extract domains. unfold DomainNormalizer.normalized_domains.
  rewrite normalized_domains_fold, keep_fresh_all.
  assert (Hin : ∀ x, x ∈ first_occurrences
                         (filter (λ d, d ≠ "")
                                 (DomainNormalizer.normalize extract <$> domains))
                     ↔ ∃ d, d ∈ domains ∧ d ≠ ""
                            ∧ x = DomainNormalizer.normalize extract d).
  { intros x. rewrite elem_of_first_occurrences, list_elem_of_filter,
      list_elem_of_fmap. split.
    - intros (Hne & d & -> & Hd). exists d. split; [exact Hd|].
      split; [|reflexivity]. intros ->. apply Hne. reflexivity.
    - intros (d & Hd & Hne & ->). split; [apply normalize_not_empty, Hne|].
      exists d. split; [reflexivity|exact Hd]. }
  split; [apply NoDup_first_occurrences|]. split; [|split; [|exact Hin]].
  - intros H. apply Hin in H. destruct H as (d & _ & Hne & Heq).
    symmetry in Heq. exact (normalize_not_empty extract d Hne Heq).
  - apply Forall_forall. intros x Hx. apply Hin in Hx.
    destruct Hx as (d & _ & _ & ->). apply normalize_is_lower.
Qed.
